(** * PlanView: the Gantt view of a plan (PlanView.ts)

    A shallow embedding of the [PlanView] class: the time-to-pixel mapping,
    the split of a step between plan head and relaxed plan, the colour of a
    step's bar, and the elements the view adds to its host.

    JavaScript numbers are IEEE 754 binary64 values: they are modelled by
    Rocq's primitive floats, whose operations are the processor's, so every
    function below evaluates as the TypeScript does, NaN, infinities and
    rounding included. *)

From Stdlib Require Import ZArith List Bool Ascii String Lia.
From Stdlib Require Import Uint63 Floats.
From Stdlib Require Import Reals Lra.
Import ListNotations.

#[local] Set Warnings "-inexact-float,-register-all".
#[local] Open Scope float_scope.

(** ** JavaScript values the view computes with *)

Module JS.

(** [number]: a double. *)
Definition number := float.

(** [a ?? b] on a value that may be [undefined]. *)
Definition nullish {A : Type} (a : option A) (b : A) : A :=
  match a with
  | Some v => v
  | None => b
  end.

(** [a === undefined]. *)
Definition isUndefined {A : Type} (a : option A) : bool :=
  match a with
  | Some _ => false
  | None => true
  end.

(** ToNumber on a number that may be [undefined]: [undefined] becomes NaN
    in a comparison or a subtraction. *)
Definition toNumber (a : option number) : number := nullish a nan.

(** [a >= b]: false as soon as one side is NaN. *)
Definition geb (a b : number) : bool := b <=? a.

(** [a > b]. *)
Definition gtb (a b : number) : bool := b <? a.

(** [Math.max(a, b)]: NaN when an argument is NaN, and [+0] is larger than
    [-0]. *)
Definition Math_max (a b : number) : number :=
  if is_nan a || is_nan b then nan
  else if a <? b then b
  else if b <? a then a
  else if is_zero a && get_sign a then b
  else a.

(** An array index or a length as a number. *)
Definition ofNat (n : nat) : number := of_uint63 (Uint63.of_Z (Z.of_nat n)).

(** [a % b] on integers: the remainder has the sign of the dividend. *)
Definition rem (a b : Z) : Z := Z.rem a b.

(** [xs.findIndex(p)]: the index of the first element that satisfies [p],
    and -1 when there is none. *)
Fixpoint findIndexFrom {A : Type} (p : A -> bool) (xs : list A) (i : Z) : Z :=
  match xs with
  | [] => (-1)%Z
  | x :: rest => if p x then i else findIndexFrom p rest (i + 1)%Z
  end.

Definition findIndex {A : Type} (p : A -> bool) (xs : list A) : Z :=
  findIndexFrom p xs 0%Z.

(** [xs.join(sep)]. *)
Definition join (sep : string) (xs : list string) : string :=
  String.concat sep xs.

End JS.

(** ** The plan, as the view reads it (pddl-workspace) *)

(** Modelled from the spec: the declaration of [PlanStepCommitment] is in the
    pddl-workspace package.  The three values the view names, and one more
    for any other value a step may carry. *)
Inductive PlanStepCommitment : Set :=
  | Committed
  | EndsInRelaxedPlan
  | StartsInRelaxedPlan
  | Unknown.

Definition PlanStepCommitment_eqb (a b : PlanStepCommitment) : bool :=
  match a, b with
  | Committed, Committed
  | EndsInRelaxedPlan, EndsInRelaxedPlan
  | StartsInRelaxedPlan, StartsInRelaxedPlan
  | Unknown, Unknown => true
  | _, _ => false
  end.

(** Modelled from the spec: [PlanStep] is declared in the pddl-workspace
    package.  One field per accessor the view calls; start time and duration
    may be [undefined], the end time is a number. *)
Record PlanStep : Type := mkPlanStep {
  getActionName : string;
  getObjects : list string;
  getStartTime : option JS.number;
  getDuration : option JS.number;
  getEndTime : JS.number;
  isDurative : bool;
  commitment : PlanStepCommitment;
  getIterations : JS.number
}.

(** Modelled from the spec: [HappeningType] and [HelpfulAction] are declared
    in the pddl-workspace package. *)
Inductive HappeningType : Set :=
  | START
  | END
  | OTHER.

Record HelpfulAction : Type := mkHelpfulAction {
  actionName : string;
  kind : HappeningType
}.

(** Modelled from the spec: an action of the domain, read through its one
    accessor. *)
Record Action : Type := mkAction {
  getNameOrEmpty : string
}.

Record DomainInfo : Type := mkDomainInfo {
  fileUri : string;
  getActions : list Action
}.

Record Plan : Type := mkPlan {
  steps : list PlanStep;
  now : option JS.number;
  makespan : JS.number;
  helpfulActions : option (list HelpfulAction);
  domain : option DomainInfo
}.

(** Modelled from the spec: [Plan.hasHelpfulActions] is declared in the
    pddl-workspace package; it holds when any helpful action exists. *)
Definition hasHelpfulActions (plan : Plan) : bool :=
  match helpfulActions plan with
  | Some (_ :: _) => true
  | _ => false
  end.

Record PlanViewOptions : Type := mkPlanViewOptions {
  epsilon : JS.number;
  displayWidth : JS.number;
  disableSwimlanes : option bool;
  selfContained : option bool
}.

(** [PlanReportSettings]: the one method of the interface. *)
Record PlanReportSettings : Type := mkPlanReportSettings {
  settingsShouldDisplay : PlanStep -> bool
}.

(** ** The computations of [PlanView] *)

Section PlanViewNumbers.

Variable options : PlanViewOptions.

Definition planStepHeight : JS.number := 20.

(** [toViewCoordinates]: converts the time argument to view coordinates. *)
Definition toViewCoordinates (time : option JS.number) (plan : Plan) : JS.number :=
  JS.nullish time 0 / makespan plan * displayWidth options.

Definition computeLeftOffset (step : PlanStep) (plan : Plan) : JS.number :=
  toViewCoordinates (getStartTime step) plan.

Definition computePlanHeadDuration (step : PlanStep) (plan : Plan) : JS.number :=
  match now plan with
  | None => JS.nullish (getDuration step) (epsilon options)
  | Some plan_now =>
      if getEndTime step <? plan_now then
        if PlanStepCommitment_eqb (commitment step) Committed
        then JS.nullish (getDuration step) (epsilon options)
        else 0
      else if JS.geb (JS.toNumber (getStartTime step)) plan_now then 0
      else
        match commitment step with
        | Committed => JS.nullish (getDuration step) (epsilon options)
        | EndsInRelaxedPlan => 0
        | StartsInRelaxedPlan => plan_now - JS.toNumber (getStartTime step)
        | _ => 0
        end
  end.

Definition computeWidth (planHeadDuration : JS.number) (plan : Plan) : JS.number :=
  JS.Math_max 1 (toViewCoordinates (Some planHeadDuration) plan).

(** The local [relaxedDuration] of [computeRelaxedWidth]. *)
Definition relaxedDuration (planHeadDuration : JS.number) (step : PlanStep) : JS.number :=
  JS.nullish (getDuration step) (epsilon options) - planHeadDuration.

Definition computeRelaxedWidth (planHeadDuration : JS.number) (step : PlanStep)
    (plan : Plan) : JS.number :=
  toViewCoordinates (Some (relaxedDuration planHeadDuration step)) plan.

End PlanViewNumbers.

Definition isPlanHeadStep (step : PlanStep) (timeNow : option JS.number) : bool :=
  JS.isUndefined timeNow
  || PlanStepCommitment_eqb (commitment step) Committed
  || PlanStepCommitment_eqb (commitment step) EndsInRelaxedPlan.

Definition shouldDisplay (planStep : PlanStep) (settings : option PlanReportSettings) : bool :=
  match settings with
  | Some s => settingsShouldDisplay s planStep
  | None => true
  end.

(** The palette of the view. *)
Definition colors : list string :=
  [ "#ff0000"; "#ff4000"; "#ff8000"; "#ffbf00"; "#ffff00"; "#bfff00";
    "#80ff00"; "#40ff00"; "#00ff00"; "#00ff40"; "#00ff80"; "#00ffbf";
    "#00ffff"; "#00bfff"; "#0080ff"; "#0040ff"; "#0000ff"; "#4000ff";
    "#8000ff"; "#bf00ff"; "#ff00ff"; "#ff00bf"; "#ff0080"; "#ff0040" ]%string.

(** [colors[i]]: reading past the end of an array gives [undefined]. *)
Definition colorAt (i : Z) : option string :=
  if (i <? 0)%Z then None else nth_error colors (Z.to_nat i).

Section ActionColours.

(** [String.prototype.toLowerCase], of the JavaScript library: the view is
    taken for any function of strings, so that what is proved of it holds
    whatever letters the folding changes. *)
Variable toLowerCase : string -> string.

(** The test of [findIndex] in [getActionColor]. *)
Definition sameActionName (step : PlanStep) (action : Action) : bool :=
  String.eqb (toLowerCase (getNameOrEmpty action))
             (toLowerCase (getActionName step)).

(** [getActionColor]; the result is [None] where the TypeScript would return
    [undefined] from the array.  An index into the actions is an integer far
    below 2^53, on which the arithmetic of numbers is that of the integers. *)
Definition getActionColor (step : PlanStep) (domain : option DomainInfo) : option string :=
  let actionIndex :=
    option_map (fun d => JS.findIndex (sameActionName step) (getActions d)) domain in
  match actionIndex with
  | None => Some "gray"%string
  | Some i =>
      if (i <? 0)%Z then Some "gray"%string
      else colorAt (JS.rem (i * 7) (Z.of_nat (List.length colors)))
  end.

(** The [actionColor] of [renderGanttStep]. *)
Definition actionColor (step : PlanStep) (plan : Plan) : option string :=
  match domain plan with
  | Some d => getActionColor step (Some d)
  | None => Some "gray"%string
  end.

End ActionColours.

Definition getActionSuffix (helpfulAction : HelpfulAction) : string :=
  match kind helpfulAction with
  | START => "├"
  | END => "┤"
  | _ => ""
  end.

(** ** The document the view writes to *)

(** Text built by a template literal: its literal pieces and the values put
    between them.  How a number prints is left symbolic: [Num x] is the text
    of the number [x], [Fixed x d] is [x.toFixed(d)], and [RevealUri] is the
    encoded command of [toActionLink]. *)
Inductive Chunk : Type :=
  | Lit (s : string)
  | Num (x : JS.number)
  | Fixed (x : JS.number) (digits : Z)
  | RevealUri (fileUri actionName : string).

Definition Text : Type := list Chunk.

(** What a click on a link calls. *)
Inductive Handler : Type :=
  | HelpfulActionSelected (actionName : string).

Inductive PropValue : Type :=
  | PText (t : Text)
  | PHandler (h : Handler).

(** A node of the document: a text node, or an element with its tag, its
    class attribute, the properties set on it and its children in order. *)
Inductive Node : Type :=
  | TextNode (data : Text)
  | Element (tagName className : string) (props : list (string * PropValue))
      (children : list Node).

Module Dom.

Definition createElement (tagName : string) : Node := Element tagName "" [] [].

Definition createTextNode (data : Text) : Node := TextNode data.

Definition childrenOf (n : Node) : list Node :=
  match n with
  | TextNode _ => []
  | Element _ _ _ kids => kids
  end.

Definition propsOf (n : Node) : list (string * PropValue) :=
  match n with
  | TextNode _ => []
  | Element _ _ props _ => props
  end.

Definition setClassName (n : Node) (cls : string) : Node :=
  match n with
  | TextNode _ => n
  | Element tag _ props kids => Element tag cls props kids
  end.

(** Assigning a property: the last value wins. *)
Fixpoint assign (key : string) (v : PropValue) (props : list (string * PropValue))
    : list (string * PropValue) :=
  match props with
  | [] => [(key, v)]
  | (k, old) :: rest =>
      if String.eqb k key then (k, v) :: rest else (k, old) :: assign key v rest
  end.

(** Reading a property; [None] when it was never assigned. *)
Fixpoint lookup (key : string) (props : list (string * PropValue)) : option PropValue :=
  match props with
  | [] => None
  | (k, v) :: rest => if String.eqb k key then Some v else lookup key rest
  end.

Definition setProp (n : Node) (key : string) (v : PropValue) : Node :=
  match n with
  | TextNode _ => n
  | Element tag cls props kids => Element tag cls (assign key v props) kids
  end.

Definition setText (n : Node) (key : string) (t : Text) : Node :=
  setProp n key (PText t).

(** The number of a pixel length, the text of a number followed by [px]. *)
Definition lengthOf (t : Text) : option JS.number :=
  match t with
  | [Num x; Lit unit] => if String.eqb unit "px" then Some x else None
  | _ => None
  end.

(** The style properties, among those the view writes, whose length may not
    be negative. *)
Definition nonNegativeLength (property : string) : bool :=
  String.eqb property "style.width" || String.eqb property "style.height".

(** Whether [t] is a value of the length [property]: the number is finite
    ([NaNpx] and [Infinitypx] are no lengths) and, for a width or a height,
    not negative. *)
Definition validLength (property : string) (t : Text) : bool :=
  match lengthOf t with
  | Some x => is_finite x && (negb (nonNegativeLength property) || (0 <=? x))
  | None => false
  end.

(** [n.style.property = t], for a property that takes a length: a value
    that is not valid is ignored, and the property stays as it is. *)
Definition setStyle (n : Node) (property : string) (t : Text) : Node :=
  match n with
  | TextNode _ => n
  | Element tag cls props kids =>
      Element tag cls
        (if validLength property t then assign property (PText t) props else props) kids
  end.

(** [parent.appendChild(child)]: the child becomes the last one. *)
Definition appendChild (parent child : Node) : Node :=
  match parent with
  | TextNode _ => parent
  | Element tag cls props kids => Element tag cls props (kids ++ [child])
  end.

(** [parent.append(n1, ..., nk)]. *)
Definition append (parent : Node) (nodes : list Node) : Node :=
  fold_left appendChild nodes parent.

Definition isSpace (c : ascii) : bool :=
  match nat_of_ascii c with
  | 9 | 10 | 12 | 13 | 32 => true
  | _ => false
  end.

(** The class names of a class attribute; [cur] is the name being read. *)
Fixpoint classNames (s : string) (cur : string) : list string :=
  match s with
  | EmptyString => if String.eqb cur "" then [] else [cur]
  | String c rest =>
      if isSpace c then
        if String.eqb cur "" then classNames rest "" else cur :: classNames rest ""
      else classNames rest (cur ++ String c "")
  end.

(** The selector [.cls]. *)
Definition hasClass (cls : string) (n : Node) : bool :=
  match n with
  | TextNode _ => false
  | Element _ className _ _ => existsb (String.eqb cls) (classNames className "")
  end.

(** [n.querySelector(sel)]: the first descendant of [n], in document order,
    that matches. *)
Fixpoint querySelector (sel : Node -> bool) (n : Node) : option Node :=
  match n with
  | TextNode _ => None
  | Element _ _ _ kids =>
      (fix first (l : list Node) : option Node :=
         match l with
         | [] => None
         | k :: rest =>
             if sel k then Some k
             else match querySelector sel k with
                  | Some found => Some found
                  | None => first rest
                  end
         end) kids
  end.

(** [n.querySelectorAll(sel)]: the descendants of [n] that match, in
    document order. *)
Fixpoint querySelectorAll (sel : Node -> bool) (n : Node) : list Node :=
  match n with
  | TextNode _ => []
  | Element _ _ _ kids =>
      (fix all (l : list Node) : list Node :=
         match l with
         | [] => []
         | k :: rest =>
             (if sel k then [k] else []) ++ querySelectorAll sel k ++ all rest
         end) kids
  end.

(** The document after [f] has changed, in place, the element that
    [querySelector] finds; [None] when it finds none. *)
Fixpoint updateSelected (sel : Node -> bool) (f : Node -> Node) (n : Node)
    : option Node :=
  match n with
  | TextNode _ => None
  | Element tag cls props kids =>
      option_map (Element tag cls props)
        ((fix first (l : list Node) : option (list Node) :=
            match l with
            | [] => None
            | k :: rest =>
                if sel k then Some (f k :: rest)
                else match updateSelected sel f k with
                     | Some k' => Some (k' :: rest)
                     | None => option_map (cons k) (first rest)
                     end
            end) kids)
  end.

(** [xs.map((x, i) => f(x, i))] or [forEach], run for its effect on [s]. *)
Fixpoint forEachIndexed {A St : Type} (f : St -> A -> nat -> St) (xs : list A)
    (i : nat) (s : St) : St :=
  match xs with
  | [] => s
  | x :: rest => forEachIndexed f rest (S i) (f s x i)
  end.

End Dom.

Definition px (valueInPx : JS.number) : Text := [Num valueInPx; Lit "px"].

Definition DIGITS : Z := 4.

Section PlanViewRendering.

Variable options : PlanViewOptions.

(** [String.prototype.toLowerCase], as in [getActionColor]. *)
Variable toLowerCase : string -> string.

(** [capitalize], of ./planCapitalization, is not among the sources: the
    view is taken for any such function. *)
Variable capitalize : Plan -> Plan.

Definition toActionLink (actionName : string) (plan : Plan) : Node :=
  if JS.nullish (selfContained options) false || JS.isUndefined (domain plan) then
    Dom.createTextNode [Lit actionName]
  else
    let revealActionUri :=
      match domain plan with
      | Some d => [RevealUri (fileUri d) actionName]
      | None => []
      end in
    let a := Dom.createElement "a" in
    let a := Dom.setText a "href" revealActionUri in
    let a := Dom.setText a "title" [Lit "Reveal '${actionName}' action in the domain file"] in
    let a := Dom.setText a "innerText" [Lit actionName] in
    a.

Definition toActionTooltipPlain (step : PlanStep) : Text :=
  let durationRow :=
    match isDurative step, getDuration step with
    | true, Some d =>
        [Lit "Duration: "; Fixed d DIGITS; Lit ", End: "; Fixed (getEndTime step) DIGITS]
    | _, _ => []
    end in
  let startTime :=
    match getStartTime step with
    | Some t => [Lit ", Start: "; Fixed t DIGITS]
    | None => []
    end in
  [Lit (getActionName step); Lit " "; Lit (JS.join " " (getObjects step))]
    ++ startTime ++ [Lit " "] ++ durationRow.

(** The lengths go through [Dom.setStyle].  The background colour is
    written as it is: [gray] and the entries of the palette are colours of
    CSS. *)
Definition renderGanttStep (ganttDiv : Node) (step : PlanStep) (index : nat)
    (plan : Plan) : Node :=
  let fromTop := JS.ofNat index * planStepHeight in
  let fromLeft := computeLeftOffset options step plan in
  let planHeadDuration := computePlanHeadDuration options step plan in
  let width := computeWidth options planHeadDuration plan in
  let widthRelaxed := computeRelaxedWidth options planHeadDuration step plan in
  let actionColor := actionColor toLowerCase step plan in
  let actionIterations :=
    if JS.gtb (getIterations step) 1 then [Num (getIterations step); Lit "x"] else [] in

  let planStep := Dom.createElement "div" in
  let planStep := Dom.setText planStep "id" [Lit "plan${planIndex}step${index}"] in
  let planStep := Dom.setClassName planStep "planstep" in
  let planStep := Dom.setStyle planStep "style.left" (px fromLeft) in
  let planStep := Dom.setStyle planStep "style.top" (px fromTop) in

  let planStepBar := Dom.createElement "div" in
  let planStepBar := Dom.setClassName planStepBar "planstep-bar" in
  let planStepBar := Dom.setText planStepBar "title" (toActionTooltipPlain step) in
  let planStepBar := Dom.setStyle planStepBar "style.width" (px width) in
  let planStepBar :=
    match actionColor with
    | Some color => Dom.setText planStepBar "style.backgroundColor" [Lit color]
    | None => planStepBar
    end in

  let planStepBarRelaxed := Dom.createElement "div" in
  let planStepBarRelaxed :=
    Dom.setClassName planStepBarRelaxed "planstep-bar-relaxed whitecarbon" in
  let planStepBarRelaxed := Dom.setStyle planStepBarRelaxed "style.width" (px widthRelaxed) in

  let actionLink := toActionLink (getActionName step) plan in

  let text :=
    Dom.createTextNode
      ([Lit " "; Lit (JS.join " " (getObjects step)); Lit " "] ++ actionIterations) in

  let planStep := Dom.append planStep [planStepBar; planStepBarRelaxed; actionLink; text] in
  Dom.appendChild ganttDiv planStep.

(** The first argument is the element the links are added to. *)
Definition renderHelpfulAction (helpfulActions : Node) (index : nat)
    (helpfulAction : HelpfulAction) : Node :=
  let suffix := getActionSuffix helpfulAction in
  let beautifiedName :=
    [Lit (actionName helpfulAction); Lit "<sub>"; Lit suffix; Lit "</sub>"] in
  let helpfulActions :=
    Dom.appendChild helpfulActions
      (Dom.createTextNode [Num (JS.ofNat index + 1); Lit ". "]) in
  let a := Dom.createElement "a" in
  let a := Dom.setText a "href" [Lit "#"] in
  let a := Dom.setProp a "onclick"
             (PHandler (HelpfulActionSelected (actionName helpfulAction))) in
  let a := Dom.setText a "innerHTML" beautifiedName in
  Dom.appendChild helpfulActions a.

(** The links go to [ganttDiv], which is what the call passes, and the
    [helpfulActions] element, holding the arrow, is added after them. *)
Definition renderHelpfulActions (ganttDiv : Node) (plan : Plan) (planHeadLength : nat)
    : Node :=
  if hasHelpfulActions plan then
    let fromTop := JS.ofNat planHeadLength * planStepHeight in
    let fromLeft := toViewCoordinates options (now plan) plan in
    let helpfulActionsDiv := Dom.createElement "div" in
    let helpfulActionsDiv := Dom.setClassName helpfulActionsDiv "planstep" in
    let helpfulActionsDiv := Dom.setStyle helpfulActionsDiv "style.top" (px fromTop) in
    let helpfulActionsDiv := Dom.setStyle helpfulActionsDiv "style.left" (px fromLeft) in
    let helpfulActionsDiv := Dom.setStyle helpfulActionsDiv "style.marginTop" (px 3) in
    let arrow := Dom.createTextNode [Lit "▶ "] in
    let helpfulActionsDiv := Dom.appendChild helpfulActionsDiv arrow in
    let ganttDiv :=
      match helpfulActions plan with
      | Some actions =>
          Dom.forEachIndexed
            (fun div helpfulAction index => renderHelpfulAction div index helpfulAction)
            actions 0%nat ganttDiv
      | None => ganttDiv
      end in
    Dom.appendChild ganttDiv helpfulActionsDiv
  else ganttDiv.

Definition showGantt (ganttDiv : Node) (plan : Plan) (stepsToDisplay : list PlanStep)
    (planIndex : JS.number) : Node :=
  let planHeadSteps :=
    filter (fun step => isPlanHeadStep step (now plan)) stepsToDisplay in
  let relaxedPlanSteps :=
    filter (fun step => negb (isPlanHeadStep step (now plan))) stepsToDisplay in
  let oneIfHelpfulActionsPresent := if hasHelpfulActions plan then 1%nat else 0%nat in
  let relaxedPlanStepIndexOffset :=
    (List.length planHeadSteps + oneIfHelpfulActionsPresent)%nat in
  let ganttChartHeight :=
    JS.ofNat (List.length stepsToDisplay + oneIfHelpfulActionsPresent) * planStepHeight in
  let ganttDiv := Dom.setText ganttDiv "attribute.plan" [Num planIndex] in
  let ganttDiv := Dom.setStyle ganttDiv "style.height" (px ganttChartHeight) in
  let ganttDiv :=
    Dom.forEachIndexed
      (fun div step stepIndex => renderGanttStep div step stepIndex plan)
      planHeadSteps 0%nat ganttDiv in
  let ganttDiv := renderHelpfulActions ganttDiv plan (List.length planHeadSteps) in
  Dom.forEachIndexed
    (fun div step stepIndex =>
       renderGanttStep div step (stepIndex + relaxedPlanStepIndexOffset) plan)
    relaxedPlanSteps 0%nat ganttDiv.

(** [createSubElement]: the host with the new element as its last child. *)
Definition createSubElement (host : Node) (className : string) : Node :=
  let child := Dom.createElement "div" in
  let child := Dom.setClassName child className in
  Dom.appendChild host child.

(** [showPlan], as a change of the host element.  [ganttDiv] is the
    [.gantt] element the host has, or else the one [createSubElement] has
    just added, which is then the one [querySelector] finds; [showGantt]
    changes it in place.  The calls of [console.dir] leave the host as it
    is. *)
Definition showPlan (plan : Plan) (planIndex : JS.number)
    (settings : option PlanReportSettings) (host : Node) : Node :=
  let plan := capitalize plan in
  let stepsToDisplay := filter (fun step => shouldDisplay step settings) (steps plan) in
  let host :=
    match Dom.querySelector (Dom.hasClass "gantt") host with
    | Some _ => host
    | None => createSubElement host "gantt"
    end in
  match
    Dom.updateSelected (Dom.hasClass "gantt")
      (fun ganttDiv => showGantt ganttDiv plan stepsToDisplay planIndex) host
  with
  | Some host' => host'
  | None => host
  end.

End PlanViewRendering.

(** ** Notions the properties are stated with *)

(** The classes of a [spec_float], the specification of a double. *)
Module SF.

Definition SF_is_nan (x : spec_float) : bool :=
  match x with S754_nan => true | _ => false end.

Definition SF_is_zero (x : spec_float) : bool :=
  match x with S754_zero _ => true | _ => false end.

Definition SF_is_infinity (x : spec_float) : bool :=
  match x with S754_infinity _ => true | _ => false end.

Definition SF_is_finite (x : spec_float) : bool :=
  match x with S754_zero _ | S754_finite _ _ _ => true | _ => false end.

End SF.

(** Doubles as real numbers: what it is for a double to be a real number
    rounded to nearest, ties to even. *)
Module Round.

Import SF.

#[local] Open Scope R_scope.

(** [2^e] as a real number. *)
Definition bpow (e : Z) : R := powerRZ 2 e.

(** The real [x] lies in the interval of [m] at exponent [e], where the two
    bits say. *)
Definition inbetween (x : R) (e : Z) (mrs : shr_record) : Prop :=
  let m := IZR (shr_m mrs) in
  match shr_r mrs, shr_s mrs with
  | false, false => x = m * bpow e
  | false, true => m * bpow e < x < (m + /2) * bpow e
  | true, false => x = (m + /2) * bpow e
  | true, true => (m + /2) * bpow e < x < (m + 1) * bpow e
  end.

(** [n] is the integer nearest to [x / 2^e], the even one when two are. *)
Definition nearest_even (n : Z) (x : R) (e : Z) : Prop :=
  (IZR n - /2) * bpow e <= x <= (IZR n + /2) * bpow e /\
  (x = (IZR n - /2) * bpow e -> Z.even n = true) /\
  (x = (IZR n + /2) * bpow e -> Z.even n = true).

(** The exponent of the last binary digit of a double of magnitude below
    [2^z]. *)
Definition cexp (z : Z) : Z := fexp prec emax z.

(** [f] is the double of magnitude [n * 2^e] (infinity from [2^emax] on). *)
Definition encodes (n e : Z) (f : spec_float) : Prop :=
  match f with
  | S754_zero false => n = 0%Z
  | S754_finite false m' e' =>
      IZR (Z.pos m') * bpow e' = IZR n * bpow e /\ IZR n * bpow e < bpow emax
  | S754_infinity false => bpow emax <= IZR n * bpow e
  | _ => False
  end.

(** [f] is [x] rounded to nearest, ties to even. *)
Definition rounds (x : R) (f : spec_float) : Prop :=
  exists e n,
    (-1074 <= e)%Z /\
    x < bpow (e + 53) /\
    ((-1074 < e)%Z -> bpow (e + 52) <= x) /\
    nearest_even n x e /\
    encodes n e f.

(** The magnitude of a double, with [2^emax] for an infinity. *)
Definition magnitude (f : spec_float) : R :=
  match f with
  | S754_zero _ => 0
  | S754_finite _ m e => IZR (Z.pos m) * bpow e
  | S754_infinity _ => bpow emax
  | S754_nan => 0
  end.

Definition sign_of (f : spec_float) : bool :=
  match f with
  | S754_zero s | S754_infinity s | S754_finite s _ _ => s
  | S754_nan => false
  end.

(** The value of a double, an infinity counting for [2^emax]. *)
Definition value (f : spec_float) : R :=
  if sign_of f then - magnitude f else magnitude f.

Definition with_sign (s : bool) (f : spec_float) : spec_float :=
  match f with
  | S754_zero _ => S754_zero s
  | S754_infinity _ => S754_infinity s
  | S754_finite _ m e => S754_finite s m e
  | S754_nan => S754_nan
  end.

(** [f] is the real [x] rounded to nearest, of either sign; a zero for 0. *)
Definition rounds_signed (x : R) (f : spec_float) : Prop :=
  (x = 0 /\ SF_is_zero f = true) \/
  (0 < x /\ rounds x f) \/
  (x < 0 /\ sign_of f = true /\ rounds (- x) (with_sign false f)).

(** [op] multiplies the value of a double by [c], rounds and keeps the sign. *)
Definition scales (c : R) (op : spec_float -> spec_float) : Prop :=
  0 < c /\
  forall a, valid_binary a = true -> SF_is_nan a = false ->
    sign_of (op a) = sign_of a /\ SF_is_nan (op a) = false /\
    match a with
    | S754_zero _ => magnitude (op a) = 0
    | S754_infinity _ => magnitude (op a) = bpow emax
    | S754_finite _ _ _ => rounds (magnitude a * c) (with_sign false (op a))
    | S754_nan => True
    end.

End Round.

(** The real number that a double stands for. *)
Definition realValue (x : JS.number) : R := Round.value (Prim2SF x).

(** The difference of the finite doubles [x] and [y], as real numbers, is a
    double: [x - y] is computed without rounding. *)
Definition exactDifference (x y : JS.number) : Prop :=
  exists r : JS.number,
    is_finite r = true /\ realValue r = (realValue x - realValue y)%R.

(** The whole duration of a step: [step.getDuration() ?? this.options.epsilon]. *)
Definition wholeDuration (options : PlanViewOptions) (step : PlanStep) : JS.number :=
  JS.nullish (getDuration step) (epsilon options).

(** The step has started before [now], has not ended before it, and only its
    start is committed: the one case in which [computePlanHeadDuration]
    subtracts. *)
Definition elapsedPartOnly (step : PlanStep) (plan : Plan) : bool :=
  match now plan with
  | None => false
  | Some plan_now =>
      negb (getEndTime step <? plan_now)
      && negb (JS.geb (JS.toNumber (getStartTime step)) plan_now)
      && PlanStepCommitment_eqb (commitment step) StartsInRelaxedPlan
  end.

(** The first action of the list that has the name of the step, both names
    taken through [toLowerCase], is at position [i]. *)
Definition firstMatchAt (toLowerCase : string -> string) (step : PlanStep)
    (actions : list Action) (i : nat) : Prop :=
  (exists a, nth_error actions i = Some a /\ sameActionName toLowerCase step a = true) /\
  (forall j b, (j < i)%nat -> nth_error actions j = Some b ->
     sameActionName toLowerCase step b = false).

(** The background colour of the bar of the element that [renderGanttStep]
    adds for a step: the bar is the first child of the element, which is the
    last child of the container. *)
Definition renderedBarColor (options : PlanViewOptions)
    (toLowerCase : string -> string) (step : PlanStep) (index : nat)
    (plan : Plan) : option PropValue :=
  let ganttDiv := renderGanttStep options toLowerCase (Dom.createElement "div") step index plan in
  match hd_error (rev (Dom.childrenOf ganttDiv)) with
  | Some planStep =>
      match hd_error (Dom.childrenOf planStep) with
      | Some planStepBar => Dom.lookup "style.backgroundColor" (Dom.propsOf planStepBar)
      | None => None
      end
  | None => None
  end.

(** The number of children of the [.gantt] element of a host. *)
Definition ganttSize (host : Node) : option nat :=
  option_map (fun ganttDiv => List.length (Dom.childrenOf ganttDiv))
    (Dom.querySelector (Dom.hasClass "gantt") host).

(** The number of [.gantt] elements in a host. *)
Definition ganttCount (host : Node) : nat :=
  List.length (Dom.querySelectorAll (Dom.hasClass "gantt") host).

Definition isElement (n : Node) : bool :=
  match n with
  | TextNode _ => false
  | Element _ _ _ _ => true
  end.

(** [F] leaves an element as it is but for the nodes [added], which become
    its last children. *)
Definition appendsTo (F : Node -> Node) (added : list Node) : Prop :=
  forall tag className props kids,
    F (Element tag className props kids) = Element tag className props (kids ++ added).

(** None of [nodes] matches [sel] or has a descendant that does. *)
Definition unmatched (sel : Node -> bool) (nodes : list Node) : Prop :=
  Forall (fun n => sel n = false /\ Dom.querySelectorAll sel n = []) nodes.

(** The [.gantt] element as [createSubElement] makes it. *)
Definition newGanttDiv : Node := Dom.setClassName (Dom.createElement "div") "gantt".

(** [xs.map((x, i) => f(x, i))], the indices counted from [i]. *)
Fixpoint mapIndexed {A B : Type} (f : A -> nat -> B) (xs : list A) (i : nat) : list B :=
  match xs with
  | [] => []
  | x :: rest => f x i :: mapIndexed f rest (S i)
  end.

(** The element that [renderGanttStep] adds to the container. *)
Definition stepElement (options : PlanViewOptions) (toLowerCase : string -> string)
    (step : PlanStep) (index : nat)
    (plan : Plan) : Node :=
  hd (TextNode [])
    (Dom.childrenOf
       (renderGanttStep options toLowerCase (Dom.createElement "div") step index plan)).

(** The nodes that [renderHelpfulAction] adds: a number and a link. *)
Definition helpfulActionNodes (index : nat) (helpfulAction : HelpfulAction) : list Node :=
  Dom.childrenOf (renderHelpfulAction (Dom.createElement "div") index helpfulAction).

(** The nodes that [renderHelpfulActions] adds to the container. *)
Definition helpfulNodes (options : PlanViewOptions) (plan : Plan) (planHeadLength : nat)
    : list Node :=
  Dom.childrenOf (renderHelpfulActions options (Dom.createElement "div") plan planHeadLength).

(** The nodes that [showGantt] adds to the container. *)
Definition ganttNodes (options : PlanViewOptions) (toLowerCase : string -> string)
    (plan : Plan)
    (stepsToDisplay : list PlanStep) (planIndex : JS.number) : list Node :=
  Dom.childrenOf (showGantt options toLowerCase newGanttDiv plan stepsToDisplay planIndex).

Definition topOf (n : Node) : option PropValue := Dom.lookup "style.top" (Dom.propsOf n).

Definition idOf (n : Node) : option PropValue := Dom.lookup "id" (Dom.propsOf n).

(** The action that a click on the node selects. *)
Definition selects (n : Node) : option string :=
  match Dom.lookup "onclick" (Dom.propsOf n) with
  | Some (PHandler (HelpfulActionSelected a)) => Some a
  | _ => None
  end.

(** The tooltip of the bar of a step element: the bar is its first child. *)
Definition barTitle (n : Node) : option PropValue :=
  match Dom.childrenOf n with
  | bar :: _ => Dom.lookup "title" (Dom.propsOf bar)
  | [] => None
  end.

(** The top of row [i] of the chart. *)
Definition rowTop (i : nat) : option PropValue :=
  Some (PText (px (JS.ofNat i * planStepHeight))).

(** The tops of the positioned elements, those of class [planstep], among
    [nodes], in order. *)
Definition rows (nodes : list Node) : list (option PropValue) :=
  map topOf (filter (Dom.hasClass "planstep") nodes).

(** The actions that the links among [nodes] select, in order. *)
Fixpoint selections (nodes : list Node) : list string :=
  match nodes with
  | [] => []
  | n :: rest =>
      match selects n with
      | Some a => a :: selections rest
      | None => selections rest
      end
  end.

(** The ids of the nodes that have one, in order. *)
Fixpoint ids (nodes : list Node) : list PropValue :=
  match nodes with
  | [] => []
  | n :: rest =>
      match idOf n with
      | Some v => v :: ids rest
      | None => ids rest
      end
  end.

(** The tooltips of the bars among [nodes], in order. *)
Fixpoint barTitles (nodes : list Node) : list PropValue :=
  match nodes with
  | [] => []
  | n :: rest =>
      match barTitle n with
      | Some v => v :: barTitles rest
      | None => barTitles rest
      end
  end.

(** The number of rows of the chart: one for each step, and one for the
    helpful actions when the plan has any. *)
Definition rowCount (plan : Plan) (stepsToDisplay : list PlanStep) : nat :=
  List.length stepsToDisplay + (if hasHelpfulActions plan then 1 else 0).

(** The number of nodes that [renderHelpfulActions] adds: a number and a
    link for each helpful action, and the element with the arrow. *)
Definition helpfulNodeCount (plan : Plan) : nat :=
  if hasHelpfulActions plan
  then 2 * List.length (JS.nullish (helpfulActions plan) []) + 1
  else 0.

(** ** Plans to evaluate the view on *)

Module Demo.

(** [String.prototype.toLowerCase] on names of ASCII characters, which the
    names of the plans and domains below are: the letters [A] to [Z] become
    [a] to [z]. *)
Definition lowerAscii (c : ascii) : ascii :=
  let n := nat_of_ascii c in
  if (65 <=? n)%nat && (n <=? 90)%nat then ascii_of_nat (n + 32) else c.

Fixpoint toLowerCase (s : string) : string :=
  match s with
  | EmptyString => EmptyString
  | String c rest => String (lowerAscii c) (toLowerCase rest)
  end.

(** The options of the demonstration page. *)
Definition options : PlanViewOptions :=
  mkPlanViewOptions 0.001 300 (Some false) None.

Definition step (start duration : option JS.number) (endTime : JS.number)
    (c : PlanStepCommitment) : PlanStep :=
  mkPlanStep "move" ["a"; "b"]%string start duration endTime true c 1.

Definition plan (steps : list PlanStep) (now : option JS.number) (makespan : JS.number)
    : Plan :=
  mkPlan steps now makespan None None.

(** A step from 2 to 8, its start committed, seen at time 5. *)
Definition startedStep : PlanStep := step (Some 2) (Some 6) 8 StartsInRelaxedPlan.
Definition startedPlan : Plan := plan [startedStep] (Some 5) 10.

(** A step from 0 to 0.9, its start committed, seen at time 0.2. *)
Definition roundedStep : PlanStep := step (Some 0) (Some 0.9) 0.9 StartsInRelaxedPlan.
Definition roundedPlan : Plan := plan [roundedStep] (Some 0.2) 0.9.

(** A step from 0.1 that lasts 0.2, seen at the time it ends. *)
Definition endingStep : PlanStep :=
  step (Some 0.1) (Some 0.2) (0.1 + 0.2) StartsInRelaxedPlan.
Definition endingPlan : Plan := plan [endingStep] (Some (0.1 + 0.2)) (0.1 + 0.2).

(** A step that lasts -5, its end not committed. *)
Definition negativeStep : PlanStep := step (Some 10) (Some (-5)) 5 EndsInRelaxedPlan.
Definition negativePlan : Plan := plan [negativeStep] (Some 7) 10.

(** A plan of one step without duration at time 0: its makespan is 0. *)
Definition instantStep : PlanStep :=
  mkPlanStep "noop" [] (Some 0) None 0 false Committed 1.
Definition instantPlan : Plan := plan [instantStep] None 0.

(** A committed step of three time units in a plan of ten. *)
Definition committedStep : PlanStep := step (Some 1) (Some 3) 4 Committed.
Definition committedPlan : Plan := plan [committedStep] None 10.

(** A domain in which the action of the steps above is the second one. *)
Definition logistics : DomainInfo :=
  mkDomainInfo "file:///domain.pddl"
    [mkAction "pick"; mkAction "MOVE"; mkAction "drop"; mkAction "move"].
Definition colouredPlan : Plan := mkPlan [committedStep] None 10 None (Some logistics).

(** The plan above during its execution, with one helpful action. *)
Definition helpfulPlan : Plan :=
  mkPlan [committedStep] (Some 2) 10 (Some [mkHelpfulAction "drop" START]) None.

(** The host element of the demonstration page, empty. *)
Definition host : Node := Element "div" "" [("id", PText [Lit "plan"])]%string [].

(** A step from 4 to 7 whose end is not committed, seen at time 5. *)
Definition pendingStep : PlanStep := step (Some 4) (Some 3) 7 EndsInRelaxedPlan.
Definition pendingPlan : Plan := plan [pendingStep] (Some 5) 10.

(** A step of the third action of [logistics], in capitals. *)
Definition dropStep : PlanStep := mkPlanStep "DROP" ["a"]%string (Some 4) None 4 false Committed 1.

(** The plan as [capitalize] returns it: the names of [committedPlan] are
    taken to be in the letter case of their declarations already. *)
Definition capitalized (p : Plan) : Plan := p.

End Demo.

(** * Properties *)

(** ** Facts about doubles

    Each operation of a primitive float is specified by the same operation on
    [spec_float]; the facts below are read off that specification. *)

Module FloatFacts.

Import SF.

Lemma SFcompare_refl_finite s m e :
  SFcompare (S754_finite s m e) (S754_finite s m e) = Some Eq.
Proof.
  simpl. rewrite Z.compare_refl, Pos.compare_cont_refl. now destruct s.
Qed.

Lemma SFeqb_refl x : SF_is_nan x = false -> SFeqb x x = true.
Proof.
  destruct x as [[]|[]| |s m e]; try easy.
  intros _. unfold SFeqb. now rewrite SFcompare_refl_finite.
Qed.

Lemma Prim2SF_zero : Prim2SF 0 = S754_zero false.
Proof. reflexivity. Qed.

Lemma Prim2SF_one : Prim2SF 1 = S754_finite false 4503599627370496 (-52).
Proof. reflexivity. Qed.

Lemma Prim2SF_infinity : Prim2SF infinity = S754_infinity false.
Proof. reflexivity. Qed.

Lemma is_nan_spec x : is_nan x = SF_is_nan (Prim2SF x).
Proof.
  unfold is_nan. rewrite eqb_spec.
  destruct (Prim2SF x) as [[]|[]| |s m e]; try reflexivity.
  now rewrite SFeqb_refl.
Qed.

Lemma is_zero_spec x : is_zero x = SF_is_zero (Prim2SF x).
Proof.
  unfold is_zero, zero. rewrite eqb_spec, Prim2SF_zero.
  now destruct (Prim2SF x) as [[]|[]| |[] m e].
Qed.

Lemma is_infinity_spec x : is_infinity x = SF_is_infinity (Prim2SF x).
Proof.
  unfold is_infinity. rewrite eqb_spec, abs_spec, Prim2SF_infinity.
  now destruct (Prim2SF x) as [[]|[]| |[] m e].
Qed.

Lemma is_finite_spec x : is_finite x = SF_is_finite (Prim2SF x).
Proof.
  unfold is_finite. rewrite is_nan_spec, is_infinity_spec.
  now destruct (Prim2SF x).
Qed.

Lemma is_finite_not_nan x : is_finite x = true -> is_nan x = false.
Proof.
  rewrite is_finite_spec, is_nan_spec. now destruct (Prim2SF x).
Qed.

Lemma not_finite_not_zero x : is_finite x = false -> (x =? 0) = false.
Proof.
  rewrite is_finite_spec, eqb_spec, Prim2SF_zero.
  now destruct (Prim2SF x) as [[]|[]| |[] m e].
Qed.

Lemma ltb_leb x y : (x <? y) = true -> (x <=? y) = true.
Proof.
  rewrite ltb_spec, leb_spec. unfold SFltb, SFleb.
  now destruct (SFcompare (Prim2SF x) (Prim2SF y)) as [[]|].
Qed.

Lemma leb_not_nan_r x y : (x <=? y) = true -> is_nan y = false.
Proof.
  rewrite leb_spec, is_nan_spec.
  now destruct (Prim2SF x) as [[]|[]| |[] m e], (Prim2SF y) as [[]|[]| |[] m' e'].
Qed.

(** [x - 0] is [x]. *)
Lemma sub_zero_r x : is_nan x = false -> Prim2SF (x - 0) = Prim2SF x.
Proof.
  rewrite is_nan_spec, sub_spec, Prim2SF_zero.
  now destruct (Prim2SF x) as [[]|[]| |[] m e].
Qed.

(** [x - x] is [+0] for a finite [x]. *)
Lemma sub_diag x : is_finite x = true -> Prim2SF (x - x) = S754_zero false.
Proof.
  rewrite is_finite_spec, sub_spec.
  destruct (Prim2SF x) as [[]|[]| |s m e]; try easy.
  intros _. unfold SF64sub, SFsub. now rewrite Z.sub_diag.
Qed.

Lemma add_zero_sub_zero x : is_nan x = false -> (0 + (x - 0) =? x) = true.
Proof.
  intros H. rewrite eqb_spec, add_spec, (sub_zero_r _ H), Prim2SF_zero.
  rewrite is_nan_spec in H.
  destruct (Prim2SF x) as [[]|[]| |s m e]; try easy.
  now apply (SFeqb_refl (S754_finite s m e)).
Qed.

Lemma add_sub_diag x : is_finite x = true -> (x + (x - x) =? x) = true.
Proof.
  intros H. rewrite eqb_spec, add_spec, (sub_diag _ H).
  rewrite is_finite_spec in H.
  destruct (Prim2SF x) as [[]|[]| |s m e]; try easy.
  now apply (SFeqb_refl (S754_finite s m e)).
Qed.

Lemma nonneg_sub_zero x : (0 <=? x) = true -> (0 <=? x - 0) = true.
Proof.
  intros H. pose proof (leb_not_nan_r _ _ H) as N.
  rewrite leb_spec in *. now rewrite (sub_zero_r _ N).
Qed.

Lemma nonneg_sub_diag x : is_finite x = true -> (0 <=? x - x) = true.
Proof.
  intros H. now rewrite leb_spec, (sub_diag _ H).
Qed.

(** Dividing by a zero gives an infinity or NaN, and so does the product of
    such a quotient with anything. *)
Lemma div_zero_mul_not_finite t m w :
  is_zero m = true -> is_finite (t / m * w) = false.
Proof.
  rewrite is_zero_spec, is_finite_spec, mul_spec, div_spec.
  destruct (Prim2SF m) as [sm|sm| |sm mm em]; try easy. intros _.
  now destruct (Prim2SF t) as [st|st| |st mt et], (Prim2SF w) as [sw|sw| |sw mw ew].
Qed.

(** A zero divided by a number other than zero and multiplied by a finite
    number is a zero. *)
Lemma zero_div_mul t m w :
  is_zero t = true -> is_zero m = false -> is_nan m = false -> is_finite w = true ->
  (t / m * w =? 0) = true.
Proof.
  rewrite !is_zero_spec, is_nan_spec, is_finite_spec, eqb_spec, mul_spec, div_spec,
    Prim2SF_zero.
  destruct (Prim2SF t) as [st|st| |st mt et]; try easy.
  destruct (Prim2SF m) as [sm|sm| |sm mm em]; try easy;
    now destruct (Prim2SF w) as [sw|sw| |sw mw ew].
Qed.

(** [Math.max(1, x)] is at least 1 unless [x] is NaN, and NaN then. *)
Lemma Math_max_one_ge x : is_nan x = false -> (1 <=? JS.Math_max 1 x) = true.
Proof.
  intros N. unfold JS.Math_max. rewrite N.
  change (is_nan 1) with false. cbn [orb].
  destruct (1 <? x) eqn:L; [now apply ltb_leb|].
  destruct (x <? 1); [reflexivity|].
  change (is_zero 1) with false. reflexivity.
Qed.

Lemma Math_max_nan_r a x : is_nan x = true -> JS.Math_max a x = nan.
Proof.
  intros N. unfold JS.Math_max. rewrite N. now rewrite orb_true_r.
Qed.

End FloatFacts.

(** ** Rounding is monotone

    The product and the quotient of two doubles are the real product and
    quotient of their values rounded to nearest, ties to even, which is a
    monotone function; so multiplying or dividing by a positive finite
    double keeps the order. *)

Module RoundFacts.

Import SF Round.

#[local] Open Scope R_scope.
#[local] Arguments bpow e : simpl never.

(** *** Powers of two *)

Lemma bpow_gt_0 e : 0 < bpow e.
Proof. apply powerRZ_lt. lra. Qed.

Lemma bpow_plus a b : bpow (a + b) = bpow a * bpow b.
Proof. apply powerRZ_add. lra. Qed.

Lemma bpow_0 : bpow 0 = 1.
Proof. reflexivity. Qed.

Lemma bpow_1 : bpow 1 = 2.
Proof. unfold bpow. simpl. lra. Qed.

Lemma bpow_succ e : bpow (e + 1) = 2 * bpow e.
Proof. rewrite bpow_plus, bpow_1. lra. Qed.

Lemma bpow_le a b : (a <= b)%Z -> bpow a <= bpow b.
Proof.
  intros H. replace b with (a + (b - a))%Z by lia.
  rewrite bpow_plus.
  assert (1 <= bpow (b - a)).
  { unfold bpow. destruct (b - a)%Z eqn:E; try lia.
    - simpl. lra.
    - simpl. apply pow_R1_Rle. lra. }
  pose proof (bpow_gt_0 a). nra.
Qed.

Lemma bpow_lt a b : (a < b)%Z -> bpow a < bpow b.
Proof.
  intros H. apply Rlt_le_trans with (bpow (a + 1)).
  - rewrite bpow_succ. pose proof (bpow_gt_0 a). lra.
  - apply bpow_le. lia.
Qed.

Lemma bpow_IZR e : (0 <= e)%Z -> bpow e = IZR (2 ^ e).
Proof.
  revert e. apply natlike_ind; [reflexivity|].
  intros e He IH. unfold Z.succ. rewrite bpow_succ, IH.
  rewrite Z.pow_add_r by lia. rewrite Z.pow_1_r, mult_IZR. lra.
Qed.

(** *** Binary digits *)

Lemma digits2_pos_bounds p :
  (2 ^ (Z.pos (digits2_pos p) - 1) <= Z.pos p < 2 ^ Z.pos (digits2_pos p))%Z.
Proof.
  induction p as [p IH | p IH |]; simpl digits2_pos.
  - rewrite Pos2Z.inj_succ, (Pos2Z.inj_xI p). unfold Z.succ.
    set (d := Z.pos (digits2_pos p)) in *.
    assert (E : (2 ^ d = 2 * 2 ^ (d - 1))%Z)
      by (rewrite <- Z.pow_succ_r by lia; f_equal; lia).
    replace (d + 1 - 1)%Z with d by lia.
    rewrite Z.pow_add_r, Z.pow_1_r by lia. lia.
  - rewrite Pos2Z.inj_succ, (Pos2Z.inj_xO p). unfold Z.succ.
    set (d := Z.pos (digits2_pos p)) in *.
    assert (E : (2 ^ d = 2 * 2 ^ (d - 1))%Z)
      by (rewrite <- Z.pow_succ_r by lia; f_equal; lia).
    replace (d + 1 - 1)%Z with d by lia.
    rewrite Z.pow_add_r, Z.pow_1_r by lia. lia.
  - vm_compute. split; [discriminate | reflexivity].
Qed.

Lemma Zdigits2_bounds m :
  (0 <= m)%Z -> (0 <= Zdigits2 m)%Z /\ (m + 1 <= 2 ^ Zdigits2 m)%Z /\
  (0 < m -> 2 ^ (Zdigits2 m - 1) <= m)%Z.
Proof.
  destruct m as [|p|p]; unfold Zdigits2; intros H; try lia.
  pose proof (digits2_pos_bounds p). lia.
Qed.

Lemma digits2_pos_le p k : (Z.pos p < 2 ^ k)%Z -> (0 <= k)%Z -> (Z.pos (digits2_pos p) <= k)%Z.
Proof.
  intros H Hk. pose proof (digits2_pos_bounds p) as [Hl _].
  destruct (Z.le_gt_cases (Z.pos (digits2_pos p)) k) as [|Hgt]; [assumption|].
  assert (2 ^ k <= 2 ^ (Z.pos (digits2_pos p) - 1))%Z by (apply Z.pow_le_mono_r; lia).
  lia.
Qed.

Lemma digits2_pos_ge p k : (2 ^ k <= Z.pos p)%Z -> (0 <= k)%Z -> (k + 1 <= Z.pos (digits2_pos p))%Z.
Proof.
  intros H Hk. pose proof (digits2_pos_bounds p) as [_ Hu].
  destruct (Z.le_gt_cases (k + 1) (Z.pos (digits2_pos p))) as [|Hgt]; [assumption|].
  assert (2 ^ Z.pos (digits2_pos p) <= 2 ^ k)%Z by (apply Z.pow_le_mono_r; lia).
  lia.
Qed.

(** *** Shifting a mantissa to the right

    [shr] drops binary digits of a mantissa and records, in two bits, where
    the real number lies between the mantissa that is left and the next. *)

Lemma inbetween_bounds x e mrs :
  inbetween x e mrs ->
  IZR (shr_m mrs) * bpow e <= x < (IZR (shr_m mrs) + 1) * bpow e.
Proof.
  unfold inbetween. pose proof (bpow_gt_0 e).
  destruct (shr_r mrs), (shr_s mrs); intros; nra.
Qed.

Lemma shr_1_inbetween x e mrs :
  (0 <= shr_m mrs)%Z -> inbetween x e mrs ->
  (0 <= shr_m (shr_1 mrs))%Z /\ inbetween x (e + 1) (shr_1 mrs).
Proof.
  destruct mrs as [m r s]. unfold inbetween. simpl shr_m. simpl shr_r. simpl shr_s.
  rewrite bpow_succ. pose proof (bpow_gt_0 e) as Hb.
  intros Hm.
  destruct m as [|[p|p|]|p]; try lia.
  - destruct r, s; simpl; intros H; (split; [lia|]); nra.
  - unfold shr_1. rewrite (Pos2Z.inj_xI p), plus_IZR, mult_IZR.
    destruct r, s; simpl; intros H; (split; [lia|]); nra.
  - unfold shr_1. rewrite (Pos2Z.inj_xO p), mult_IZR.
    destruct r, s; simpl; intros H; (split; [lia|]); nra.
  - destruct r, s; simpl; intros H; (split; [lia|]); nra.
Qed.

Lemma iter_shr_1_inbetween x p : forall e mrs,
  (0 <= shr_m mrs)%Z -> inbetween x e mrs ->
  (0 <= shr_m (SpecFloat.iter_pos shr_1 p mrs))%Z /\
  inbetween x (e + Z.pos p) (SpecFloat.iter_pos shr_1 p mrs).
Proof.
  induction p as [p IH | p IH |]; intros e mrs Hm Hx; simpl SpecFloat.iter_pos.
  - destruct (shr_1_inbetween x e mrs Hm Hx) as [Hm1 Hx1].
    destruct (IH _ _ Hm1 Hx1) as [Hm2 Hx2].
    destruct (IH _ _ Hm2 Hx2) as [Hm3 Hx3].
    split; [exact Hm3|].
    replace (e + Z.pos p~1)%Z with (e + 1 + Z.pos p + Z.pos p)%Z by lia. exact Hx3.
  - destruct (IH _ _ Hm Hx) as [Hm2 Hx2].
    destruct (IH _ _ Hm2 Hx2) as [Hm3 Hx3].
    split; [exact Hm3|].
    replace (e + Z.pos p~0)%Z with (e + Z.pos p + Z.pos p)%Z by lia. exact Hx3.
  - now apply shr_1_inbetween.
Qed.

(** [shr] by a shift that is not negative. *)
Lemma shr_inbetween x mrs e n :
  (0 <= shr_m mrs)%Z -> inbetween x e mrs -> (0 <= n)%Z ->
  (0 <= shr_m (fst (shr mrs e n)))%Z /\
  snd (shr mrs e n) = (e + n)%Z /\
  inbetween x (e + n) (fst (shr mrs e n)).
Proof.
  intros Hm Hx Hn. destruct n as [|p|p]; try lia; simpl.
  - rewrite Z.add_0_r. now repeat split.
  - destruct (iter_shr_1_inbetween x p e mrs Hm Hx). now repeat split.
Qed.

Lemma shr_nonpos mrs e n : (n <= 0)%Z -> shr mrs e n = (mrs, e).
Proof. destruct n; try reflexivity; lia. Qed.

Lemma inbetween_of_loc_Exact m e :
  inbetween (IZR m * bpow e) e (shr_record_of_loc m loc_Exact).
Proof. reflexivity. Qed.

(** *** Rounding the mantissa *)

Lemma round_nearest_even_correct x e mrs :
  inbetween x e mrs ->
  nearest_even (round_nearest_even (shr_m mrs) (loc_of_shr_record mrs)) x e.
Proof.
  destruct mrs as [m r s]. unfold inbetween, nearest_even. simpl shr_m.
  pose proof (bpow_gt_0 e) as Hb.
  destruct r, s; simpl; intros H.
  - rewrite plus_IZR. repeat split; try nra.
  - destruct (Z.even m) eqn:E.
    + repeat split; try nra. intros _. exact E.
    + rewrite plus_IZR. repeat split; try nra.
      intros _. rewrite Z.even_add, E. reflexivity.
  - repeat split; try nra.
  - repeat split; try nra.
Qed.

Lemma nearest_even_le n n' x x' e :
  nearest_even n x e -> nearest_even n' x' e -> x <= x' -> (n <= n')%Z.
Proof.
  intros (Hn & Hlo & _) (Hn' & _ & Hhi') Hx.
  pose proof (bpow_gt_0 e) as Hb.
  destruct (Z.le_gt_cases n n') as [|Hgt]; [assumption|exfalso].
  assert (H1 : IZR n' + 1 <= IZR n) by (rewrite <- plus_IZR; apply IZR_le; lia).
  assert (Ex : x = (IZR n - /2) * bpow e) by nra.
  assert (Ex' : x' = (IZR n' + /2) * bpow e) by nra.
  assert (En : IZR n = IZR n' + 1) by nra.
  rewrite <- plus_IZR in En. apply eq_IZR in En.
  specialize (Hlo Ex). specialize (Hhi' Ex').
  subst n. rewrite Z.even_add, Hhi' in Hlo. discriminate.
Qed.

Lemma nearest_even_upper n x e k :
  nearest_even n x e -> x <= IZR k * bpow e -> (n <= k)%Z.
Proof.
  intros (Hn & _) Hx. pose proof (bpow_gt_0 e) as Hb.
  destruct (Z.le_gt_cases n k) as [|Hgt]; [assumption|exfalso].
  assert (H1 : IZR k + 1 <= IZR n) by (rewrite <- plus_IZR; apply IZR_le; lia).
  nra.
Qed.

Lemma nearest_even_lower n x e k :
  nearest_even n x e -> IZR k * bpow e <= x -> (k <= n)%Z.
Proof.
  intros (Hn & _) Hx. pose proof (bpow_gt_0 e) as Hb.
  destruct (Z.le_gt_cases k n) as [|Hgt]; [assumption|exfalso].
  assert (H1 : IZR n + 1 <= IZR k) by (rewrite <- plus_IZR; apply IZR_le; lia).
  nra.
Qed.

(** *** [binary_round_aux] rounds to nearest, ties to even *)

Lemma cexp_eq z : cexp z = Z.max (z - 53) (-1074).
Proof. reflexivity. Qed.

Lemma bpow_53 e : bpow (e + 53) = 9007199254740992 * bpow e.
Proof.
  rewrite Z.add_comm, bpow_plus, (bpow_IZR 53) by lia. reflexivity.
Qed.

Lemma bpow_52 e : bpow (e + 52) = 4503599627370496 * bpow e.
Proof.
  rewrite Z.add_comm, bpow_plus, (bpow_IZR 52) by lia. reflexivity.
Qed.

Lemma binary_round_aux_rounds x m e l :
  0 <= x -> (0 <= m)%Z ->
  inbetween x e (shr_record_of_loc m l) ->
  (e <= cexp (Zdigits2 m + e))%Z ->
  rounds x (binary_round_aux prec emax false m e l).
Proof.
  intros Hx Hm Hin Hprec.
  unfold binary_round_aux, shr_fexp. fold (cexp (Zdigits2 m + e)).
  set (e1 := cexp (Zdigits2 m + e)) in *.
  assert (Hrec : shr_m (shr_record_of_loc m l) = m) by now destruct l as [|[]].
  destruct (shr_inbetween x (shr_record_of_loc m l) e (e1 - e)) as (Hm1 & He1 & Hx1);
    [rewrite Hrec; exact Hm | exact Hin | lia |].
  destruct (shr (shr_record_of_loc m l) e (e1 - e)) as [mrs1 e1'].
  simpl in Hm1, He1, Hx1. replace (e + (e1 - e))%Z with e1 in * by lia. subst e1'.
  pose proof (round_nearest_even_correct x e1 mrs1 Hx1) as Hn.
  set (n := round_nearest_even (shr_m mrs1) (loc_of_shr_record mrs1)) in *.
  pose proof (bpow_gt_0 e) as Hbe. pose proof (bpow_gt_0 e1) as Hbe1.
  destruct (Zdigits2_bounds m Hm) as (Hd0 & Hdu & Hdl).
  (* the three facts on the exponent *)
  assert (Hemin : (-1074 <= e1)%Z) by (unfold e1; rewrite cexp_eq; lia).
  assert (Hup : x < bpow (e1 + 53)).
  { pose proof (inbetween_bounds _ _ _ Hin) as [_ Hu]. rewrite Hrec in Hu.
    apply Rlt_le_trans with (1 := Hu).
    apply Rle_trans with (bpow (Zdigits2 m) * bpow e).
    - apply Rmult_le_compat_r; [lra|].
      rewrite bpow_IZR by lia. rewrite <- plus_IZR. apply IZR_le. lia.
    - rewrite <- bpow_plus. apply bpow_le. unfold e1. rewrite cexp_eq. lia. }
  assert (Hlow : (-1074 < e1)%Z -> bpow (e1 + 52) <= x).
  { intros Hnormal.
    assert (He1 : e1 = (Zdigits2 m + e - 53)%Z) by (unfold e1 in *; rewrite cexp_eq in *; lia).
    assert (Hmpos : (0 < m)%Z).
    { destruct (Z.eq_dec m 0) as [->|]; [|lia].
      simpl in He1. lia. }
    pose proof (inbetween_bounds _ _ _ Hin) as [Hl _]. rewrite Hrec in Hl.
    apply Rle_trans with (2 := Hl).
    replace (e1 + 52)%Z with (Zdigits2 m - 1 + e)%Z by lia.
    rewrite bpow_plus. apply Rmult_le_compat_r; [lra|].
    rewrite bpow_IZR by lia. apply IZR_le. auto. }
  assert (Hn0 : (0 <= n)%Z).
  { apply (nearest_even_lower n x e1 0 Hn). lra. }
  assert (Hn53 : (n <= 9007199254740992)%Z).
  { apply (nearest_even_upper n x e1 _ Hn). rewrite <- bpow_53. lra. }
  assert (Hn52 : (-1074 < e1)%Z -> (4503599627370496 <= n)%Z).
  { intros Hnormal. apply (nearest_even_lower n x e1 _ Hn).
    rewrite <- bpow_52. auto. }
  exists e1, n. repeat split; try assumption; try apply Hn.
  (* the encoding *)
  destruct (Z.eq_dec n 9007199254740992) as [E53|N53].
  - rewrite E53. change (Zdigits2 9007199254740992) with 54%Z.
    replace (fexp prec emax (54 + e1) - e1)%Z with 1%Z
      by (fold (cexp (54 + e1)); rewrite cexp_eq; lia).
    cbn -[bpow emax Z.leb]. change (emax - prec)%Z with 971%Z.
    destruct (Z.leb_spec (e1 + 1) 971) as [Hle|Hgt]; unfold encodes.
    + rewrite bpow_succ. split; [lra|].
      apply Rlt_le_trans with (bpow (e1 + 54)); [|apply bpow_le; unfold emax; lia].
      replace (e1 + 54)%Z with (e1 + 53 + 1)%Z by lia. rewrite bpow_succ, bpow_53. lra.
    + apply Rle_trans with (bpow (e1 + 53)); [apply bpow_le; unfold emax; lia|].
      rewrite bpow_53. lra.
  - destruct n as [|p|p]; try lia.
    + rewrite shr_nonpos by (simpl; fold (cexp e1); rewrite cexp_eq; lia).
      reflexivity.
    + assert (Hdp : (Z.pos (digits2_pos p) <= 53)%Z) by (apply digits2_pos_le; lia).
      rewrite shr_nonpos
        by (simpl Zdigits2; fold (cexp (Z.pos (digits2_pos p) + e1)); rewrite cexp_eq; lia).
      cbn -[bpow emax Z.leb]. change (emax - prec)%Z with 971%Z.
      destruct (Z.leb_spec e1 971) as [Hle|Hgt]; unfold encodes.
      * split; [reflexivity|].
        apply Rlt_le_trans with (bpow (e1 + 53)); [|apply bpow_le; unfold emax; lia].
        rewrite bpow_53. apply Rmult_lt_compat_r; [lra|]. apply IZR_lt. lia.
      * apply Rle_trans with (bpow (e1 + 52)); [apply bpow_le; unfold emax; lia|].
        rewrite bpow_52. apply Rmult_le_compat_r; [lra|]. apply IZR_le. apply Hn52. lia.
Qed.

(** *** A larger real number is not rounded to a smaller double *)

Lemma magnitude_finite_pos s m e : 0 < magnitude (S754_finite s m e).
Proof.
  simpl. apply Rmult_lt_0_compat; [apply IZR_lt; lia | apply bpow_gt_0].
Qed.

Lemma encodes_le n e f n' e' f' :
  encodes n e f -> encodes n' e' f' ->
  IZR n * bpow e <= IZR n' * bpow e' ->
  magnitude f <= magnitude f'.
Proof.
  pose proof (bpow_gt_0 emax) as Hmax.
  destruct f as [[]|[]| |[] m1 e1]; try contradiction;
    destruct f' as [[]|[]| |[] m2 e2]; try contradiction;
    unfold encodes, magnitude; intros H H' Hle;
    try pose proof (magnitude_finite_pos false m1 e1) as P1;
    try pose proof (magnitude_finite_pos false m2 e2) as P2;
    simpl in *; subst; try lra.
Qed.

Lemma rounds_le x f x' f' :
  rounds x f -> rounds x' f' -> x <= x' -> magnitude f <= magnitude f'.
Proof.
  intros (e & n & Hemin & Hup & Hlow & Hn & Henc)
         (e' & n' & Hemin' & Hup' & Hlow' & Hn' & Henc') Hx.
  apply (encodes_le n e f n' e' f' Henc Henc').
  pose proof (bpow_gt_0 e) as Hb. pose proof (bpow_gt_0 e') as Hb'.
  destruct (Z.lt_trichotomy e e') as [Hlt | [<- | Hgt]].
  - apply Rle_trans with (bpow (e + 53)).
    + rewrite bpow_53. apply Rmult_le_compat_r; [lra|]. apply IZR_le.
      apply (nearest_even_upper n x e _ Hn). rewrite <- bpow_53. lra.
    + apply Rle_trans with (bpow (e' + 52)); [apply bpow_le; lia|].
      rewrite bpow_52. apply Rmult_le_compat_r; [lra|]. apply IZR_le.
      apply (nearest_even_lower n' x' e' _ Hn'). rewrite <- bpow_52.
      apply Hlow'. lia.
  - apply Rmult_le_compat_r; [lra|]. apply IZR_le.
    exact (nearest_even_le n n' x x' e Hn Hn' Hx).
  - exfalso.
    assert (bpow (e + 52) <= x) by (apply Hlow; lia).
    assert (bpow (e' + 53) <= bpow (e + 52)) by (apply bpow_le; lia).
    lra.
Qed.

(** *** The order of doubles and the order of their values *)

Lemma valid_finite s m e :
  valid_binary (S754_finite s m e) = true ->
  (-1074 <= e <= 971)%Z /\ (Z.pos (digits2_pos m) <= 53)%Z /\
  ((-1074 < e)%Z -> Z.pos (digits2_pos m) = 53%Z).
Proof.
  unfold SpecFloat.valid_binary, SpecFloat.bounded, SpecFloat.canonical_mantissa.
  rewrite andb_true_iff, Z.eqb_eq, Z.leb_le.
  fold (cexp (Z.pos (digits2_pos m) + e)). rewrite cexp_eq.
  change (emax - prec)%Z with 971%Z. lia.
Qed.

Lemma valid_finite_bounds s m e :
  valid_binary (S754_finite s m e) = true ->
  IZR (Z.pos m) * bpow e < bpow (e + 53) /\
  ((-1074 < e)%Z -> bpow (e + 52) <= IZR (Z.pos m) * bpow e).
Proof.
  intros Hv. destruct (valid_finite s m e Hv) as (He & Hd & Hn).
  pose proof (digits2_pos_bounds m) as [Hl Hu]. pose proof (bpow_gt_0 e) as Hb.
  split.
  - rewrite bpow_53. apply Rmult_lt_compat_r; [lra|]. apply IZR_lt.
    apply Z.lt_le_trans with (1 := Hu).
    change 9007199254740992%Z with (2 ^ 53)%Z. apply Z.pow_le_mono_r; lia.
  - intros Hnormal. rewrite bpow_52. apply Rmult_le_compat_r; [lra|]. apply IZR_le.
    rewrite (Hn Hnormal) in Hl. exact Hl.
Qed.

Lemma magnitude_lt_emax s m e :
  valid_binary (S754_finite s m e) = true -> magnitude (S754_finite s m e) < bpow emax.
Proof.
  intros Hv. destruct (valid_finite s m e Hv) as (He & _).
  destruct (valid_finite_bounds s m e Hv) as (Hu & _). simpl.
  apply Rlt_le_trans with (1 := Hu). apply bpow_le. unfold emax. lia.
Qed.

(** The comparison of two positive finite doubles is that of their values. *)
Lemma finite_compare m1 e1 m2 e2 :
  valid_binary (S754_finite false m1 e1) = true ->
  valid_binary (S754_finite false m2 e2) = true ->
  match
    match Z.compare e1 e2 with
    | Lt => Lt
    | Gt => Gt
    | Eq => Pos.compare_cont Eq m1 m2
    end
  with
  | Lt => IZR (Z.pos m1) * bpow e1 < IZR (Z.pos m2) * bpow e2
  | Eq => IZR (Z.pos m1) * bpow e1 = IZR (Z.pos m2) * bpow e2
  | Gt => IZR (Z.pos m2) * bpow e2 < IZR (Z.pos m1) * bpow e1
  end.
Proof.
  intros Hv1 Hv2.
  destruct (valid_finite _ _ _ Hv1) as (He1 & _), (valid_finite _ _ _ Hv2) as (He2 & _).
  destruct (valid_finite_bounds _ _ _ Hv1) as (Hu1 & Hl1).
  destruct (valid_finite_bounds _ _ _ Hv2) as (Hu2 & Hl2).
  destruct (Z.compare_spec e1 e2) as [<- | Hlt | Hgt].
  - pose proof (bpow_gt_0 e1) as Hb.
    change (Pos.compare_cont Eq m1 m2) with (Pos.compare m1 m2).
    destruct (Pos.compare_spec m1 m2) as [-> | H | H].
    + reflexivity.
    + apply Rmult_lt_compat_r; [lra|]. apply IZR_lt. lia.
    + apply Rmult_lt_compat_r; [lra|]. apply IZR_lt. lia.
  - apply Rlt_le_trans with (1 := Hu1).
    apply Rle_trans with (bpow (e2 + 52)); [apply bpow_le; lia | apply Hl2; lia].
  - apply Rlt_le_trans with (1 := Hu2).
    apply Rle_trans with (bpow (e1 + 52)); [apply bpow_le; lia | apply Hl1; lia].
Qed.

Lemma SFcompare_value f f' :
  valid_binary f = true -> valid_binary f' = true ->
  SF_is_nan f = false -> SF_is_nan f' = false ->
  match SFcompare f f' with
  | Some Lt => value f < value f'
  | Some Eq => value f = value f'
  | Some Gt => value f' < value f
  | None => False
  end.
Proof.
  intros Hv Hv' Hn Hn'. pose proof (bpow_gt_0 emax) as Hmax.
  destruct f as [s|s| |s m e]; try discriminate;
    destruct f' as [s'|s'| |s' m' e']; try discriminate;
    try pose proof (magnitude_finite_pos s m e) as P;
    try pose proof (magnitude_finite_pos s' m' e') as P';
    try pose proof (magnitude_lt_emax s m e Hv) as Q;
    try pose proof (magnitude_lt_emax s' m' e' Hv') as Q';
    unfold value; cbn [sign_of];
    try (destruct s, s'; cbn -[bpow emax]; simpl magnitude in *; lra).
  destruct s, s'; cbn -[bpow emax Pos.compare_cont]; simpl magnitude in *; try lra.
  - pose proof (finite_compare m e m' e' Hv Hv') as H.
    destruct (Z.compare e e'); try lra.
    destruct (Pos.compare_cont Eq m m'); simpl; lra.
  - pose proof (finite_compare m e m' e' Hv Hv') as H.
    destruct (Z.compare e e'); try lra.
    destruct (Pos.compare_cont Eq m m'); simpl; lra.
Qed.

Lemma SFleb_value f f' :
  valid_binary f = true -> valid_binary f' = true ->
  SF_is_nan f = false -> SF_is_nan f' = false ->
  (SFleb f f' = true <-> value f <= value f').
Proof.
  intros Hv Hv' Hn Hn'. pose proof (SFcompare_value f f' Hv Hv' Hn Hn') as H.
  unfold SFleb. destruct (SFcompare f f') as [[]|]; split; intros; try easy; lra.
Qed.

(** *** Products and quotients of finite doubles *)

Lemma binary_round_aux_sign s m e l :
  binary_round_aux prec emax s m e l
    = with_sign s (binary_round_aux prec emax false m e l).
Proof.
  unfold binary_round_aux.
  destruct (shr_fexp prec emax m e l) as [mrs1 e1].
  destruct (shr_fexp prec emax _ e1 loc_Exact) as [mrs2 e2].
  destruct (shr_m mrs2); try reflexivity.
  now destruct (Z.leb e2 (emax - prec)).
Qed.

Lemma value_with_sign s f :
  value (with_sign s f) = if s then - magnitude f else magnitude f.
Proof.
  unfold value. destruct f as [s'|s'| |s' m e]; cbn [with_sign sign_of magnitude];
    try reflexivity.
  destruct s; lra.
Qed.

Lemma digits2_pos_mul a b :
  (Z.pos (digits2_pos a) + Z.pos (digits2_pos b) - 1 <= Z.pos (digits2_pos (a * b)))%Z.
Proof.
  pose proof (digits2_pos_bounds a) as [Ha _].
  pose proof (digits2_pos_bounds b) as [Hb _].
  set (da := Z.pos (digits2_pos a)) in *. set (db := Z.pos (digits2_pos b)) in *.
  assert (H : (2 ^ (da + db - 2) <= Z.pos (a * b))%Z).
  { replace (da + db - 2)%Z with ((da - 1) + (db - 1))%Z by lia.
    rewrite Z.pow_add_r, Pos2Z.inj_mul by lia.
    apply Z.mul_le_mono_nonneg; try assumption; apply Z.pow_nonneg; lia. }
  apply digits2_pos_ge in H; lia.
Qed.

(** The product of two positive finite doubles is the rounded product of
    their values. *)
Lemma SFmul_rounds mx ex my ey :
  valid_binary (S754_finite false mx ex) = true ->
  valid_binary (S754_finite false my ey) = true ->
  rounds (IZR (Z.pos mx) * bpow ex * (IZR (Z.pos my) * bpow ey))
    (binary_round_aux prec emax false (Z.pos (mx * my)) (ex + ey) loc_Exact).
Proof.
  intros Hx Hy.
  destruct (valid_finite _ _ _ Hx) as (Hex & Hdx & Hnx).
  destruct (valid_finite _ _ _ Hy) as (Hey & Hdy & Hny).
  pose proof (digits2_pos_mul mx my) as Hd.
  replace (IZR (Z.pos mx) * bpow ex * (IZR (Z.pos my) * bpow ey))
    with (IZR (Z.pos (mx * my)) * bpow (ex + ey))
    by (rewrite Pos2Z.inj_mul, mult_IZR, bpow_plus; ring).
  apply binary_round_aux_rounds.
  - apply Rmult_le_pos; [apply IZR_le; lia | apply Rlt_le, bpow_gt_0].
  - lia.
  - apply inbetween_of_loc_Exact.
  - rewrite cexp_eq. simpl Zdigits2.
    assert (0 < Z.pos (digits2_pos mx))%Z by lia.
    assert (0 < Z.pos (digits2_pos my))%Z by lia.
    lia.
Qed.

Lemma new_location_correct m2 r q e :
  (0 <= r < m2)%Z ->
  inbetween ((IZR q + IZR r / IZR m2) * bpow e) e
    (shr_record_of_loc q (new_location m2 r)).
Proof.
  intros Hr. pose proof (bpow_gt_0 e) as Hb.
  assert (Hm : 0 < IZR m2) by (apply IZR_lt; lia).
  set (t := IZR r / IZR m2).
  assert (Et : t * IZR m2 = IZR r) by (unfold t; field; lra).
  assert (Ht0 : 0 <= t) by (apply Rmult_le_reg_r with (IZR m2); [lra|];
                            rewrite Et, Rmult_0_l; apply IZR_le; lia).
  assert (Ht1 : t < 1) by (apply Rmult_lt_reg_r with (IZR m2); [lra|];
                           rewrite Et, Rmult_1_l; apply IZR_lt; lia).
  assert (H2 : forall c, Z.compare (2 * r) m2 = c ->
            match c with
            | Lt => t < /2
            | Eq => t = /2
            | Gt => /2 < t
            end).
  { intros c <-. destruct (Z.compare_spec (2 * r) m2) as [H | H | H].
    - apply (f_equal IZR) in H. rewrite mult_IZR in H. nra.
    - apply IZR_lt in H. rewrite mult_IZR in H. nra.
    - apply IZR_lt in H. rewrite mult_IZR in H. nra. }
  unfold new_location, new_location_even, new_location_odd.
  destruct (Z.eq_dec r 0) as [-> | Hr0].
  - assert (t = 0) by (unfold t; field; lra).
    destruct (Z.even m2); unfold inbetween; simpl; nra.
  - assert (Ht : 0 < t).
    { apply Rmult_lt_reg_r with (IZR m2); [lra|].
      rewrite Et, Rmult_0_l. apply IZR_lt. lia. }
    apply Z.eqb_neq in Hr0.
    destruct (Z.even m2) eqn:Heven; rewrite Hr0.
    + specialize (H2 _ eq_refl).
      destruct (Z.compare (2 * r) m2); unfold inbetween; simpl; nra.
    + assert (Hodd : (2 * r <> m2)%Z).
      { intros E. rewrite <- E, Z.even_mul in Heven. discriminate. }
      destruct (Z.compare_spec (2 * r + 1) m2) as [H | H | H].
      * assert (Hc : Z.compare (2 * r) m2 = Lt) by (apply Z.compare_lt_iff; lia).
        specialize (H2 _ Hc). unfold inbetween; simpl; nra.
      * assert (Hc : Z.compare (2 * r) m2 = Lt) by (apply Z.compare_lt_iff; lia).
        specialize (H2 _ Hc). unfold inbetween; simpl; nra.
      * assert (Hc : Z.compare (2 * r) m2 = Gt) by (apply Z.compare_gt_iff; lia).
        specialize (H2 _ Hc). unfold inbetween; simpl; nra.
Qed.

Lemma shifted_mantissa m s :
  (0 <= s)%Z ->
  match s with
  | Z.pos _ => Z.shiftl m s
  | 0%Z => m
  | Z.neg _ => 0%Z
  end = (m * 2 ^ s)%Z.
Proof.
  intros Hs. destruct s as [|p|p]; try lia.
  apply Z.shiftl_mul_pow2. lia.
Qed.

(** The quotient of two positive finite doubles is the rounded quotient of
    their values. *)
Lemma SFdiv_rounds mx ex my ey :
  valid_binary (S754_finite false mx ex) = true ->
  valid_binary (S754_finite false my ey) = true ->
  rounds (IZR (Z.pos mx) * bpow ex / (IZR (Z.pos my) * bpow ey))
    (let '(mz, ez, lz) := SFdiv_core_binary prec emax (Z.pos mx) ex (Z.pos my) ey in
     binary_round_aux prec emax false mz ez lz).
Proof.
  intros Hx Hy.
  destruct (valid_finite _ _ _ Hx) as (Hex & Hdx & Hnx).
  destruct (valid_finite _ _ _ Hy) as (Hey & Hdy & Hny).
  pose proof (digits2_pos_bounds mx) as [Hlx Hux].
  pose proof (digits2_pos_bounds my) as [Hly Huy].
  unfold SFdiv_core_binary. simpl Zdigits2.
  set (d1 := Z.pos (digits2_pos mx)) in *. set (d2 := Z.pos (digits2_pos my)) in *.
  fold (cexp (d1 + ex - (d2 + ey))). 
  set (e' := Z.min (cexp (d1 + ex - (d2 + ey))) (ex - ey)).
  set (s := (ex - ey - e')%Z).
  assert (Hs : (0 <= s)%Z) by (unfold s, e'; lia).
  set (m' := match s with
             | Z.pos _ => Z.shiftl (Z.pos mx) s
             | 0%Z => Z.pos mx
             | Z.neg _ => 0%Z
             end).
  assert (Hm' : m' = (Z.pos mx * 2 ^ s)%Z).
  { unfold m'. now apply shifted_mantissa. }
  pose proof (Z_div_mod m' (Z.pos my) eq_refl) as Hdiv.
  destruct (Z.div_eucl m' (Z.pos my)) as [q r]. destruct Hdiv as [Hqr Hr].
  assert (Hpow : (0 < 2 ^ s)%Z) by (apply Z.pow_pos_nonneg; lia).
  assert (Hq : (0 <= q)%Z) by nia.
  pose proof (bpow_gt_0 ex) as Hbx. pose proof (bpow_gt_0 ey) as Hby.
  pose proof (bpow_gt_0 e') as Hbe.
  assert (HY : 0 < IZR (Z.pos my)) by (apply IZR_lt; lia).
  assert (Hreal : IZR (Z.pos mx) * bpow ex / (IZR (Z.pos my) * bpow ey)
                  = (IZR q + IZR r / IZR (Z.pos my)) * bpow e').
  { replace ex with (s + e' + ey)%Z by (unfold s; lia).
    rewrite !bpow_plus, (bpow_IZR s Hs).
    apply (f_equal IZR) in Hqr. rewrite Hm', plus_IZR, !mult_IZR in Hqr.
    field_simplify; try lra. rewrite Hqr. field. lra. }
  rewrite Hreal.
  apply binary_round_aux_rounds.
  - apply Rmult_le_pos; [|lra].
    apply Rplus_le_le_0_compat; [apply IZR_le; lia|].
    apply Rmult_le_pos; [apply IZR_le; lia | apply Rlt_le, Rinv_0_lt_compat; lra].
  - exact Hq.
  - apply new_location_correct. lia.
  - rewrite cexp_eq.
    destruct (Z.le_gt_cases e' (-1074)) as [Hsub | Hnorm]; [lia|].
    assert (He' : (e' <= d1 + ex - (d2 + ey) - 53)%Z)
      by (unfold e' in *; rewrite cexp_eq in *; lia).
    assert (H52 : (2 ^ 52 <= q)%Z).
    { assert (H1 : (2 ^ (52 + d2) <= m')%Z).
      { rewrite Hm'.
        apply Z.le_trans with (2 ^ (d1 - 1) * 2 ^ s)%Z; [|nia].
        rewrite <- Z.pow_add_r by lia. apply Z.pow_le_mono_r; unfold s; lia. }
      rewrite Z.pow_add_r in H1 by lia. nia. }
    destruct q as [|pq|pq]; try lia.
    simpl Zdigits2. pose proof (digits2_pos_ge pq 52 H52). lia.
Qed.

(** *** Scaling by a positive finite double keeps the order *)

Lemma magnitude_with_sign s f : magnitude (with_sign s f) = magnitude f.
Proof. now destruct f. Qed.

Lemma magnitude_nonneg f : 0 <= magnitude f.
Proof.
  destruct f as [s|s| |s m e]; simpl; try lra.
  - apply Rlt_le, bpow_gt_0.
  - apply Rlt_le, (magnitude_finite_pos s m e).
Qed.

Lemma magnitude_le_emax f : valid_binary f = true -> magnitude f <= bpow emax.
Proof.
  pose proof (bpow_gt_0 emax).
  destruct f as [s|s| |s m e]; simpl magnitude; intros Hv; try lra.
  apply Rlt_le, (magnitude_lt_emax s m e Hv).
Qed.

Lemma SFleb_not_nan a b :
  SFleb a b = true -> SF_is_nan a = false /\ SF_is_nan b = false.
Proof.
  destruct a as [[]|[]| |[] m e], b as [[]|[]| |[] m' e']; simpl; intros H;
    try discriminate; now split.
Qed.

Lemma scales_magnitude c op a b :
  scales c op ->
  valid_binary a = true -> valid_binary b = true ->
  valid_binary (op a) = true -> valid_binary (op b) = true ->
  SF_is_nan a = false -> SF_is_nan b = false ->
  magnitude a <= magnitude b -> magnitude (op a) <= magnitude (op b).
Proof.
  intros [Hc Hop] Hva Hvb Hvoa Hvob Hna Hnb Hab.
  destruct (Hop a Hva Hna) as (_ & _ & Ha), (Hop b Hvb Hnb) as (_ & _ & Hb).
  pose proof (magnitude_nonneg (op b)) as Hb0.
  pose proof (magnitude_le_emax (op a) Hvoa) as Ha1.
  pose proof (bpow_gt_0 emax) as Hmax.
  destruct a as [sa|sa| |sa ma ea]; try discriminate.
  - lra.
  - destruct b as [sb|sb| |sb mb eb]; try discriminate.
    + simpl in Hab. lra.
    + lra.
    + pose proof (magnitude_lt_emax sb mb eb Hvb). simpl in Hab. simpl in H. lra.
  - destruct b as [sb|sb| |sb mb eb]; try discriminate.
    + pose proof (magnitude_finite_pos sa ma ea). simpl in Hab. simpl in H. lra.
    + lra.
    + rewrite <- (magnitude_with_sign false (op (S754_finite sa ma ea))).
      rewrite <- (magnitude_with_sign false (op (S754_finite sb mb eb))).
      apply (rounds_le _ _ _ _ Ha Hb). nra.
Qed.

Lemma magnitude_zero a :
  SF_is_nan a = false -> magnitude a = 0 -> exists s, a = S754_zero s.
Proof.
  pose proof (bpow_gt_0 emax).
  destruct a as [s|s| |s m e]; try discriminate; intros _ H0.
  - now exists s.
  - simpl in H0. lra.
  - pose proof (magnitude_finite_pos s m e). lra.
Qed.

Lemma scales_monotone c op a b :
  scales c op ->
  valid_binary a = true -> valid_binary b = true ->
  valid_binary (op a) = true -> valid_binary (op b) = true ->
  SFleb a b = true -> SFleb (op a) (op b) = true.
Proof.
  intros Hs Hva Hvb Hvoa Hvob Hab.
  destruct (SFleb_not_nan a b Hab) as [Hna Hnb].
  destruct (Hs) as [Hc Hop].
  destruct (Hop a Hva Hna) as (Hsa & Hnoa & Ha), (Hop b Hvb Hnb) as (Hsb & Hnob & Hb).
  apply (SFleb_value a b Hva Hvb Hna Hnb) in Hab.
  apply (SFleb_value (op a) (op b) Hvoa Hvob Hnoa Hnob).
  unfold value in *. rewrite Hsa, Hsb.
  pose proof (magnitude_nonneg a). pose proof (magnitude_nonneg b).
  pose proof (magnitude_nonneg (op a)). pose proof (magnitude_nonneg (op b)).
  destruct (sign_of a), (sign_of b).
  - assert (magnitude (op b) <= magnitude (op a))
      by (apply (scales_magnitude c op b a); try assumption; lra).
    lra.
  - lra.
  - assert (Ea : magnitude a = 0) by lra. assert (Eb : magnitude b = 0) by lra.
    destruct (magnitude_zero a Hna Ea) as [s ->].
    destruct (magnitude_zero b Hnb Eb) as [s' ->].
    lra.
  - assert (magnitude (op a) <= magnitude (op b))
      by (apply (scales_magnitude c op a b); try assumption; lra).
    lra.
Qed.

Lemma SFmul_scales mw ew :
  valid_binary (S754_finite false mw ew) = true ->
  scales (IZR (Z.pos mw) * bpow ew) (fun a => SF64mul a (S754_finite false mw ew)).
Proof.
  intros Hw. split; [apply (magnitude_finite_pos false mw ew)|].
  intros a Hva Hna. destruct a as [s|s| |s m e]; try discriminate.
  - now destruct s.
  - now destruct s.
  - unfold SF64mul, SFmul. rewrite binary_round_aux_sign, xorb_false_r.
    assert (Hv : valid_binary (S754_finite false m e) = true) by exact Hva.
    pose proof (SFmul_rounds m e mw ew Hv Hw) as Hr.
    destruct (binary_round_aux prec emax false (Z.pos (m * mw)) (e + ew) loc_Exact)
      as [[]|[]| |[] m' e'] eqn:E;
      try (destruct Hr as (? & ? & _ & _ & _ & _ & Henc); contradiction);
      repeat split; exact Hr.
Qed.

Lemma SFdiv_scales mw ew :
  valid_binary (S754_finite false mw ew) = true ->
  scales (/ (IZR (Z.pos mw) * bpow ew)) (fun a => SF64div a (S754_finite false mw ew)).
Proof.
  intros Hw. split.
  { apply Rinv_0_lt_compat, (magnitude_finite_pos false mw ew). }
  intros a Hva Hna. destruct a as [s|s| |s m e]; try discriminate.
  - now destruct s.
  - now destruct s.
  - unfold SF64div, SFdiv.
    assert (Hv : valid_binary (S754_finite false m e) = true) by exact Hva.
    pose proof (SFdiv_rounds m e mw ew Hv Hw) as Hr.
    destruct (SFdiv_core_binary prec emax (Z.pos m) e (Z.pos mw) ew) as [[mz ez] lz].
    rewrite binary_round_aux_sign, xorb_false_r.
    destruct (binary_round_aux prec emax false mz ez lz)
      as [[]|[]| |[] m' e'] eqn:E;
      try (destruct Hr as (? & ? & _ & _ & _ & _ & Henc); contradiction);
      repeat split; exact Hr.
Qed.

(** *** The sign of a difference *)

Lemma shr_1_nonneg mrs : (0 <= shr_m mrs)%Z -> (0 <= shr_m (shr_1 mrs))%Z.
Proof.
  destruct mrs as [m r s]. simpl shr_m at 1.
  destruct m as [|[p|p|]|p]; simpl; lia.
Qed.

Lemma iter_shr_1_nonneg p : forall mrs,
  (0 <= shr_m mrs)%Z -> (0 <= shr_m (SpecFloat.iter_pos shr_1 p mrs))%Z.
Proof.
  induction p as [p IH | p IH |]; intros mrs Hm; simpl SpecFloat.iter_pos.
  - apply IH, IH, shr_1_nonneg, Hm.
  - apply IH, IH, Hm.
  - apply shr_1_nonneg, Hm.
Qed.

Lemma shr_fexp_nonneg m e l :
  (0 <= m)%Z -> (0 <= shr_m (fst (shr_fexp prec emax m e l)))%Z.
Proof.
  intros Hm. unfold shr_fexp, shr.
  assert (Hrec : shr_m (shr_record_of_loc m l) = m) by now destruct l as [|[]].
  destruct (fexp prec emax (Zdigits2 m + e) - e)%Z; simpl; try lia.
  apply iter_shr_1_nonneg. lia.
Qed.

Lemma round_nearest_even_nonneg m l : (0 <= m)%Z -> (0 <= round_nearest_even m l)%Z.
Proof.
  intros Hm. destruct l as [|[]]; simpl; try lia.
  destruct (Z.even m); lia.
Qed.

(** Rounding a mantissa that is not negative gives a double that is not. *)
Lemma binary_round_aux_nonneg m e l :
  (0 <= m)%Z ->
  SFleb (S754_zero false) (binary_round_aux prec emax false m e l) = true.
Proof.
  intros Hm. unfold binary_round_aux.
  pose proof (shr_fexp_nonneg m e l Hm) as H1.
  destruct (shr_fexp prec emax m e l) as [mrs1 e1]. simpl in H1.
  pose proof (shr_fexp_nonneg _ e1 loc_Exact
                (round_nearest_even_nonneg _ (loc_of_shr_record mrs1) H1)) as H2.
  destruct (shr_fexp prec emax _ e1 loc_Exact) as [mrs2 e2]. simpl in H2.
  destruct (shr_m mrs2); try lia; try reflexivity.
  now destruct (Z.leb e2 (emax - prec)).
Qed.

Lemma shl_align_value m e e' :
  (e' <= e)%Z ->
  IZR (Z.pos (fst (shl_align m e e'))) * bpow e' = IZR (Z.pos m) * bpow e.
Proof.
  intros He. unfold shl_align.
  destruct (e' - e)%Z as [|d|d] eqn:Ed; try lia.
  - replace e' with e by lia. reflexivity.
  - simpl fst.
    assert (Hiter : forall n, Z.pos (Pos.iter xO m n) = (Z.pos m * 2 ^ Z.pos n)%Z).
    { intros n. induction n as [|n IH] using Pos.peano_ind.
      - simpl. lia.
      - rewrite Pos.iter_succ, Pos2Z.inj_xO, IH, Pos2Z.inj_succ, Z.pow_succ_r by lia.
        ring. }
    rewrite Hiter, mult_IZR, <- bpow_IZR by lia.
    replace e with (Z.pos d + e')%Z by lia. rewrite bpow_plus. ring.
Qed.

(** The difference of two finite doubles is not negative when the second is
    not above the first. *)
Lemma SFsub_nonneg x y :
  valid_binary x = true -> valid_binary y = true ->
  SF_is_finite x = true -> SFleb y x = true ->
  SFleb (S754_zero false) (SF64sub x y) = true.
Proof.
  intros Hvx Hvy Hfin Hle.
  destruct (SFleb_not_nan y x Hle) as [Hny Hnx].
  pose proof (proj1 (SFleb_value y x Hvy Hvx Hny Hnx) Hle) as Hval.
  destruct x as [sx|sx| |sx mx ex]; try discriminate;
    destruct y as [sy|sy| |sy my ey]; try discriminate.
  - now destruct sx, sy.
  - now destruct sy.
  - now destruct sy.
  - now destruct sx.
  - now destruct sy.
  - unfold SF64sub, SFsub.
    set (ez := Z.min ex ey).
    pose proof (shl_align_value mx ex ez ltac:(unfold ez; lia)) as Hx.
    pose proof (shl_align_value my ey ez ltac:(unfold ez; lia)) as Hy.
    set (X := Z.pos (fst (shl_align mx ex ez))) in *.
    set (Y := Z.pos (fst (shl_align my ey ez))) in *.
    pose proof (bpow_gt_0 ez) as Hb.
    assert (HN : (0 <= cond_Zopp sx X - cond_Zopp sy Y)%Z).
    { apply le_IZR. rewrite minus_IZR.
      unfold value in Hval. cbn [sign_of magnitude] in Hval.
      assert (HX : 0 < IZR X) by (apply IZR_lt; unfold X; lia).
      assert (HY : 0 < IZR Y) by (apply IZR_lt; unfold Y; lia).
      destruct sx, sy; unfold cond_Zopp; rewrite ?opp_IZR; nra. }
    unfold binary_normalize.
    destruct (cond_Zopp sx X - cond_Zopp sy Y)%Z as [|n|n]; try lia.
    + reflexivity.
    + unfold binary_round.
      destruct (shl_align n ez _) as [mz ez'].
      apply binary_round_aux_nonneg. lia.
Qed.

End RoundFacts.

(** ** The order of doubles under division, multiplication and subtraction *)

Module FloatOrder.

Lemma positive_finite_spec m :
  (0 <? m) = true -> is_finite m = true ->
  exists mm em, Prim2SF m = S754_finite false mm em.
Proof.
  rewrite ltb_spec, FloatFacts.is_finite_spec, FloatFacts.Prim2SF_zero.
  destruct (Prim2SF m) as [[]|[]| |[] mm em]; try discriminate.
  intros _ _. now exists mm, em.
Qed.

(** Multiplying by a positive finite double keeps the order. *)
Lemma mul_monotone a b w :
  (0 <? w) = true -> is_finite w = true ->
  (a <=? b) = true -> (a * w <=? b * w) = true.
Proof.
  intros Hpos Hfin. destruct (positive_finite_spec w Hpos Hfin) as (mw & ew & Hw).
  pose proof (Prim2SF_valid w) as Hvw. rewrite Hw in Hvw.
  rewrite !leb_spec, !mul_spec, Hw.
  apply (RoundFacts.scales_monotone _ _ _ _ (RoundFacts.SFmul_scales mw ew Hvw));
    try apply Prim2SF_valid.
  - rewrite <- Hw, <- mul_spec. apply Prim2SF_valid.
  - rewrite <- Hw, <- mul_spec. apply Prim2SF_valid.
Qed.

(** Dividing by a positive finite double keeps the order. *)
Lemma div_monotone a b w :
  (0 <? w) = true -> is_finite w = true ->
  (a <=? b) = true -> (a / w <=? b / w) = true.
Proof.
  intros Hpos Hfin. destruct (positive_finite_spec w Hpos Hfin) as (mw & ew & Hw).
  pose proof (Prim2SF_valid w) as Hvw. rewrite Hw in Hvw.
  rewrite !leb_spec, !div_spec, Hw.
  apply (RoundFacts.scales_monotone _ _ _ _ (RoundFacts.SFdiv_scales mw ew Hvw));
    try apply Prim2SF_valid.
  - rewrite <- Hw, <- div_spec. apply Prim2SF_valid.
  - rewrite <- Hw, <- div_spec. apply Prim2SF_valid.
Qed.

(** The quotient by a positive finite double, times a positive finite
    double, is NaN only for NaN. *)
Lemma div_mul_not_nan t m w :
  (0 <? m) = true -> is_finite m = true ->
  (0 <? w) = true -> is_finite w = true ->
  is_nan t = false -> is_nan (t / m * w) = false.
Proof.
  intros Hm Hmfin Hw Hwfin Ht.
  destruct (positive_finite_spec m Hm Hmfin) as (mm & em & Em).
  destruct (positive_finite_spec w Hw Hwfin) as (mw & ew & Ew).
  pose proof (Prim2SF_valid m) as Hvm. rewrite Em in Hvm.
  pose proof (Prim2SF_valid w) as Hvw. rewrite Ew in Hvw.
  rewrite FloatFacts.is_nan_spec in *. rewrite mul_spec, Ew.
  destruct (RoundFacts.SFmul_scales mw ew Hvw) as [_ Hmul].
  apply Hmul; [apply Prim2SF_valid|].
  rewrite div_spec, Em.
  destruct (RoundFacts.SFdiv_scales mm em Hvm) as [_ Hdiv].
  apply Hdiv; [apply Prim2SF_valid | exact Ht].
Qed.

(** [x - y] is not negative when [y] is not above the finite [x]. *)
Lemma sub_nonneg x y :
  is_finite x = true -> (y <=? x) = true -> (0 <=? x - y) = true.
Proof.
  rewrite FloatFacts.is_finite_spec, !leb_spec, sub_spec, FloatFacts.Prim2SF_zero.
  intros Hfin Hle. apply RoundFacts.SFsub_nonneg; try apply Prim2SF_valid; assumption.
Qed.

Lemma leb_refl x : is_nan x = false -> (x <=? x) = true.
Proof.
  rewrite FloatFacts.is_nan_spec, leb_spec. intros H.
  pose proof (FloatFacts.SFeqb_refl _ H) as E. unfold SFeqb in E. unfold SFleb.
  now destruct (SFcompare (Prim2SF x) (Prim2SF x)) as [[]|].
Qed.

End FloatOrder.

(** ** Doubles that are computed exactly

    A double is its own value rounded, and rounding has one result; so the
    quotient of a double by itself is 1, and the product of 1 and a double is
    that double. *)

Module ExactFacts.

Import SF Round RoundFacts.

#[local] Open Scope R_scope.
#[local] Arguments bpow e : simpl never.

(** A double is its own value rounded. *)
Lemma valid_rounds m e :
  valid_binary (S754_finite false m e) = true ->
  rounds (IZR (Z.pos m) * bpow e) (S754_finite false m e).
Proof.
  intros Hv. destruct (valid_finite _ _ _ Hv) as (He & _).
  destruct (valid_finite_bounds _ _ _ Hv) as (Hu & Hl).
  pose proof (bpow_gt_0 e) as Hb.
  exists e, (Z.pos m). repeat split; try lia; try assumption; try nra.
  exact (magnitude_lt_emax false m e Hv).
Qed.

Lemma rounds_unique x f f' : rounds x f -> rounds x f' -> magnitude f = magnitude f'.
Proof.
  intros H H'.
  pose proof (rounds_le x f x f' H H' (Rle_refl x)).
  pose proof (rounds_le x f' x f H' H (Rle_refl x)). lra.
Qed.

Lemma rounds_sign x f : rounds x f -> sign_of f = false /\ SF_is_nan f = false.
Proof.
  intros (e & n & _ & _ & _ & _ & H).
  destruct f as [[]|[]| |[] m' e']; try contradiction; now split.
Qed.

(** Two valid doubles of the same value are equal, zeros apart. *)
Lemma SFeqb_value f f' :
  valid_binary f = true -> valid_binary f' = true ->
  SF_is_nan f = false -> SF_is_nan f' = false ->
  value f = value f' -> SFeqb f f' = true.
Proof.
  intros Hv Hv' Hn Hn' E. pose proof (SFcompare_value f f' Hv Hv' Hn Hn') as H.
  unfold SFeqb. destruct (SFcompare f f') as [[]|]; try reflexivity; try lra;
    try contradiction.
Qed.

(** The quotient of a positive finite double by itself is 1. *)
Lemma SFdiv_self m e :
  valid_binary (S754_finite false m e) = true ->
  valid_binary (SF64div (S754_finite false m e) (S754_finite false m e)) = true ->
  SFeqb (SF64div (S754_finite false m e) (S754_finite false m e)) (Prim2SF 1) = true.
Proof.
  intros Hv Hvq.
  pose proof (SFdiv_rounds m e m e Hv Hv) as Hr.
  pose proof (magnitude_finite_pos false m e) as Hpos. simpl magnitude in Hpos.
  replace (IZR (Z.pos m) * bpow e / (IZR (Z.pos m) * bpow e)) with 1 in Hr
    by (symmetry; apply Rinv_r, Rgt_not_eq, Hpos).
  assert (H1 : rounds 1 (Prim2SF 1)).
  { rewrite FloatFacts.Prim2SF_one.
    replace 1 with (IZR (Z.pos 4503599627370496) * bpow (-52)) at 1.
    - now apply valid_rounds.
    - change 4503599627370496%Z with (2 ^ 52)%Z.
      rewrite <- bpow_IZR, <- bpow_plus by lia. reflexivity. }
  unfold SF64div, SFdiv in *.
  destruct (SFdiv_core_binary prec emax (Z.pos m) e (Z.pos m) e) as [[mz ez] lz].
  simpl xorb in *.
  destruct (rounds_sign _ _ Hr) as [Hs Hn]. destruct (rounds_sign _ _ H1) as [Hs1 Hn1].
  apply SFeqb_value; try assumption; [apply Prim2SF_valid|].
  unfold value. rewrite Hs, Hs1. exact (rounds_unique _ _ _ Hr H1).
Qed.

(** The product of 1 and a positive finite double is that double. *)
Lemma SFmul_one_l m e :
  valid_binary (S754_finite false m e) = true ->
  valid_binary (SF64mul (Prim2SF 1) (S754_finite false m e)) = true ->
  SFeqb (SF64mul (Prim2SF 1) (S754_finite false m e)) (S754_finite false m e) = true.
Proof.
  intros Hv Hvp. rewrite FloatFacts.Prim2SF_one in *.
  assert (Hv1 : valid_binary (S754_finite false 4503599627370496 (-52)) = true)
    by reflexivity.
  pose proof (SFmul_rounds _ _ m e Hv1 Hv) as Hr.
  replace (IZR (Z.pos 4503599627370496) * bpow (-52) * (IZR (Z.pos m) * bpow e))
    with (IZR (Z.pos m) * bpow e) in Hr.
  2:{ change 4503599627370496%Z with (2 ^ 52)%Z.
      rewrite <- (bpow_IZR 52) by lia.
      rewrite <- Rmult_assoc, <- (bpow_plus 52 (-52)). change (52 + -52)%Z with 0%Z.
      rewrite bpow_0. ring. }
  pose proof (valid_rounds m e Hv) as Hself.
  unfold SF64mul, SFmul in *. simpl xorb in *.
  destruct (rounds_sign _ _ Hr) as [Hs Hn].
  apply SFeqb_value; try assumption; try reflexivity.
  unfold value. rewrite Hs. cbn [sign_of]. exact (rounds_unique _ _ _ Hr Hself).
Qed.

End ExactFacts.

(** ** The order of doubles, through their values *)

Module FloatValue.

Import SF Round RoundFacts.

(** The order of doubles that are not NaN is the order of their values. *)
Lemma leb_value x y :
  is_nan x = false -> is_nan y = false ->
  ((x <=? y) = true <-> (value (Prim2SF x) <= value (Prim2SF y))%R).
Proof.
  rewrite !FloatFacts.is_nan_spec, leb_spec. intros Hx Hy.
  apply SFleb_value; try apply Prim2SF_valid; assumption.
Qed.

Lemma ltb_value x y :
  is_nan x = false -> is_nan y = false ->
  ((x <? y) = true <-> (value (Prim2SF x) < value (Prim2SF y))%R).
Proof.
  rewrite !FloatFacts.is_nan_spec, ltb_spec. intros Hx Hy.
  pose proof (SFcompare_value _ _ (Prim2SF_valid x) (Prim2SF_valid y) Hx Hy) as H.
  unfold SFltb. destruct (SFcompare (Prim2SF x) (Prim2SF y)) as [[]|];
    split; intros; try easy; lra.
Qed.

Lemma eqb_value x y :
  is_nan x = false -> is_nan y = false ->
  ((x =? y) = true <-> value (Prim2SF x) = value (Prim2SF y)).
Proof.
  rewrite !FloatFacts.is_nan_spec, eqb_spec. intros Hx Hy.
  pose proof (SFcompare_value _ _ (Prim2SF_valid x) (Prim2SF_valid y) Hx Hy) as H.
  unfold SFeqb. destruct (SFcompare (Prim2SF x) (Prim2SF y)) as [[]|];
    split; intros; try easy; lra.
Qed.

Lemma leb_not_nan x y : (x <=? y) = true -> is_nan x = false /\ is_nan y = false.
Proof.
  rewrite leb_spec, !FloatFacts.is_nan_spec. apply SFleb_not_nan.
Qed.

Lemma ltb_not_nan x y : (x <? y) = true -> is_nan x = false /\ is_nan y = false.
Proof.
  intros H. apply leb_not_nan. now apply FloatFacts.ltb_leb.
Qed.

Lemma eqb_not_nan x y : (x =? y) = true -> is_nan x = false /\ is_nan y = false.
Proof.
  rewrite eqb_spec, !FloatFacts.is_nan_spec. unfold SFeqb.
  now destruct (Prim2SF x) as [[]|[]| |[] m e], (Prim2SF y) as [[]|[]| |[] m' e'].
Qed.

Lemma leb_trans x y z : (x <=? y) = true -> (y <=? z) = true -> (x <=? z) = true.
Proof.
  intros Hxy Hyz.
  destruct (leb_not_nan _ _ Hxy) as [Hx Hy], (leb_not_nan _ _ Hyz) as [_ Hz].
  apply (leb_value x y Hx Hy) in Hxy. apply (leb_value y z Hy Hz) in Hyz.
  apply (leb_value x z Hx Hz). lra.
Qed.

Lemma eqb_leb x y : (x =? y) = true -> (x <=? y) = true /\ (y <=? x) = true.
Proof.
  intros H. destruct (eqb_not_nan _ _ H) as [Hx Hy].
  apply (eqb_value x y Hx Hy) in H.
  split; [apply (leb_value x y Hx Hy) | apply (leb_value y x Hy Hx)]; lra.
Qed.

(** Of two doubles that are not NaN, one is not above the other. *)
Lemma leb_total x y :
  is_nan x = false -> is_nan y = false -> (x <=? y) = true \/ (y <? x) = true.
Proof.
  intros Hx Hy.
  destruct (Rle_or_lt (value (Prim2SF x)) (value (Prim2SF y))) as [H | H].
  - left. now apply leb_value.
  - right. now apply ltb_value.
Qed.

Lemma ltb_not_leb x y : (x <? y) = true -> (y <=? x) = false.
Proof.
  intros H. destruct (ltb_not_nan _ _ H) as [Hx Hy].
  apply (ltb_value x y Hx Hy) in H.
  destruct (y <=? x) eqn:E; [|reflexivity].
  apply (leb_value y x Hy Hx) in E. lra.
Qed.

(** A double equal to a finite double that is not zero is that double. *)
Lemma SFeqb_finite_eq f s m e :
  SFeqb f (S754_finite s m e) = true -> f = S754_finite s m e.
Proof.
  unfold SFeqb.
  destruct f as [[]|[]| |s' m' e']; try (destruct s; discriminate).
  simpl. change (Pos.compare_cont Eq m' m) with (Pos.compare m' m).
  destruct s', s; try discriminate;
    destruct (Z.compare_spec e' e) as [E | |]; try discriminate;
    destruct (Pos.compare_spec m' m) as [E' | |]; try discriminate;
    intros _; now subst.
Qed.

Lemma eqb_finite_eq x y s m e :
  Prim2SF y = S754_finite s m e -> (x =? y) = true -> x = y.
Proof.
  intros Ey H. apply Prim2SF_inj. rewrite eqb_spec, Ey in H. rewrite Ey.
  now apply SFeqb_finite_eq.
Qed.

(** A positive finite double divided by itself is 1. *)
Lemma div_self m : (0 <? m) = true -> is_finite m = true -> m / m = 1.
Proof.
  intros Hpos Hfin.
  destruct (FloatOrder.positive_finite_spec m Hpos Hfin) as (mm & em & Em).
  pose proof (Prim2SF_valid m) as Hv. rewrite Em in Hv.
  apply (eqb_finite_eq _ 1 _ _ _ FloatFacts.Prim2SF_one).
  rewrite eqb_spec, div_spec, Em. apply ExactFacts.SFdiv_self; [exact Hv|].
  rewrite <- Em, <- div_spec. apply Prim2SF_valid.
Qed.

(** 1 times a positive finite double is that double. *)
Lemma mul_one_l w : (0 <? w) = true -> is_finite w = true -> 1 * w = w.
Proof.
  intros Hpos Hfin.
  destruct (FloatOrder.positive_finite_spec w Hpos Hfin) as (mw & ew & Ew).
  pose proof (Prim2SF_valid w) as Hv. rewrite Ew in Hv.
  apply (eqb_finite_eq _ w _ _ _ Ew).
  rewrite eqb_spec, mul_spec, Ew. apply ExactFacts.SFmul_one_l; [exact Hv|].
  rewrite <- Ew, <- mul_spec. apply Prim2SF_valid.
Qed.

(** [Math.max(1, x)] for an [x] that is not NaN: 1 or [x], whichever is
    larger. *)
Lemma Math_max_one_cases x :
  is_nan x = false ->
  (JS.Math_max 1 x = 1 /\ (x <=? 1) = true) \/ (JS.Math_max 1 x = x /\ (1 <? x) = true).
Proof.
  intros N. unfold JS.Math_max. rewrite N.
  change (is_nan 1) with false. cbn [orb].
  destruct (1 <? x) eqn:L; [now right|]. left.
  assert (Hle : (x <=? 1) = true).
  { destruct (leb_total x 1 N eq_refl) as [H | H]; [exact H | congruence]. }
  split; [|exact Hle].
  destruct (x <? 1); [reflexivity|].
  change (is_zero 1) with false. reflexivity.
Qed.

Lemma Math_max_one_monotone x y :
  (x <=? y) = true -> (JS.Math_max 1 x <=? JS.Math_max 1 y) = true.
Proof.
  intros Hxy. destruct (leb_not_nan _ _ Hxy) as [Hx Hy].
  destruct (Math_max_one_cases x Hx) as [[-> Hx1] | [-> Hx1]],
           (Math_max_one_cases y Hy) as [[-> Hy1] | [-> Hy1]].
  - reflexivity.
  - now apply FloatFacts.ltb_leb.
  - pose proof (leb_trans _ _ _ Hxy Hy1) as H.
    rewrite (ltb_not_leb _ _ Hx1) in H. discriminate.
  - exact Hxy.
Qed.

Lemma Math_max_one_ge_arg x : is_nan x = false -> (x <=? JS.Math_max 1 x) = true.
Proof.
  intros Hx. destruct (Math_max_one_cases x Hx) as [[-> H] | [-> H]].
  - exact H.
  - apply FloatOrder.leb_refl, Hx.
Qed.

Lemma sub_zero_r_eq x : x - 0 = x.
Proof.
  apply Prim2SF_inj. rewrite sub_spec, FloatFacts.Prim2SF_zero.
  now destruct (Prim2SF x) as [[]|[]| |[] m e].
Qed.

Lemma eqb_zero_nonneg x : (x =? 0) = true -> (0 <=? x) = true.
Proof. intros H. now destruct (eqb_leb _ _ H). Qed.

Lemma Math_max_one_zero z : (z =? 0) = true -> JS.Math_max 1 z = 1.
Proof.
  intros Hz. destruct (eqb_not_nan _ _ Hz) as [N _].
  destruct (Math_max_one_cases z N) as [[E _] | [_ H1]]; [exact E|].
  destruct (eqb_leb _ _ Hz) as [Hle _].
  pose proof (leb_trans z 0 1 Hle eq_refl) as H.
  rewrite (ltb_not_leb _ _ H1) in H. discriminate.
Qed.

(** Where [a >= b] is false between two doubles that are not NaN, [a] is
    below [b]. *)
Lemma geb_false_leb a b :
  is_nan a = false -> is_nan b = false -> JS.geb a b = false -> (a <=? b) = true.
Proof.
  unfold JS.geb. intros Ha Hb H.
  destruct (leb_total b a Hb Ha) as [E | E]; [congruence|].
  now apply FloatFacts.ltb_leb.
Qed.


Lemma sub_nan_r x : x - nan = nan.
Proof.
  apply Prim2SF_inj. rewrite sub_spec.
  change (Prim2SF nan) with S754_nan. now destruct (Prim2SF x) as [[]|[]| |[] m e].
Qed.

Lemma add_nan_l x : nan + x = nan.
Proof.
  apply Prim2SF_inj. rewrite add_spec. reflexivity.
Qed.

(** A difference is NaN when one of its terms is. *)
Lemma sub_not_nan x y : is_nan (x - y) = false -> is_nan x = false /\ is_nan y = false.
Proof.
  rewrite !FloatFacts.is_nan_spec, sub_spec.
  now destruct (Prim2SF x) as [[]|[]| |[] m e], (Prim2SF y) as [[]|[]| |[] m' e'].
Qed.

(** Two doubles in order whose difference is not above a finite double are
    finite. *)
Lemma sub_leb_finite a s w :
  is_finite w = true -> (a - s <=? w) = true -> (s <=? a) = true ->
  is_finite a = true /\ is_finite s = true.
Proof.
  rewrite !FloatFacts.is_finite_spec, !leb_spec, sub_spec.
  destruct (Prim2SF a) as [sa|[]| |sa ma ea], (Prim2SF s) as [ss|[]| |ss ms es];
    try (intros; split; reflexivity);
    destruct (Prim2SF w) as [sw|[]| |[] mw ew]; try discriminate;
    try (now destruct sa); try (now destruct ss).
Qed.

(** A double between two finite doubles is finite. *)
Lemma between_finite a x b :
  is_finite a = true -> is_finite b = true ->
  (a <=? x) = true -> (x <=? b) = true -> is_finite x = true.
Proof.
  rewrite !FloatFacts.is_finite_spec, !leb_spec.
  destruct (Prim2SF x) as [sx|[]| |sx mx ex]; try reflexivity;
    destruct (Prim2SF a) as [sa|[]| |[] ma ea], (Prim2SF b) as [sb|[]| |[] mb eb];
    try discriminate; try (now destruct sa); try (now destruct sb).
Qed.

End FloatValue.

(** ** Sums and differences of doubles

    The sum and the difference of two finite doubles are the real sum and
    difference of their values rounded to nearest, ties to even: they are
    exact when the real result is a double, and they keep the order. *)

Module SumFacts.

Import SF Round RoundFacts ExactFacts.

#[local] Open Scope R_scope.
#[local] Arguments bpow e : simpl never.

Lemma digits2_pos_shift m d :
  Z.pos (digits2_pos (Pos.iter xO m d)) = (Z.pos (digits2_pos m) + Z.pos d)%Z.
Proof.
  induction d as [|d IH] using Pos.peano_ind.
  - simpl. lia.
  - rewrite Pos.iter_succ. simpl digits2_pos. lia.
Qed.

(** A positive integer times a power of two, rounded. *)
Lemma binary_round_rounds p e :
  rounds (IZR (Z.pos p) * bpow e) (binary_round prec emax false p e).
Proof.
  unfold binary_round. fold (cexp (Z.pos (digits2_pos p) + e)).
  set (e' := cexp (Z.pos (digits2_pos p) + e)).
  pose proof (bpow_gt_0 e) as Hb.
  assert (Hx : 0 <= IZR (Z.pos p) * bpow e)
    by (apply Rmult_le_pos; [apply IZR_le; lia | lra]).
  destruct (Z_lt_le_dec e' e) as [Hlt | Hge].
  - pose proof (shl_align_value p e e' ltac:(lia)) as Hval.
    assert (Hshape : shl_align p e e' = (Pos.iter xO p (Z.to_pos (e - e')), e')).
    { unfold shl_align. destruct (e' - e)%Z as [|d|d] eqn:Ed; try lia.
      replace (Z.to_pos (e - e')) with d by lia. reflexivity. }
    rewrite Hshape in *. simpl fst in Hval. rewrite <- Hval.
    apply binary_round_aux_rounds.
    + rewrite Hval. exact Hx.
    + lia.
    + apply inbetween_of_loc_Exact.
    + simpl Zdigits2. rewrite digits2_pos_shift.
      replace (Z.pos (digits2_pos p) + Z.pos (Z.to_pos (e - e')) + e')%Z
        with (Z.pos (digits2_pos p) + e)%Z by lia.
      fold e'. lia.
  - assert (Hshape : shl_align p e e' = (p, e)).
    { unfold shl_align. destruct (e' - e)%Z as [|d|d] eqn:Ed; try lia; reflexivity. }
    rewrite Hshape.
    apply binary_round_aux_rounds.
    + exact Hx.
    + lia.
    + apply inbetween_of_loc_Exact.
    + simpl Zdigits2. fold e'. lia.
Qed.

Lemma binary_round_sign s p e :
  binary_round prec emax s p e = with_sign s (binary_round prec emax false p e).
Proof.
  unfold binary_round. destruct (shl_align p e _) as [mz ez].
  apply binary_round_aux_sign.
Qed.

Lemma with_sign_idem s s' f : with_sign s (with_sign s' f) = with_sign s f.
Proof. now destruct f. Qed.

Lemma rounds_not_zero_sign x f : rounds x f -> with_sign false f = f.
Proof.
  intros H. destruct (rounds_sign x f H) as [Hs Hn].
  destruct f as [[]|[]| |[] m e]; try discriminate; reflexivity.
Qed.

(** An integer times a power of two, rounded. *)
Lemma binary_normalize_rounds M e :
  rounds_signed (IZR M * bpow e) (binary_normalize prec emax M e false).
Proof.
  pose proof (bpow_gt_0 e) as Hb. unfold rounds_signed, binary_normalize.
  destruct M as [|p|p].
  - left. split; [lra | reflexivity].
  - right. left. split.
    + apply Rmult_lt_0_compat; [apply IZR_lt; lia | lra].
    + apply binary_round_rounds.
  - right. right.
    pose proof (binary_round_rounds p e) as Hr.
    assert (Hneg : IZR (Z.neg p) = - IZR (Z.pos p)) by (rewrite <- opp_IZR; reflexivity).
    rewrite Hneg. split; [|split].
    + assert (0 < IZR (Z.pos p)) by (apply IZR_lt; lia). nra.
    + rewrite binary_round_sign.
      destruct (rounds_sign _ _ Hr) as [_ Hn].
      now destruct (binary_round prec emax false p e).
    + rewrite binary_round_sign, with_sign_idem, (rounds_not_zero_sign _ _ Hr).
      replace (- (- IZR (Z.pos p) * bpow e)) with (IZR (Z.pos p) * bpow e) by ring.
      exact Hr.
Qed.

Lemma valid_with_sign s f : valid_binary (with_sign s f) = valid_binary f.
Proof. now destruct f. Qed.

(** A finite double is its own value rounded. *)
Lemma rounds_signed_self f :
  valid_binary f = true -> SF_is_finite f = true -> rounds_signed (value f) f.
Proof.
  intros Hv Hf. unfold rounds_signed, value.
  destruct f as [s|s| |s m e]; try discriminate.
  - left. cbn. split; [destruct s; lra | reflexivity].
  - pose proof (magnitude_finite_pos s m e) as Hpos. right.
    destruct s; cbn [sign_of].
    + right. split; [lra|]. split; [reflexivity|].
      rewrite Ropp_involutive. now apply valid_rounds.
    + left. split; [lra|]. now apply valid_rounds.
Qed.

Lemma cond_Zopp_IZR s z : IZR (cond_Zopp s z) = if s then - IZR z else IZR z.
Proof. destruct s; simpl; [apply opp_IZR | reflexivity]. Qed.

Lemma value_finite s m e :
  value (S754_finite s m e) = (if s then - IZR (Z.pos m) else IZR (Z.pos m)) * bpow e.
Proof. unfold value. cbn. destruct s; ring. Qed.

Lemma value_opp_finite s m e :
  value (S754_finite (negb s) m e) = - value (S754_finite s m e).
Proof. rewrite !value_finite. destruct s; simpl; ring. Qed.

(** The sum of two finite doubles is the sum of their values, rounded. *)
Lemma SFadd_rounds x y :
  valid_binary x = true -> valid_binary y = true ->
  SF_is_finite x = true -> SF_is_finite y = true ->
  rounds_signed (value x + value y) (SF64add x y).
Proof.
  intros Hvx Hvy Hfx Hfy.
  destruct x as [sx|sx| |sx mx ex]; try discriminate;
    destruct y as [sy|sy| |sy my ey]; try discriminate.
  - left. split; [unfold value; cbn; destruct sx, sy; lra | now destruct sx, sy].
  - replace (value (S754_zero sx)) with 0 by (unfold value; cbn; destruct sx; lra).
    rewrite Rplus_0_l. now apply (rounds_signed_self (S754_finite sy my ey)).
  - replace (value (S754_zero sy)) with 0 by (unfold value; cbn; destruct sy; lra).
    rewrite Rplus_0_r. now apply (rounds_signed_self (S754_finite sx mx ex)).
  - unfold SF64add, SFadd.
    set (ez := Z.min ex ey).
    pose proof (shl_align_value mx ex ez ltac:(unfold ez; lia)) as Hx.
    pose proof (shl_align_value my ey ez ltac:(unfold ez; lia)) as Hy.
    set (X := Z.pos (fst (shl_align mx ex ez))) in *.
    set (Y := Z.pos (fst (shl_align my ey ez))) in *.
    replace (value (S754_finite sx mx ex) + value (S754_finite sy my ey))
      with (IZR (cond_Zopp sx X + cond_Zopp sy Y) * bpow ez).
    + apply binary_normalize_rounds.
    + rewrite plus_IZR, !cond_Zopp_IZR, !value_finite.
      destruct sx, sy; lra.
Qed.

(** The difference of two finite doubles is the difference of their values,
    rounded. *)
Lemma SFsub_rounds x y :
  valid_binary x = true -> valid_binary y = true ->
  SF_is_finite x = true -> SF_is_finite y = true ->
  rounds_signed (value x - value y) (SF64sub x y).
Proof.
  intros Hvx Hvy Hfx Hfy.
  destruct x as [sx|sx| |sx mx ex]; try discriminate;
    destruct y as [sy|sy| |sy my ey]; try discriminate.
  - left. split; [unfold value; cbn; destruct sx, sy; lra | now destruct sx, sy].
  - replace (value (S754_zero sx)) with 0 by (unfold value; cbn; destruct sx; lra).
    unfold Rminus. rewrite Rplus_0_l, <- value_opp_finite.
    now apply (rounds_signed_self (S754_finite (negb sy) my ey)).
  - replace (value (S754_zero sy)) with 0 by (unfold value; cbn; destruct sy; lra).
    rewrite Rminus_0_r. now apply (rounds_signed_self (S754_finite sx mx ex)).
  - unfold SF64sub, SFsub.
    set (ez := Z.min ex ey).
    pose proof (shl_align_value mx ex ez ltac:(unfold ez; lia)) as Hx.
    pose proof (shl_align_value my ey ez ltac:(unfold ez; lia)) as Hy.
    set (X := Z.pos (fst (shl_align mx ex ez))) in *.
    set (Y := Z.pos (fst (shl_align my ey ez))) in *.
    replace (value (S754_finite sx mx ex) - value (S754_finite sy my ey))
      with (IZR (cond_Zopp sx X - cond_Zopp sy Y) * bpow ez).
    + apply binary_normalize_rounds.
    + rewrite minus_IZR, !cond_Zopp_IZR, !value_finite.
      destruct sx, sy; lra.
Qed.

Lemma rounds_signed_not_nan x f : rounds_signed x f -> SF_is_nan f = false.
Proof.
  intros [[_ H] | [[_ H] | (_ & _ & H)]].
  - now destruct f.
  - now destruct (rounds_sign _ _ H).
  - destruct (rounds_sign _ _ H) as [_ Hn]. now destruct f.
Qed.

Lemma rounds_signed_value x f :
  rounds_signed x f ->
  (x = 0 /\ value f = 0) \/
  (0 < x /\ rounds x f /\ value f = magnitude f) \/
  (x < 0 /\ rounds (- x) (with_sign false f) /\ value f = - magnitude f).
Proof.
  intros [[Hx H] | [[Hx H] | (Hx & Hs & H)]].
  - left. split; [exact Hx|]. destruct f as [[]| | |]; try discriminate; unfold value; cbn; lra.
  - right. left. repeat split; try assumption.
    destruct (rounds_sign _ _ H) as [Hs _]. unfold value. now rewrite Hs.
  - right. right. repeat split; try assumption. unfold value. now rewrite Hs.
Qed.

(** Rounding keeps the order. *)
Lemma rounds_signed_le x f x' f' :
  rounds_signed x f -> rounds_signed x' f' -> x <= x' -> value f <= value f'.
Proof.
  intros H H' Hle.
  pose proof (magnitude_nonneg f) as Hm. pose proof (magnitude_nonneg f') as Hm'.
  destruct (rounds_signed_value _ _ H) as [[Hx E] | [(Hx & Hr & E) | (Hx & Hr & E)]],
           (rounds_signed_value _ _ H') as [[Hx' E'] | [(Hx' & Hr' & E') | (Hx' & Hr' & E')]];
    rewrite E, E'; try lra.
  - apply (rounds_le _ _ _ _ Hr Hr' Hle).
  - pose proof (rounds_le _ _ _ _ Hr' Hr ltac:(lra)) as Hmag.
    rewrite !magnitude_with_sign in Hmag. lra.
Qed.

Lemma rounds_finite x h g :
  rounds x h -> rounds x g -> valid_binary g = true -> SF_is_finite g = true ->
  SF_is_finite h = true.
Proof.
  intros Hh Hgr Hvg Hfg. pose proof (rounds_unique _ _ _ Hh Hgr) as Hmag.
  destruct (rounds_sign _ _ Hh) as [_ Hn].
  destruct g as [sg|sg| |sg mg eg]; try discriminate;
    destruct h as [sh|sh| |sh mh eh]; try discriminate; try reflexivity.
  - cbn in Hmag. pose proof (bpow_gt_0 emax). lra.
  - pose proof (magnitude_lt_emax sg mg eg Hvg). cbn [magnitude] in *. lra.
Qed.

(** Rounding a real number that is a finite double gives that double. *)
Lemma rounds_signed_exact x f g :
  rounds_signed x f -> valid_binary g = true -> SF_is_finite g = true -> value g = x ->
  value f = x /\ SF_is_finite f = true.
Proof.
  intros H Hvg Hfg Hg.
  pose proof (rounds_signed_self g Hvg Hfg) as Hself. rewrite Hg in Hself.
  destruct (rounds_signed_value _ _ H) as [[Hx E] | [(Hx & Hr & E) | (Hx & Hr & E)]],
           (rounds_signed_value _ _ Hself)
             as [[Hx' E'] | [(Hx' & Hr' & E') | (Hx' & Hr' & E')]]; try lra.
  - split; [lra|]. destruct H as [[_ Hz] | [[? _] | [? _]]]; try lra. now destruct f.
  - split; [|now apply (rounds_finite x f g)].
    rewrite E, (rounds_unique _ _ _ Hr Hr'), <- E'. exact Hg.
  - pose proof (rounds_unique _ _ _ Hr Hr') as Hmag. rewrite !magnitude_with_sign in Hmag.
    split; [rewrite E, Hmag, <- E'; exact Hg|].
    assert (Hwf : SF_is_finite (with_sign false f) = true).
    { apply (rounds_finite (- x) _ (with_sign false g)); try assumption.
      - now rewrite valid_with_sign.
      - now destruct g. }
    now destruct f.
Qed.

End SumFacts.

Module SumOrder.

Import SF Round RoundFacts ExactFacts SumFacts.

#[local] Open Scope float_scope.
#[local] Arguments bpow e : simpl never.

Lemma add_rounds x y :
  is_finite x = true -> is_finite y = true ->
  rounds_signed (realValue x + realValue y) (Prim2SF (x + y)).
Proof.
  rewrite !FloatFacts.is_finite_spec, add_spec. intros Hx Hy.
  apply SFadd_rounds; try apply Prim2SF_valid; assumption.
Qed.

Lemma sub_rounds x y :
  is_finite x = true -> is_finite y = true ->
  rounds_signed (realValue x - realValue y) (Prim2SF (x - y)).
Proof.
  rewrite !FloatFacts.is_finite_spec, sub_spec. intros Hx Hy.
  apply SFsub_rounds; try apply Prim2SF_valid; assumption.
Qed.

(** A difference that is a finite double is computed exactly. *)
Lemma sub_exact x y r :
  is_finite x = true -> is_finite y = true -> is_finite r = true ->
  realValue r = (realValue x - realValue y)%R ->
  realValue (x - y) = realValue r /\ is_finite (x - y) = true.
Proof.
  intros Hx Hy Hr E. rewrite E, FloatFacts.is_finite_spec.
  apply (rounds_signed_exact _ _ (Prim2SF r) (sub_rounds x y Hx Hy));
    [apply Prim2SF_valid | now rewrite <- FloatFacts.is_finite_spec | exact E].
Qed.

(** A sum that is a finite double is computed exactly. *)
Lemma add_exact x y r :
  is_finite x = true -> is_finite y = true -> is_finite r = true ->
  realValue r = (realValue x + realValue y)%R ->
  realValue (x + y) = realValue r /\ is_finite (x + y) = true.
Proof.
  intros Hx Hy Hr E. rewrite E, FloatFacts.is_finite_spec.
  apply (rounds_signed_exact _ _ (Prim2SF r) (add_rounds x y Hx Hy));
    [apply Prim2SF_valid | now rewrite <- FloatFacts.is_finite_spec | exact E].
Qed.

(** Where the difference [w - c] is a double, adding it to [c] gives [w]
    back. *)
Lemma add_sub_exact c w r :
  is_finite c = true -> is_finite w = true -> is_finite r = true ->
  realValue r = (realValue w - realValue c)%R ->
  (c + (w - c) =? w) = true.
Proof.
  intros Hc Hw Hr E.
  destruct (sub_exact w c r Hw Hc Hr E) as [Ed Hd].
  destruct (add_exact c (w - c) w Hc Hd Hw) as [Es Hs].
  { rewrite Ed, E. unfold realValue. lra. }
  apply FloatValue.eqb_value; try now apply FloatFacts.is_finite_not_nan.
  exact Es.
Qed.

(** Subtracting a finite double keeps the order of finite doubles. *)
Lemma sub_monotone_l a b s :
  is_finite a = true -> is_finite b = true -> is_finite s = true ->
  (a <=? b) = true -> (a - s <=? b - s) = true.
Proof.
  intros Ha Hb Hs Hle.
  pose proof (sub_rounds a s Ha Hs) as Hra. pose proof (sub_rounds b s Hb Hs) as Hrb.
  apply FloatValue.leb_value.
  - rewrite FloatFacts.is_nan_spec. exact (rounds_signed_not_nan _ _ Hra).
  - rewrite FloatFacts.is_nan_spec. exact (rounds_signed_not_nan _ _ Hrb).
  - apply (rounds_signed_le _ _ _ _ Hra Hrb).
    apply FloatValue.leb_value in Hle; try now apply FloatFacts.is_finite_not_nan.
    unfold realValue. lra.
Qed.

(** What is rounded from below a finite double is finite and not negative. *)
Lemma rounds_below x f m e :
  rounds x f -> valid_binary (S754_finite false m e) = true ->
  (x <= IZR (Z.pos m) * bpow e)%R ->
  f = S754_zero false \/ exists m' e', f = S754_finite false m' e'.
Proof.
  intros Hr Hv Hle.
  pose proof (rounds_le _ _ _ _ Hr (valid_rounds m e Hv) Hle) as Hmag.
  pose proof (magnitude_lt_emax false m e Hv) as Hlt.
  destruct (rounds_sign _ _ Hr) as [Hs Hn].
  destruct f as [[]|[]| |[] m' e']; try discriminate.
  - now left.
  - cbn [magnitude] in *. lra.
  - right. now exists m', e'.
Qed.

(** The top of a row and the height of a chart, a number of rows times the
    height of a row, are finite and not negative. *)
Lemma ofNat_mul_valid i :
  is_finite (JS.ofNat i * planStepHeight) = true /\
  (0 <=? JS.ofNat i * planStepHeight) = true.
Proof.
  unfold JS.ofNat, planStepHeight.
  set (n := Uint63.of_Z (Z.of_nat i)).
  rewrite FloatFacts.is_finite_spec, leb_spec, mul_spec, FloatFacts.Prim2SF_zero.
  pose proof (Prim2SF_valid (of_uint63 n)) as Hv.
  rewrite of_uint63_spec in *. pose proof (to_Z_bounded n) as [Hlo Hhi].
  change (Prim2SF 20) with (S754_finite false 5629499534213120 (-48)).
  unfold binary_normalize in *.
  destruct (to_Z n) as [|p|p]; try lia; [now split|].
  pose proof (binary_round_rounds p 0) as Hr.
  assert (H63 : valid_binary (S754_finite false 4503599627370496 11) = true) by reflexivity.
  assert (H68 : valid_binary (S754_finite false 4503599627370496 16) = true) by reflexivity.
  assert (E63 : (IZR (Z.pos 4503599627370496) * bpow 11 = IZR (2 ^ 63))%R).
  { rewrite (bpow_IZR 11), <- mult_IZR by lia. reflexivity. }
  assert (E68 : (IZR (Z.pos 4503599627370496) * bpow 16 = IZR (2 ^ 63) * 32)%R).
  { rewrite (bpow_IZR 16) by lia.
    change 32%R with (IZR 32). rewrite <- !mult_IZR. reflexivity. }
  assert (Hp : (IZR (Z.pos p) <= IZR (2 ^ 63))%R)
    by (apply IZR_le; unfold wB in Hhi; simpl in Hhi; lia).
  destruct (rounds_below _ _ _ _ Hr H63) as [-> | (m & e & E)].
  { rewrite E63, bpow_0. lra. }
  - now split.
  - rewrite E in *. unfold SF64mul, SFmul. cbn [xorb].
    assert (H20 : valid_binary (S754_finite false 5629499534213120 (-48)) = true)
      by reflexivity.
    pose proof (SFmul_rounds m e _ _ Hv H20) as Hm.
    pose proof (rounds_le _ _ _ _ Hr (valid_rounds _ _ H63)) as Hmag.
    rewrite E63, bpow_0 in Hmag. cbn [magnitude] in Hmag.
    assert (E20 : (IZR (Z.pos 5629499534213120) * bpow (-48) = 20)%R).
    { assert (H48 : (bpow (-48) * IZR (2 ^ 48) = 1)%R).
      { rewrite <- (bpow_IZR 48), <- bpow_plus by lia. apply bpow_0. }
      change (2 ^ 48)%Z with 281474976710656%Z in H48. lra. }
    destruct (rounds_below _ _ _ _ Hm H68) as [-> | (m' & e' & ->)].
    { rewrite E20, E68. pose proof (magnitude_finite_pos false m e) as Hpos.
      cbn [magnitude] in Hpos. specialize (Hmag ltac:(lra)). nra. }
    + now split.
    + now split.
Qed.

End SumOrder.

(** ** The committed part of a step *)

Lemma PlanStepCommitment_eqb_eq a b : PlanStepCommitment_eqb a b = true <-> a = b.
Proof.
  destruct a, b; simpl; split; intro H; try reflexivity; discriminate.
Qed.

(** C1. [computePlanHeadDuration] follows the dispatch of the specification:
    without [now], the whole duration (epsilon when the step has none); for a
    step that ends before [now], the whole duration when the step is
    [Committed] and 0 otherwise; for a step that starts at [now] or later, 0;
    and for a step that straddles [now], the whole duration for [Committed],
    0 for [EndsInRelaxedPlan], [now - startTime] for [StartsInRelaxedPlan] and
    0 for any other commitment. *)
Theorem computePlanHeadDuration_dispatch :
  forall (options : PlanViewOptions) (step : PlanStep) (plan : Plan),
    let whole := JS.nullish (getDuration step) (epsilon options) in
    let start := JS.toNumber (getStartTime step) in
    let committed := computePlanHeadDuration options step plan in
    (now plan = None -> committed = whole) /\
    (forall n, now plan = Some n -> (getEndTime step <? n) = true ->
       (commitment step = Committed -> committed = whole) /\
       (commitment step <> Committed -> committed = 0)) /\
    (forall n, now plan = Some n -> (getEndTime step <? n) = false ->
       JS.geb start n = true -> committed = 0) /\
    (forall n, now plan = Some n -> (getEndTime step <? n) = false ->
       JS.geb start n = false ->
       (commitment step = Committed -> committed = whole) /\
       (commitment step = EndsInRelaxedPlan -> committed = 0) /\
       (commitment step = StartsInRelaxedPlan -> committed = n - start) /\
       (commitment step <> Committed -> commitment step <> EndsInRelaxedPlan ->
        commitment step <> StartsInRelaxedPlan -> committed = 0)).
Proof.
  intros options step plan whole start committed.
  subst whole start committed. unfold computePlanHeadDuration.
  split; [|split; [|split]].
  - intros ->. reflexivity.
  - intros n -> ->. split.
    + intros ->. reflexivity.
    + intros Hc.
      destruct (PlanStepCommitment_eqb (commitment step) Committed) eqn:E;
        [apply PlanStepCommitment_eqb_eq in E; contradiction | reflexivity].
  - intros n -> -> ->. reflexivity.
  - intros n -> -> ->. repeat split.
    + intros ->. reflexivity.
    + intros ->. reflexivity.
    + intros ->. reflexivity.
    + destruct (commitment step); try reflexivity; contradiction.
Qed.

(** The scenario of the specification: a step from 2 to 8 whose start only is
    committed, seen at 5, has 3 time units committed. *)
Lemma computePlanHeadDuration_dispatch_witness :
  computePlanHeadDuration Demo.options Demo.startedStep Demo.startedPlan = 3.
Proof.
  destruct (computePlanHeadDuration_dispatch Demo.options Demo.startedStep Demo.startedPlan)
    as (_ & _ & _ & H).
  destruct (H 5 eq_refl eq_refl eq_refl) as (_ & _ & H3 & _).
  exact (H3 eq_refl).
Defined.

Lemma computePlanHeadDuration_cases options step plan :
  elapsedPartOnly step plan = false ->
  computePlanHeadDuration options step plan = 0 \/
  computePlanHeadDuration options step plan = wholeDuration options step.
Proof.
  unfold elapsedPartOnly, computePlanHeadDuration, wholeDuration.
  destruct (now plan) as [n|]; [|now right].
  destruct (getEndTime step <? n).
  - destruct (PlanStepCommitment_eqb (commitment step) Committed);
      [now right | now left].
  - destruct (JS.geb _ n); [now left|].
    destruct (commitment step); simpl; intros H;
      try discriminate; (now left) || (now right).
Qed.

Lemma computePlanHeadDuration_elapsed options step plan :
  elapsedPartOnly step plan = true ->
  exists n, now plan = Some n /\
    computePlanHeadDuration options step plan = n - JS.toNumber (getStartTime step).
Proof.
  unfold elapsedPartOnly, computePlanHeadDuration.
  destruct (now plan) as [n|]; [|discriminate].
  intros H. exists n. split; [reflexivity|].
  destruct (getEndTime step <? n); [discriminate|].
  destruct (JS.geb _ n); [discriminate|].
  now destruct (commitment step).
Qed.

(** In the one case in which [computePlanHeadDuration] subtracts, the step
    has not ended before [now] and has started before it. *)
Lemma elapsedPartOnly_spec step plan :
  elapsedPartOnly step plan = true ->
  exists n, now plan = Some n /\
    (getEndTime step <? n) = false /\
    JS.geb (JS.toNumber (getStartTime step)) n = false /\
    commitment step = StartsInRelaxedPlan.
Proof.
  unfold elapsedPartOnly. destruct (now plan) as [n|]; [|discriminate].
  intros H. exists n. split; [reflexivity|].
  destruct (getEndTime step <? n); [discriminate|].
  destruct (JS.geb _ n); [discriminate|].
  apply PlanStepCommitment_eqb_eq in H. now repeat split.
Qed.

(** C2, as the code has it.  The committed and the relaxed part add up to the
    whole duration (epsilon when the step has none), when that duration is
    finite, in each of these cases: the committed part is none or all of it,
    which is every case but that of a step that straddles [now] with its
    start only committed; or, in that case too, the committed part is finite
    and the difference of the whole duration and the committed part is a
    double, so that the subtraction does not round.  A step that straddles
    [now] with its start only committed and has no start time has NaN for
    its committed part and for the sum. *)
Theorem committed_plus_relaxed_is_whole :
  forall (options : PlanViewOptions) (step : PlanStep) (plan : Plan),
    let committed := computePlanHeadDuration options step plan in
    let whole := wholeDuration options step in
    is_finite whole = true ->
    (elapsedPartOnly step plan = false ->
     (committed + relaxedDuration options committed step =? whole) = true) /\
    (is_finite committed = true -> exactDifference whole committed ->
     (committed + relaxedDuration options committed step =? whole) = true) /\
    (elapsedPartOnly step plan = true -> getStartTime step = None ->
     is_nan committed = true /\
     is_nan (committed + relaxedDuration options committed step) = true).
Proof.
  intros options step plan committed whole Hfin. subst committed whole.
  unfold relaxedDuration. fold (wholeDuration options step).
  split; [|split].
  - intros Hpart.
    destruct (computePlanHeadDuration_cases options step plan Hpart) as [-> | ->].
    + apply FloatFacts.add_zero_sub_zero. now apply FloatFacts.is_finite_not_nan.
    + now apply FloatFacts.add_sub_diag.
  - intros Hc (r & Hr & E). now apply (SumOrder.add_sub_exact _ _ r).
  - intros Hpart Hstart.
    destruct (computePlanHeadDuration_elapsed options step plan Hpart) as (n & _ & ->).
    rewrite Hstart. cbn [JS.toNumber JS.nullish].
    rewrite FloatValue.sub_nan_r. split; [reflexivity|].
    now rewrite FloatValue.add_nan_l.
Qed.

(** The scenario of the specification: of the 6 time units of a step from 2
    to 8, seen at 5, 3 are committed, and 6 - 3 is the double 3. *)
Lemma exactDifference_started :
  exactDifference (wholeDuration Demo.options Demo.startedStep)
    (computePlanHeadDuration Demo.options Demo.startedStep Demo.startedPlan).
Proof.
  exists 3. split; [reflexivity|].
  change (computePlanHeadDuration Demo.options Demo.startedStep Demo.startedPlan) with 3.
  change (wholeDuration Demo.options Demo.startedStep) with 6.
  unfold realValue.
  change (Prim2SF 3) with (S754_finite false 6755399441055744 (-51)).
  change (Prim2SF 6) with (S754_finite false 6755399441055744 (-50)).
  unfold Round.value. cbn [Round.sign_of Round.magnitude].
  change (-50)%Z with (-51 + 1)%Z. rewrite RoundFacts.bpow_succ. lra.
Defined.

Lemma committed_plus_relaxed_is_whole_witness :
  (computePlanHeadDuration Demo.options Demo.committedStep Demo.committedPlan
   + relaxedDuration Demo.options
       (computePlanHeadDuration Demo.options Demo.committedStep Demo.committedPlan)
       Demo.committedStep =? 3) = true /\
  (computePlanHeadDuration Demo.options Demo.startedStep Demo.startedPlan
   + relaxedDuration Demo.options
       (computePlanHeadDuration Demo.options Demo.startedStep Demo.startedPlan)
       Demo.startedStep =? 6) = true.
Proof.
  split.
  - exact (proj1 (committed_plus_relaxed_is_whole Demo.options Demo.committedStep
                    Demo.committedPlan eq_refl) eq_refl).
  - exact (proj1 (proj2 (committed_plus_relaxed_is_whole Demo.options Demo.startedStep
                           Demo.startedPlan eq_refl)) eq_refl exactDifference_started).
Defined.

(** C2 fails where the committed part is [now - startTime] and the
    subtractions round: for a step from 0 that lasts 0.9, seen at 0.2, the
    parts are 0.2 and 0.7, and their sum, as a double, is 0.8999999999999999. *)
Lemma committed_plus_relaxed_rounds :
  let committed := computePlanHeadDuration Demo.options Demo.roundedStep Demo.roundedPlan in
  let relaxed := relaxedDuration Demo.options committed Demo.roundedStep in
  committed = 0.2 /\ relaxed = 0.7 /\
  committed + relaxed = 0.8999999999999999 /\
  (committed + relaxed =? 0.9) = false.
Proof. repeat split. Qed.

(** C7, as the code has it.  For a step whose whole duration (epsilon when
    the step has none) is finite and not negative, the relaxed part is not
    negative when the committed part is none or all of the duration, which
    is every case but that of a step that straddles [now] with its start only
    committed; and it is not negative in every case, that one too, when [now]
    is not NaN and the end time less the start time, as the doubles compute
    it, is not above the whole duration. *)
Theorem relaxedDuration_nonneg :
  forall (options : PlanViewOptions) (step : PlanStep) (plan : Plan),
    let committed := computePlanHeadDuration options step plan in
    let whole := wholeDuration options step in
    is_finite whole = true -> (0 <=? whole) = true ->
    (elapsedPartOnly step plan = false ->
     (0 <=? relaxedDuration options committed step) = true) /\
    (is_nan (JS.nullish (now plan) 0) = false ->
     (getEndTime step - JS.toNumber (getStartTime step) <=? whole) = true ->
     (0 <=? relaxedDuration options committed step) = true).
Proof.
  intros options step plan committed whole Hfin Hpos. subst committed whole.
  unfold relaxedDuration. fold (wholeDuration options step).
  assert (Hrest : elapsedPartOnly step plan = false ->
                  (0 <=? wholeDuration options step
                         - computePlanHeadDuration options step plan) = true).
  { intros Hpart. apply FloatOrder.sub_nonneg; [exact Hfin|].
    destruct (computePlanHeadDuration_cases options step plan Hpart) as [-> | ->].
    - exact Hpos.
    - apply FloatOrder.leb_refl. now apply FloatFacts.is_finite_not_nan. }
  split; [exact Hrest|].
  intros Hnow Hend.
  destruct (elapsedPartOnly step plan) eqn:Hpart; [|now apply Hrest].
  destruct (computePlanHeadDuration_elapsed options step plan Hpart) as (n & En & ->).
  destruct (elapsedPartOnly_spec step plan Hpart) as (n' & En' & Hended & Hstarted & _).
  rewrite En in En'. injection En' as <-. rewrite En in Hnow. cbn [JS.nullish] in Hnow.
  set (start := JS.toNumber (getStartTime step)) in *.
  destruct (FloatValue.leb_not_nan _ _ Hend) as [Hdiff _].
  destruct (FloatValue.sub_not_nan _ _ Hdiff) as [Hne Hns].
  assert (Hsn : (start <=? n) = true) by now apply FloatValue.geb_false_leb.
  assert (Hne' : (n <=? getEndTime step) = true).
  { destruct (FloatValue.leb_total n (getEndTime step) Hnow Hne) as [H | H];
      [exact H | congruence]. }
  destruct (FloatValue.sub_leb_finite (getEndTime step) start (wholeDuration options step)
              Hfin Hend (FloatValue.leb_trans _ _ _ Hsn Hne')) as [Hfe Hfs].
  assert (Hfn : is_finite n = true)
    by now apply (FloatValue.between_finite start n (getEndTime step)).
  apply FloatOrder.sub_nonneg; [exact Hfin|].
  apply (FloatValue.leb_trans _ (getEndTime step - start)); [|exact Hend].
  now apply SumOrder.sub_monotone_l.
Qed.

Lemma relaxedDuration_nonneg_witness :
  (0 <=? relaxedDuration Demo.options
           (computePlanHeadDuration Demo.options Demo.committedStep Demo.committedPlan)
           Demo.committedStep) = true /\
  (0 <=? relaxedDuration Demo.options
           (computePlanHeadDuration Demo.options Demo.startedStep Demo.startedPlan)
           Demo.startedStep) = true.
Proof.
  split.
  - exact (proj1 (relaxedDuration_nonneg Demo.options Demo.committedStep Demo.committedPlan
                    eq_refl eq_refl) eq_refl).
  - exact (proj2 (relaxedDuration_nonneg Demo.options Demo.startedStep Demo.startedPlan
                    eq_refl eq_refl) eq_refl eq_refl).
Defined.

(** C7 fails where the committed part is [now - startTime].  A step that
    starts at 0.1 and lasts 0.2 ends at 0.30000000000000004, the double
    nearest to the sum; seen at that time it has 0.20000000000000004 time
    units committed, more than it lasts, and its relaxed part is negative. *)
Lemma relaxedDuration_negative :
  let step := Demo.endingStep in
  let committed := computePlanHeadDuration Demo.options step Demo.endingPlan in
  (getEndTime step
     =? JS.toNumber (getStartTime step) + JS.nullish (getDuration step) 0) = true /\
  (0 <? epsilon Demo.options) = true /\
  committed = 0.20000000000000004 /\
  (0 <=? relaxedDuration Demo.options committed step) = false.
Proof. repeat split. Qed.

(** C7 fails also for a step whose duration is negative. *)
Lemma relaxedDuration_negative_duration :
  let step := Demo.negativeStep in
  let committed := computePlanHeadDuration Demo.options step Demo.negativePlan in
  (getEndTime step
     =? JS.toNumber (getStartTime step) + JS.nullish (getDuration step) 0) = true /\
  (0 <? epsilon Demo.options) = true /\
  committed = 0 /\
  relaxedDuration Demo.options committed step = -5.
Proof. repeat split. Qed.

(** ** The split between plan head and relaxed plan *)

(** C4. A step is in the plan head if and only if [now] is undefined or its
    commitment is [Committed] or [EndsInRelaxedPlan]; without [now], every
    step is. *)
Theorem isPlanHeadStep_iff :
  forall (step : PlanStep) (timeNow : option JS.number),
    (isPlanHeadStep step timeNow = true <->
     timeNow = None \/ commitment step = Committed \/
     commitment step = EndsInRelaxedPlan) /\
    isPlanHeadStep step None = true.
Proof.
  intros step timeNow. split; [|reflexivity].
  unfold isPlanHeadStep.
  rewrite !orb_true_iff, !PlanStepCommitment_eqb_eq.
  destruct timeNow as [n|]; simpl; intuition congruence.
Qed.

(** C10. The plan head is chosen by the commitment alone: two steps with the
    same commitment are on the same side, whatever their times; so a step
    whose start only is committed is in the relaxed plan even when it lies
    wholly before [now]. *)
Theorem isPlanHeadStep_by_commitment :
  forall (step1 step2 : PlanStep) (timeNow : option JS.number),
    (commitment step1 = commitment step2 ->
     isPlanHeadStep step1 timeNow = isPlanHeadStep step2 timeNow) /\
    (forall n, timeNow = Some n -> commitment step1 = StartsInRelaxedPlan ->
       (getEndTime step1 <? n) = true -> isPlanHeadStep step1 timeNow = false).
Proof.
  intros step1 step2 timeNow. unfold isPlanHeadStep. split.
  - intros ->. reflexivity.
  - intros n -> -> _. reflexivity.
Qed.

Lemma isPlanHeadStep_by_commitment_witness :
  isPlanHeadStep Demo.startedStep (Some 5)
    = isPlanHeadStep (Demo.step None None 100 StartsInRelaxedPlan) (Some 5) /\
  isPlanHeadStep Demo.startedStep (Some 9) = false.
Proof.
  split.
  - exact (proj1 (isPlanHeadStep_by_commitment Demo.startedStep
                    (Demo.step None None 100 StartsInRelaxedPlan) (Some 5)) eq_refl).
  - exact (proj2 (isPlanHeadStep_by_commitment Demo.startedStep Demo.startedStep (Some 9))
             9 eq_refl eq_refl eq_refl).
Defined.

(** ** Time to pixels *)

(** C3, as the code has it.  [toViewCoordinates] is the quotient of the time
    (0 when undefined) by the makespan, times the display width, with no
    test of the makespan: when the makespan is 0 the result is an infinity
    or NaN, and never 0. *)
Theorem toViewCoordinates_zero_makespan :
  forall (options : PlanViewOptions) (time : option JS.number) (plan : Plan),
    toViewCoordinates options time plan
      = JS.nullish time 0 / makespan plan * displayWidth options /\
    ((makespan plan =? 0) = true ->
     is_finite (toViewCoordinates options time plan) = false /\
     (toViewCoordinates options time plan =? 0) = false).
Proof.
  intros options time plan. split; [reflexivity|].
  intros Hz. unfold toViewCoordinates.
  assert (H : is_finite (JS.nullish time 0 / makespan plan * displayWidth options) = false)
    by now apply FloatFacts.div_zero_mul_not_finite.
  split; [exact H | now apply FloatFacts.not_finite_not_zero].
Qed.

Lemma toViewCoordinates_zero_makespan_witness :
  is_finite (toViewCoordinates Demo.options (Some 1) Demo.instantPlan) = false /\
  (toViewCoordinates Demo.options (Some 1) Demo.instantPlan =? 0) = false.
Proof.
  exact (proj2 (toViewCoordinates_zero_makespan Demo.options (Some 1) Demo.instantPlan)
           eq_refl).
Defined.

(** C3 fails on a plan whose makespan is 0: an undefined time, and the time
    0, are mapped to NaN, and the time 1 to infinity. *)
Lemma toViewCoordinates_zero_makespan_nan :
  (makespan Demo.instantPlan =? 0) = true /\
  toViewCoordinates Demo.options None Demo.instantPlan = nan /\
  toViewCoordinates Demo.options (Some 0) Demo.instantPlan = nan /\
  toViewCoordinates Demo.options (Some 1) Demo.instantPlan = infinity /\
  (toViewCoordinates Demo.options None Demo.instantPlan =? 0) = false.
Proof. repeat split. Qed.

(** C6, as the code has it.  [computeWidth] is [Math.max] of 1 and the
    committed duration in pixels: at least 1 when that number of pixels is
    not NaN, and NaN when it is.  It is not NaN, and the width is at least 1,
    for every committed duration but NaN when the makespan of the plan and
    the display width are positive and finite. *)
Theorem computeWidth_at_least_one :
  forall (options : PlanViewOptions) (planHeadDuration : JS.number) (plan : Plan),
    let pixels := toViewCoordinates options (Some planHeadDuration) plan in
    computeWidth options planHeadDuration plan = JS.Math_max 1 pixels /\
    (is_nan pixels = false -> (1 <=? computeWidth options planHeadDuration plan) = true) /\
    (is_nan pixels = true -> computeWidth options planHeadDuration plan = nan) /\
    ((0 <? makespan plan) = true -> is_finite (makespan plan) = true ->
     (0 <? displayWidth options) = true -> is_finite (displayWidth options) = true ->
     is_nan planHeadDuration = false ->
     (1 <=? computeWidth options planHeadDuration plan) = true).
Proof.
  intros options planHeadDuration plan pixels. subst pixels.
  unfold computeWidth. repeat split.
  - apply FloatFacts.Math_max_one_ge.
  - apply FloatFacts.Math_max_nan_r.
  - intros Hm Hmfin Hw Hwfin Hd. apply FloatFacts.Math_max_one_ge.
    unfold toViewCoordinates. now apply FloatOrder.div_mul_not_nan.
Qed.

Lemma computeWidth_at_least_one_witness :
  (1 <=? computeWidth Demo.options 0 Demo.committedPlan) = true /\
  computeWidth Demo.options 0 Demo.instantPlan = nan /\
  (1 <=? computeWidth Demo.options 3 Demo.committedPlan) = true.
Proof.
  pose proof (computeWidth_at_least_one Demo.options 0 Demo.committedPlan)
    as (_ & Hge & _ & _).
  pose proof (computeWidth_at_least_one Demo.options 0 Demo.instantPlan)
    as (_ & _ & Hnan & _).
  pose proof (computeWidth_at_least_one Demo.options 3 Demo.committedPlan)
    as (_ & _ & _ & Hplan).
  exact (conj (Hge eq_refl)
           (conj (Hnan eq_refl) (Hplan eq_refl eq_refl eq_refl eq_refl eq_refl))).
Defined.

(** C6 fails on a plan whose makespan is 0, for the committed duration 0:
    the width is NaN, which is not at least 1. *)
Lemma computeWidth_nan :
  is_finite 0 = true /\ (0 <=? 0) = true /\
  computeWidth Demo.options 0 Demo.instantPlan = nan /\
  (1 <=? computeWidth Demo.options 0 Demo.instantPlan) = false.
Proof. repeat split. Qed.

(** C8, as the code has it.  For a plan whose makespan is positive and finite
    and a display width that is positive and finite, [toViewCoordinates] does
    not decrease when the time grows (an undefined time counting for 0), and
    it maps the time 0 to 0. *)
Theorem toViewCoordinates_monotone :
  forall (options : PlanViewOptions) (plan : Plan),
    (0 <? makespan plan) = true -> is_finite (makespan plan) = true ->
    (0 <? displayWidth options) = true -> is_finite (displayWidth options) = true ->
    (forall time1 time2 : option JS.number,
        (JS.nullish time1 0 <=? JS.nullish time2 0) = true ->
        (toViewCoordinates options time1 plan
           <=? toViewCoordinates options time2 plan) = true) /\
    (toViewCoordinates options (Some 0) plan =? 0) = true.
Proof.
  intros options plan Hm Hmfin Hw Hwfin. unfold toViewCoordinates. split.
  - intros time1 time2 Hle.
    apply FloatOrder.mul_monotone; [assumption | assumption |].
    now apply FloatOrder.div_monotone.
  - destruct (FloatOrder.positive_finite_spec _ Hm Hmfin) as (mm & em & Em).
    apply FloatFacts.zero_div_mul; try assumption; try reflexivity.
    + rewrite FloatFacts.is_zero_spec, Em. reflexivity.
    + rewrite FloatFacts.is_nan_spec, Em. reflexivity.
Qed.

Lemma toViewCoordinates_monotone_witness :
  (toViewCoordinates Demo.options (Some 1) Demo.committedPlan
     <=? toViewCoordinates Demo.options (Some 4) Demo.committedPlan) = true /\
  (toViewCoordinates Demo.options (Some 0) Demo.committedPlan =? 0) = true.
Proof.
  destruct (toViewCoordinates_monotone Demo.options Demo.committedPlan
              eq_refl eq_refl eq_refl eq_refl) as [Hmono Hzero].
  split; [exact (Hmono (Some 1) (Some 4) eq_refl) | exact Hzero].
Defined.

(** C8 fails on a plan whose makespan is 0: the time 0 is mapped to NaN,
    not to 0, and NaN is not below the infinity that the time 1 is mapped to. *)
Lemma toViewCoordinates_not_monotone :
  (0 <=? 1) = true /\
  (toViewCoordinates Demo.options (Some 0) Demo.instantPlan =? 0) = false /\
  (toViewCoordinates Demo.options (Some 0) Demo.instantPlan
     <=? toViewCoordinates Demo.options (Some 1) Demo.instantPlan) = false.
Proof. repeat split. Qed.

(** With a negative display width the mapping decreases. *)
Lemma toViewCoordinates_decreasing :
  let options := mkPlanViewOptions 0.001 (-300) None None in
  (0 <=? 1) = true /\
  toViewCoordinates options (Some 0) Demo.committedPlan = (-0) /\
  toViewCoordinates options (Some 1) Demo.committedPlan = (-30) /\
  (toViewCoordinates options (Some 0) Demo.committedPlan
     <=? toViewCoordinates options (Some 1) Demo.committedPlan) = false.
Proof. repeat split. Qed.

(** ** The colour of a bar *)

Lemma findIndexFrom_none {A : Type} (p : A -> bool) (xs : list A) (k : Z) :
  (forall a, In a xs -> p a = false) -> JS.findIndexFrom p xs k = (-1)%Z.
Proof.
  revert k. induction xs as [|x xs IH]; intros k H; simpl; [reflexivity|].
  rewrite (H x) by now left. apply IH. intros a Ha. apply H. now right.
Qed.

Lemma findIndexFrom_first {A : Type} (p : A -> bool) (xs : list A) (i : nat) (k : Z) :
  (exists a, nth_error xs i = Some a /\ p a = true) ->
  (forall j b, (j < i)%nat -> nth_error xs j = Some b -> p b = false) ->
  JS.findIndexFrom p xs k = (k + Z.of_nat i)%Z.
Proof.
  revert i k. induction xs as [|x xs IH]; intros i k (a & Ha & Hp) Hfirst.
  - destruct i; discriminate.
  - destruct i as [|i]; simpl in *.
    + injection Ha as ->. rewrite Hp. lia.
    + rewrite (Hfirst 0%nat x) by (reflexivity || lia).
      rewrite (IH i (k + 1)%Z); [lia | now exists a |].
      intros j b Hj Hb. apply (Hfirst (S j) b); [lia | exact Hb].
Qed.

Lemma colors_length : List.length colors = 24%nat.
Proof. reflexivity. Qed.

Lemma colorAt_spread (i : nat) :
  colorAt (JS.rem (Z.of_nat i * 7) (Z.of_nat (List.length colors)))
    = nth_error colors ((i * 7) mod 24).
Proof.
  rewrite colors_length. unfold colorAt, JS.rem.
  rewrite Z.rem_mod_nonneg by lia.
  replace (Z.of_nat i * 7 mod Z.of_nat 24)%Z with (Z.of_nat ((i * 7) mod 24))
    by (rewrite Nat2Z.inj_mod; f_equal; lia).
  destruct (Z.ltb_spec (Z.of_nat ((i * 7) mod 24)) 0); [lia|].
  now rewrite Nat2Z.id.
Qed.

Lemma colors_defined (k : nat) : (k < 24)%nat -> exists c, nth_error colors k = Some c.
Proof.
  intros H. destruct (nth_error colors k) as [c|] eqn:E; [now exists c|].
  apply nth_error_None in E. rewrite colors_length in E. lia.
Qed.


Lemma firstMatchAt_logistics :
  firstMatchAt Demo.toLowerCase Demo.committedStep (getActions Demo.logistics) 1.
Proof.
  split.
  - now exists (mkAction "MOVE").
  - intros j b Hj Hb. destruct j as [|j]; [|lia].
    injection Hb as <-. reflexivity.
Defined.


(** ** Finding and changing an element of the document *)

Section DomFacts.

Variable cls : string.
Variable f : Node -> Node.
Hypothesis f_keeps_class :
  forall g, Dom.hasClass cls g = true -> Dom.hasClass cls (f g) = true.

Lemma Node_forall_ind (P : Node -> Prop) :
  (forall data, P (TextNode data)) ->
  (forall tag className props kids,
      Forall P kids -> P (Element tag className props kids)) ->
  forall n, P n.
Proof.
  intros Htext Helem. fix IH 1. intros [data | tag className props kids].
  - apply Htext.
  - apply Helem. induction kids as [|k kids IHkids]; constructor.
    + apply IH.
    + exact IHkids.
Qed.

(** The two searches, on the children of an element. *)
Lemma querySelector_cons tag className props k rest :
  Dom.querySelector (Dom.hasClass cls) (Element tag className props (k :: rest)) =
    if Dom.hasClass cls k then Some k
    else match Dom.querySelector (Dom.hasClass cls) k with
         | Some found => Some found
         | None => Dom.querySelector (Dom.hasClass cls) (Element tag className props rest)
         end.
Proof. reflexivity. Qed.

Lemma updateSelected_cons tag className props k rest :
  Dom.updateSelected (Dom.hasClass cls) f (Element tag className props (k :: rest)) =
    if Dom.hasClass cls k then Some (Element tag className props (f k :: rest))
    else match Dom.updateSelected (Dom.hasClass cls) f k with
         | Some k' => Some (Element tag className props (k' :: rest))
         | None =>
             option_map (fun n => Element tag className props (k :: Dom.childrenOf n))
               (Dom.updateSelected (Dom.hasClass cls) f (Element tag className props rest))
         end.
Proof.
  simpl. destruct (Dom.hasClass cls k); [reflexivity|].
  destruct (Dom.updateSelected (Dom.hasClass cls) f k); [reflexivity|].
  match goal with |- context [option_map (cons k) ?x] => destruct x end; reflexivity.
Qed.

Lemma updateSelected_shape n n' :
  Dom.updateSelected (Dom.hasClass cls) f n = Some n' ->
  exists tag className props kids kids',
    n = Element tag className props kids /\ n' = Element tag className props kids'.
Proof.
  destruct n as [data | tag className props kids]; simpl; [discriminate|].
  match goal with |- context [option_map _ ?x] => destruct x as [kids'|] end;
    simpl; [|discriminate].
  intros [= <-]. now exists tag, className, props, kids, kids'.
Qed.

Lemma updateSelected_keeps_class c n n' :
  Dom.updateSelected (Dom.hasClass cls) f n = Some n' ->
  Dom.hasClass c n' = Dom.hasClass c n.
Proof.
  intros H. destruct (updateSelected_shape _ _ H) as (t & k & p & l & l' & -> & ->).
  reflexivity.
Qed.

(** [updateSelected] changes the element that [querySelector] finds, and that
    element is the one found afterwards. *)
Lemma updateSelected_querySelector n :
  match Dom.querySelector (Dom.hasClass cls) n with
  | None => Dom.updateSelected (Dom.hasClass cls) f n = None
  | Some g =>
      Dom.hasClass cls g = true /\
      exists n', Dom.updateSelected (Dom.hasClass cls) f n = Some n' /\
                 Dom.querySelector (Dom.hasClass cls) n' = Some (f g)
  end.
Proof.
  induction n as [data | tag className props kids IH] using Node_forall_ind;
    [reflexivity|].
  induction IH as [|k rest Hk _ IHrest]; [reflexivity|].
  rewrite querySelector_cons, updateSelected_cons.
  destruct (Dom.hasClass cls k) eqn:Hsel.
  - split; [exact Hsel|]. eexists. split; [reflexivity|].
    rewrite querySelector_cons, (f_keeps_class k Hsel). reflexivity.
  - destruct (Dom.querySelector (Dom.hasClass cls) k) as [g|] eqn:Hqk.
    + destruct Hk as (Hg & k' & Hupd & Hq). split; [exact Hg|].
      rewrite Hupd. eexists. split; [reflexivity|].
      rewrite querySelector_cons, (updateSelected_keeps_class cls k k' Hupd), Hsel, Hq.
      reflexivity.
    + rewrite Hk.
      destruct (Dom.querySelector (Dom.hasClass cls) (Element tag className props rest))
        as [g|].
      * destruct IHrest as (Hg & n' & Hupd & Hq). split; [exact Hg|].
        rewrite Hupd. simpl option_map. eexists. split; [reflexivity|].
        destruct (updateSelected_shape _ _ Hupd) as (t & c & p & l & l' & E & ->).
        injection E as <- <- <- <-. simpl Dom.childrenOf.
        rewrite querySelector_cons, Hsel, Hqk. exact Hq.
      * rewrite IHrest. reflexivity.
Qed.

(** A new last child that matches is found when nothing else matches. *)
Lemma querySelector_appendChild tag className props kids child :
  Dom.querySelector (Dom.hasClass cls) (Element tag className props kids) = None ->
  Dom.hasClass cls child = true ->
  Dom.querySelector (Dom.hasClass cls)
    (Dom.appendChild (Element tag className props kids) child) = Some child.
Proof.
  intros Hnone Hchild. unfold Dom.appendChild.
  induction kids as [|k rest IH].
  - simpl app. rewrite querySelector_cons, Hchild. reflexivity.
  - rewrite querySelector_cons in Hnone. simpl app. rewrite querySelector_cons.
    destruct (Dom.hasClass cls k); [discriminate|].
    destruct (Dom.querySelector (Dom.hasClass cls) k); [discriminate|].
    now apply IH.
Qed.

End DomFacts.

Lemma appendsTo_id : appendsTo (fun g => g) [].
Proof. intros tag className props kids. now rewrite app_nil_r. Qed.

Lemma appendsTo_appendChild child : appendsTo (fun g => Dom.appendChild g child) [child].
Proof. intros tag className props kids. reflexivity. Qed.

Lemma appendsTo_compose F G added1 added2 :
  appendsTo F added1 -> appendsTo G added2 ->
  appendsTo (fun g => G (F g)) (added1 ++ added2).
Proof.
  intros HF HG tag className props kids. now rewrite HF, HG, app_assoc.
Qed.

Lemma appendsTo_ext F G added :
  (forall g, F g = G g) -> appendsTo F added -> appendsTo G added.
Proof.
  intros E HF tag className props kids. now rewrite <- E.
Qed.

Lemma appendsTo_forEachIndexed {A : Type} (step : Node -> A -> nat -> Node) (xs : list A) :
  (forall x i, exists added, appendsTo (fun g => step g x i) added) ->
  forall i, exists added, appendsTo (fun g => Dom.forEachIndexed step xs i g) added.
Proof.
  intros Hstep. induction xs as [|x rest IH]; intros i; simpl.
  - exists []. apply appendsTo_id.
  - destruct (Hstep x i) as (added1 & H1), (IH (S i)) as (added2 & H2).
    exists (added1 ++ added2).
    exact (appendsTo_compose _ _ _ _ H1 H2).
Qed.

Lemma lookup_assign_same key v props :
  Dom.lookup key (Dom.assign key v props) = Some v.
Proof.
  induction props as [|[k old] rest IH]; simpl.
  - now rewrite String.eqb_refl.
  - destruct (String.eqb k key) eqn:E; simpl; now rewrite E.
Qed.

Lemma lookup_assign_other key key' v props :
  String.eqb key' key = false ->
  Dom.lookup key (Dom.assign key' v props) = Dom.lookup key props.
Proof.
  intros Hneq. induction props as [|[k old] rest IH]; simpl.
  - now rewrite Hneq.
  - destruct (String.eqb k key') eqn:E; simpl.
    + apply String.eqb_eq in E. subst k. now rewrite Hneq.
    + now rewrite IH.
Qed.

(** The top of a row and the height of a chart are lengths of CSS. *)
Lemma validLength_row property i :
  Dom.validLength property (px (JS.ofNat i * planStepHeight)) = true.
Proof.
  unfold Dom.validLength, px, Dom.lengthOf. cbn [String.eqb Ascii.eqb Bool.eqb].
  destruct (SumOrder.ofNat_mul_valid i) as [-> ->]. now rewrite orb_true_r.
Qed.

Section ShowPlanFacts.

Variable options : PlanViewOptions.
Variable toLowerCase : string -> string.
Variable capitalize : Plan -> Plan.

Lemma renderGanttStep_appends step index plan :
  exists added, appendsTo (fun g => renderGanttStep options toLowerCase g step index plan) added.
Proof.
  unfold renderGanttStep. eexists. apply appendsTo_appendChild.
Qed.

Lemma renderHelpfulAction_appends index helpfulAction :
  exists added, appendsTo (fun g => renderHelpfulAction g index helpfulAction) added.
Proof.
  unfold renderHelpfulAction. eexists.
  exact (appendsTo_compose _ _ _ _ (appendsTo_appendChild _) (appendsTo_appendChild _)).
Qed.

Lemma renderHelpfulActions_appends plan planHeadLength :
  exists added, appendsTo (fun g => renderHelpfulActions options g plan planHeadLength) added.
Proof.
  unfold renderHelpfulActions. destruct (hasHelpfulActions plan).
  - destruct (helpfulActions plan) as [actions|].
    + destruct (appendsTo_forEachIndexed
                  (fun div helpfulAction index => renderHelpfulAction div index helpfulAction)
                  actions (fun x i => renderHelpfulAction_appends i x) 0%nat) as (added & H).
      eexists.
      exact (appendsTo_compose _ _ _ _ H (appendsTo_appendChild _)).
    + eexists. apply appendsTo_appendChild.
  - exists []. apply appendsTo_id.
Qed.

(** [showGantt] sets the plan attribute and the height of the container it is
    given and adds elements after the children the container has; the
    elements do not depend on the container. *)
Lemma showGantt_shape plan stepsToDisplay planIndex :
  exists height added, forall tag className props kids,
    showGantt options toLowerCase (Element tag className props kids) plan stepsToDisplay planIndex =
      Element tag className
        (Dom.assign "style.height" (PText (px height))
           (Dom.assign "attribute.plan" (PText [Num planIndex]) props))
        (kids ++ added).
Proof.
  unfold showGantt.
  set (planHeadSteps := filter (fun step => isPlanHeadStep step (now plan)) stepsToDisplay).
  set (relaxedPlanSteps :=
         filter (fun step => negb (isPlanHeadStep step (now plan))) stepsToDisplay).
  set (one := if hasHelpfulActions plan then 1%nat else 0%nat).
  destruct (appendsTo_forEachIndexed
              (fun div step stepIndex =>
                 renderGanttStep options toLowerCase div step stepIndex plan)
              planHeadSteps
              (fun x i => renderGanttStep_appends x i plan) 0%nat) as (added1 & H1).
  destruct (renderHelpfulActions_appends plan (List.length planHeadSteps))
    as (added2 & H2).
  destruct (appendsTo_forEachIndexed
              (fun div step stepIndex =>
                 renderGanttStep options toLowerCase div step
                   (stepIndex + (List.length planHeadSteps + one)) plan)
              relaxedPlanSteps
              (fun x i => renderGanttStep_appends x _ plan) 0%nat) as (added3 & H3).
  eexists. exists (added1 ++ added2 ++ added3).
  intros tag className props kids. cbn [Dom.setText Dom.setProp Dom.setStyle].
  rewrite validLength_row, H1, H2, H3, <- !app_assoc. reflexivity.
Qed.

Lemma showGantt_keeps_class cls plan stepsToDisplay planIndex g :
  Dom.hasClass cls g = true ->
  Dom.hasClass cls (showGantt options toLowerCase g plan stepsToDisplay planIndex) = true.
Proof.
  destruct g as [data | tag className props kids]; [discriminate|].
  destruct (showGantt_shape plan stepsToDisplay planIndex) as (height & added & H).
  now rewrite H.
Qed.

(** After [showPlan] the host has a [.gantt] element: [showGantt] applied to
    the one the host had, or to a new one. *)
Lemma showPlan_selected plan planIndex settings host :
  isElement host = true ->
  exists ganttDiv,
    Dom.hasClass "gantt" ganttDiv = true /\
    (Dom.querySelector (Dom.hasClass "gantt") host = Some ganttDiv \/
     Dom.querySelector (Dom.hasClass "gantt") host = None /\ ganttDiv = newGanttDiv) /\
    isElement (showPlan options toLowerCase capitalize plan planIndex settings host) = true /\
    Dom.querySelector (Dom.hasClass "gantt")
      (showPlan options toLowerCase capitalize plan planIndex settings host) =
      Some (showGantt options toLowerCase ganttDiv (capitalize plan)
              (filter (fun step => shouldDisplay step settings) (steps (capitalize plan)))
              planIndex).
Proof.
  intros Helem. unfold showPlan.
  set (plan' := capitalize plan).
  set (stepsToDisplay := filter (fun step => shouldDisplay step settings) (steps plan')).
  set (F := fun ganttDiv => showGantt options toLowerCase ganttDiv plan' stepsToDisplay planIndex).
  assert (HF : forall g, Dom.hasClass "gantt" g = true -> Dom.hasClass "gantt" (F g) = true)
    by (intros g; apply showGantt_keeps_class).
  assert (Hfound : forall h g,
            Dom.querySelector (Dom.hasClass "gantt") h = Some g ->
            Dom.hasClass "gantt" g = true /\
            isElement (match Dom.updateSelected (Dom.hasClass "gantt") F h with
                       | Some host' => host'
                       | None => h
                       end) = true /\
            Dom.querySelector (Dom.hasClass "gantt")
              (match Dom.updateSelected (Dom.hasClass "gantt") F h with
               | Some host' => host'
               | None => h
               end) = Some (F g)).
  { intros h g Hq.
    pose proof (updateSelected_querySelector "gantt" F HF h) as H.
    rewrite Hq in H. destruct H as (Hg & h' & Hupd & Hq').
    rewrite Hupd. repeat split; try assumption.
    destruct (updateSelected_shape _ _ _ _ Hupd) as (t & c & p & l & l' & _ & ->).
    reflexivity. }
  destruct (Dom.querySelector (Dom.hasClass "gantt") host) as [g|] eqn:Hq.
  - destruct (Hfound host g Hq) as (Hg & He & Hq').
    exists g. repeat split; try assumption. now left.
  - destruct host as [data | tag className props kids]; [discriminate|].
    assert (Hnew : Dom.querySelector (Dom.hasClass "gantt")
                     (createSubElement (Element tag className props kids) "gantt")
                   = Some newGanttDiv)
      by now apply querySelector_appendChild.
    destruct (Hfound _ _ Hnew) as (Hg & He & Hq').
    exists newGanttDiv. repeat split; try assumption. now right.
Qed.

End ShowPlanFacts.



(** ** The chart within the display *)

Section PixelFacts.

Variable options : PlanViewOptions.
Variable plan : Plan.
Hypothesis makespan_positive : (0 <? makespan plan) = true.
Hypothesis makespan_finite : is_finite (makespan plan) = true.
Hypothesis displayWidth_positive : (0 <? displayWidth options) = true.
Hypothesis displayWidth_finite : is_finite (displayWidth options) = true.

Lemma toViewCoordinates_leb time1 time2 :
  (JS.nullish time1 0 <=? JS.nullish time2 0) = true ->
  (toViewCoordinates options time1 plan <=? toViewCoordinates options time2 plan) = true.
Proof.
  intros Hle. unfold toViewCoordinates.
  apply FloatOrder.mul_monotone; [assumption | assumption |].
  now apply FloatOrder.div_monotone.
Qed.

Lemma toViewCoordinates_zero :
  (toViewCoordinates options (Some 0) plan =? 0) = true.
Proof.
  destruct (FloatOrder.positive_finite_spec _ makespan_positive makespan_finite)
    as (mm & em & Em).
  unfold toViewCoordinates.
  apply FloatFacts.zero_div_mul; try assumption; try reflexivity.
  - rewrite FloatFacts.is_zero_spec, Em. reflexivity.
  - rewrite FloatFacts.is_nan_spec, Em. reflexivity.
Qed.

Lemma toViewCoordinates_end :
  toViewCoordinates options (Some (makespan plan)) plan = displayWidth options.
Proof.
  unfold toViewCoordinates. cbn [JS.nullish].
  rewrite FloatValue.div_self by assumption.
  now apply FloatValue.mul_one_l.
Qed.

End PixelFacts.

(** X1. For a plan whose makespan is positive and finite and a display width
    that is positive and finite, [toViewCoordinates] maps the makespan to the
    display width, exactly: the end of the plan is the right edge of the
    display. *)
Theorem toViewCoordinates_makespan :
  forall (options : PlanViewOptions) (plan : Plan),
    (0 <? makespan plan) = true -> is_finite (makespan plan) = true ->
    (0 <? displayWidth options) = true -> is_finite (displayWidth options) = true ->
    toViewCoordinates options (Some (makespan plan)) plan = displayWidth options.
Proof.
  intros options plan Hm Hmfin Hw Hwfin. now apply toViewCoordinates_end.
Qed.

Lemma toViewCoordinates_makespan_witness :
  toViewCoordinates Demo.options (Some 10) Demo.committedPlan = 300.
Proof.
  exact (toViewCoordinates_makespan Demo.options Demo.committedPlan
           eq_refl eq_refl eq_refl eq_refl).
Defined.

(** X2. For such a plan and display, a step that starts within the plan,
    between 0 and the makespan (a step without start time counting as
    starting at 0), has its left offset within the display, between 0 and
    the display width. *)
Theorem computeLeftOffset_in_display :
  forall (options : PlanViewOptions) (step : PlanStep) (plan : Plan),
    (0 <? makespan plan) = true -> is_finite (makespan plan) = true ->
    (0 <? displayWidth options) = true -> is_finite (displayWidth options) = true ->
    (0 <=? JS.nullish (getStartTime step) 0) = true ->
    (JS.nullish (getStartTime step) 0 <=? makespan plan) = true ->
    (0 <=? computeLeftOffset options step plan) = true /\
    (computeLeftOffset options step plan <=? displayWidth options) = true.
Proof.
  intros options step plan Hm Hmfin Hw Hwfin Hlow Hhigh. unfold computeLeftOffset. split.
  - apply (FloatValue.leb_trans _ (toViewCoordinates options (Some 0) plan)).
    + now apply FloatValue.eqb_zero_nonneg, toViewCoordinates_zero.
    + now apply toViewCoordinates_leb.
  - rewrite <- (toViewCoordinates_end options plan Hm Hmfin Hw Hwfin).
    now apply toViewCoordinates_leb.
Qed.

Lemma computeLeftOffset_in_display_witness :
  (0 <=? computeLeftOffset Demo.options Demo.committedStep Demo.committedPlan) = true /\
  (computeLeftOffset Demo.options Demo.committedStep Demo.committedPlan <=? 300) = true.
Proof.
  exact (computeLeftOffset_in_display Demo.options Demo.committedStep Demo.committedPlan
           eq_refl eq_refl eq_refl eq_refl eq_refl eq_refl).
Defined.

(** X3. For such a plan and display, [computeWidth] does not decrease when
    the committed duration grows, and it is never below the committed
    duration in pixels: the floor of 1 pixel only widens a bar. *)
Theorem computeWidth_monotone :
  forall (options : PlanViewOptions) (plan : Plan) (duration1 duration2 : JS.number),
    (0 <? makespan plan) = true -> is_finite (makespan plan) = true ->
    (0 <? displayWidth options) = true -> is_finite (displayWidth options) = true ->
    (duration1 <=? duration2) = true ->
    (computeWidth options duration1 plan <=? computeWidth options duration2 plan) = true /\
    (toViewCoordinates options (Some duration2) plan
       <=? computeWidth options duration2 plan) = true.
Proof.
  intros options plan duration1 duration2 Hm Hmfin Hw Hwfin Hle. unfold computeWidth. split.
  - apply FloatValue.Math_max_one_monotone.
    now apply (toViewCoordinates_leb options plan Hm Hmfin Hw Hwfin
                 (Some duration1) (Some duration2)).
  - apply FloatValue.Math_max_one_ge_arg. unfold toViewCoordinates.
    apply FloatOrder.div_mul_not_nan; try assumption.
    apply (FloatFacts.leb_not_nan_r _ _ Hle).
Qed.

Lemma computeWidth_monotone_witness :
  (computeWidth Demo.options 1 Demo.committedPlan
     <=? computeWidth Demo.options 3 Demo.committedPlan) = true /\
  (toViewCoordinates Demo.options (Some 3) Demo.committedPlan
     <=? computeWidth Demo.options 3 Demo.committedPlan) = true.
Proof.
  exact (computeWidth_monotone Demo.options Demo.committedPlan 1 3
           eq_refl eq_refl eq_refl eq_refl eq_refl).
Defined.

(** ** The two bars of a step *)

Lemma computePlanHeadDuration_none options step plan :
  JS.isUndefined (now plan) = false ->
  PlanStepCommitment_eqb (commitment step) Committed = false ->
  elapsedPartOnly step plan = false ->
  computePlanHeadDuration options step plan = 0.
Proof.
  unfold elapsedPartOnly, computePlanHeadDuration.
  destruct (now plan) as [n|]; [|discriminate]. intros _ Hc. rewrite Hc.
  destruct (getEndTime step <? n); [reflexivity|].
  destruct (JS.geb _ n); [reflexivity|].
  destruct (commitment step); simpl; intros H; try discriminate; reflexivity.
Qed.

(** X4. The committed duration is not negative, for a step whose whole
    duration (epsilon when the step has none) is not negative and whose
    start time is a number, in a plan whose [now], when defined, is finite. *)
Theorem computePlanHeadDuration_nonneg :
  forall (options : PlanViewOptions) (step : PlanStep) (plan : Plan),
    (0 <=? wholeDuration options step) = true ->
    is_finite (JS.nullish (now plan) 0) = true ->
    is_nan (JS.toNumber (getStartTime step)) = false ->
    (0 <=? computePlanHeadDuration options step plan) = true.
Proof.
  intros options step plan Hwhole Hnow Hstart.
  destruct (elapsedPartOnly step plan) eqn:Hpart.
  - unfold elapsedPartOnly in Hpart. unfold computePlanHeadDuration.
    destruct (now plan) as [n|]; [|discriminate]. cbn [JS.nullish] in Hnow.
    destruct (getEndTime step <? n); [discriminate|].
    destruct (JS.geb (JS.toNumber (getStartTime step)) n) eqn:Hgeb; [discriminate|].
    destruct (commitment step); try discriminate.
    apply FloatOrder.sub_nonneg; [exact Hnow|].
    apply FloatValue.geb_false_leb; try assumption.
    now apply FloatFacts.is_finite_not_nan.
  - destruct (computePlanHeadDuration_cases options step plan Hpart) as [-> | ->].
    + reflexivity.
    + exact Hwhole.
Qed.

Lemma computePlanHeadDuration_nonneg_witness :
  (0 <=? computePlanHeadDuration Demo.options Demo.startedStep Demo.startedPlan) = true.
Proof.
  exact (computePlanHeadDuration_nonneg Demo.options Demo.startedStep Demo.startedPlan
           eq_refl eq_refl eq_refl).
Defined.

(** X5. In a plan with [now] defined, a step that is not [Committed], and is
    not one of which the elapsed part is committed, has nothing committed:
    its committed bar is drawn with the least width, 1 pixel, and its relaxed
    bar with the width of its whole duration.  The makespan is any number
    but 0 and NaN, and the display width is finite. *)
Theorem uncommitted_step_bars :
  forall (options : PlanViewOptions) (step : PlanStep) (plan : Plan),
    let committed := computePlanHeadDuration options step plan in
    JS.isUndefined (now plan) = false ->
    PlanStepCommitment_eqb (commitment step) Committed = false ->
    elapsedPartOnly step plan = false ->
    is_zero (makespan plan) = false -> is_nan (makespan plan) = false ->
    is_finite (displayWidth options) = true ->
    computeWidth options committed plan = 1 /\
    computeRelaxedWidth options committed step plan
      = toViewCoordinates options (Some (wholeDuration options step)) plan.
Proof.
  intros options step plan committed Hnow Hc Hpart Hz Hn Hw. subst committed.
  rewrite (computePlanHeadDuration_none options step plan Hnow Hc Hpart). split.
  - unfold computeWidth. apply FloatValue.Math_max_one_zero.
    unfold toViewCoordinates. now apply FloatFacts.zero_div_mul.
  - unfold computeRelaxedWidth, relaxedDuration, wholeDuration.
    now rewrite FloatValue.sub_zero_r_eq.
Qed.

Lemma uncommitted_step_bars_witness :
  computeWidth Demo.options
    (computePlanHeadDuration Demo.options Demo.pendingStep Demo.pendingPlan)
    Demo.pendingPlan = 1 /\
  computeRelaxedWidth Demo.options
    (computePlanHeadDuration Demo.options Demo.pendingStep Demo.pendingPlan)
    Demo.pendingStep Demo.pendingPlan
    = toViewCoordinates Demo.options (Some 3) Demo.pendingPlan.
Proof.
  exact (uncommitted_step_bars Demo.options Demo.pendingStep Demo.pendingPlan
           eq_refl eq_refl eq_refl eq_refl eq_refl eq_refl).
Defined.

(** X6. In a plan without [now], the whole duration of every step is
    committed, and the relaxed bar of the step has width 0, when that
    duration is finite.  The makespan is any number but 0 and NaN, and the
    display width is finite. *)
Theorem static_plan_bars :
  forall (options : PlanViewOptions) (step : PlanStep) (plan : Plan),
    let committed := computePlanHeadDuration options step plan in
    now plan = None ->
    is_finite (wholeDuration options step) = true ->
    is_zero (makespan plan) = false -> is_nan (makespan plan) = false ->
    is_finite (displayWidth options) = true ->
    committed = wholeDuration options step /\
    (computeRelaxedWidth options committed step plan =? 0) = true.
Proof.
  intros options step plan committed Hnow Hfin Hz Hn Hw. subst committed.
  assert (E : computePlanHeadDuration options step plan = wholeDuration options step)
    by (unfold computePlanHeadDuration; now rewrite Hnow).
  split; [exact E|]. rewrite E.
  unfold computeRelaxedWidth, relaxedDuration, toViewCoordinates. cbn [JS.nullish].
  fold (wholeDuration options step).
  apply FloatFacts.zero_div_mul; try assumption.
  rewrite FloatFacts.is_zero_spec, (FloatFacts.sub_diag _ Hfin). reflexivity.
Qed.

Lemma static_plan_bars_witness :
  computePlanHeadDuration Demo.options Demo.committedStep Demo.committedPlan = 3 /\
  (computeRelaxedWidth Demo.options
     (computePlanHeadDuration Demo.options Demo.committedStep Demo.committedPlan)
     Demo.committedStep Demo.committedPlan =? 0) = true.
Proof.
  exact (static_plan_bars Demo.options Demo.committedStep Demo.committedPlan
           eq_refl eq_refl eq_refl eq_refl eq_refl).
Defined.

(** ** The palette *)

Lemma colors_NoDup : NoDup colors.
Proof.
  unfold colors.
  repeat (constructor; [simpl; intuition discriminate|]). constructor.
Qed.

Lemma colors_not_gray c : In c colors -> String.eqb c "gray" = false.
Proof.
  unfold colors. simpl. intuition (subst; reflexivity).
Qed.

(** 7 is its own inverse modulo 24. *)
Lemma spread_inverse (i : nat) : ((((i * 7) mod 24) * 7) mod 24 = i mod 24)%nat.
Proof.
  rewrite Nat.Div0.mul_mod_idemp_l.
  replace (i * 7 * 7)%nat with (i + (2 * i) * 24)%nat by lia.
  apply Nat.Div0.mod_add.
Qed.

Lemma getActionColor_first toLowerCase step d i :
  firstMatchAt toLowerCase step (getActions d) i ->
  getActionColor toLowerCase step (Some d) = nth_error colors ((i * 7) mod 24).
Proof.
  intros (Hat & Hfirst). unfold getActionColor, JS.findIndex. simpl.
  rewrite (findIndexFrom_first _ _ i 0%Z Hat Hfirst). simpl (0 + _)%Z.
  destruct (Z.ltb_spec (Z.of_nat i) 0); [lia|].
  apply colorAt_spread.
Qed.

(** Where an action with the name of the step exists, a first one does. *)
Lemma firstMatchAt_exists toLowerCase step actions :
  (exists a, In a actions /\ sameActionName toLowerCase step a = true) ->
  exists i, firstMatchAt toLowerCase step actions i.
Proof.
  induction actions as [|x rest IH]; intros (a & Hin & Ha); [destruct Hin|].
  destruct (sameActionName toLowerCase step x) eqn:Hx.
  - exists 0%nat. split; [now exists x | intros j b Hj; lia].
  - destruct Hin as [-> | Hin]; [congruence|].
    destruct IH as (i & (b & Hb & Hpb) & Hfirst); [now exists a|].
    exists (S i). split; [now exists b|].
    intros [|j] c Hj Hc; simpl in Hc.
    + now injection Hc as <-.
    + apply (Hfirst j c); [lia | exact Hc].
Qed.


Lemma firstMatchAt_drop : firstMatchAt Demo.toLowerCase Demo.dropStep (getActions Demo.logistics) 2.
Proof.
  split.
  - now exists (mkAction "drop").
  - intros [|[|j]] b Hj Hb; try lia; now injection Hb as <-.
Defined.



(** ** The chart that [showGantt] draws *)

(** A length that may be negative is valid when its number is finite. *)
Lemma validLength_signed property x :
  Dom.nonNegativeLength property = false ->
  Dom.validLength property (px x) = is_finite x.
Proof.
  unfold Dom.validLength, px, Dom.lengthOf. cbn [String.eqb Ascii.eqb Bool.eqb].
  intros ->. apply andb_true_r.
Qed.

(** A property of an element after a length has been written to its style. *)
Lemma lookup_styled key property t props :
  Dom.lookup key
    (if Dom.validLength property t then Dom.assign property (PText t) props else props)
  = if String.eqb property key && Dom.validLength property t then Some (PText t)
    else Dom.lookup key props.
Proof.
  destruct (Dom.validLength property t); [|now rewrite andb_false_r].
  rewrite andb_true_r. destruct (String.eqb property key) eqn:E.
  - apply String.eqb_eq in E. subst. apply lookup_assign_same.
  - now apply lookup_assign_other.
Qed.

Ltac dom_compute :=
  unfold Dom.append;
  cbn [hd fold_left app Dom.childrenOf Dom.propsOf Dom.appendChild Dom.createElement
       Dom.createTextNode Dom.setText Dom.setProp Dom.setStyle Dom.setClassName].

Ltac dom_lookup :=
  repeat first
    [ rewrite lookup_assign_other by reflexivity
    | rewrite lookup_styled
    | rewrite validLength_row
    | rewrite validLength_signed by reflexivity
    | progress cbn [String.eqb Ascii.eqb Bool.eqb andb Dom.lookup] ].

Section ChartFacts.

Variable options : PlanViewOptions.
Variable toLowerCase : string -> string.

Lemma renderGanttStep_stepElement g step index plan :
  renderGanttStep options toLowerCase g step index plan
    = Dom.appendChild g (stepElement options toLowerCase step index plan).
Proof. reflexivity. Qed.

Lemma forEachIndexed_steps (f : nat -> nat) plan xs : forall i tag className props kids,
  Dom.forEachIndexed
    (fun div step stepIndex => renderGanttStep options toLowerCase div step (f stepIndex) plan)
    xs i (Element tag className props kids)
  = Element tag className props
      (kids ++ mapIndexed (fun step j => stepElement options toLowerCase step (f j) plan) xs i).
Proof.
  induction xs as [|x xs IH]; intros i tag className props kids;
    cbn [Dom.forEachIndexed mapIndexed].
  - now rewrite app_nil_r.
  - rewrite renderGanttStep_stepElement. cbn [Dom.appendChild].
    rewrite IH, <- app_assoc. reflexivity.
Qed.

Lemma renderHelpfulAction_nodes tag className props kids index helpfulAction :
  renderHelpfulAction (Element tag className props kids) index helpfulAction
    = Element tag className props (kids ++ helpfulActionNodes index helpfulAction).
Proof.
  unfold renderHelpfulAction, helpfulActionNodes. simpl. now rewrite <- app_assoc.
Qed.

Lemma forEachIndexed_helpful actions : forall i tag className props kids,
  Dom.forEachIndexed
    (fun div helpfulAction index => renderHelpfulAction div index helpfulAction)
    actions i (Element tag className props kids)
  = Element tag className props
      (kids ++ List.concat (mapIndexed (fun a j => helpfulActionNodes j a) actions i)).
Proof.
  induction actions as [|a actions IH]; intros i tag className props kids;
    cbn [Dom.forEachIndexed mapIndexed List.concat].
  - now rewrite app_nil_r.
  - rewrite renderHelpfulAction_nodes, IH, <- app_assoc. reflexivity.
Qed.

Lemma renderHelpfulActions_nodes tag className props kids plan k :
  renderHelpfulActions options (Element tag className props kids) plan k
    = Element tag className props (kids ++ helpfulNodes options plan k).
Proof.
  unfold helpfulNodes, renderHelpfulActions.
  destruct (hasHelpfulActions plan); [|now rewrite app_nil_r].
  destruct (helpfulActions plan) as [actions|].
  - unfold Dom.createElement. rewrite !forEachIndexed_helpful.
    simpl. now rewrite <- app_assoc.
  - reflexivity.
Qed.

(** What [showGantt] makes of a container: the plan attribute and the height
    set, and, after the children it has, the elements of the steps of the
    plan head, the nodes of the helpful actions and the elements of the other
    steps. *)
Lemma showGantt_nodes tag className props kids plan stepsToDisplay planIndex :
  let planHeadSteps :=
    filter (fun step => isPlanHeadStep step (now plan)) stepsToDisplay in
  let relaxedPlanSteps :=
    filter (fun step => negb (isPlanHeadStep step (now plan))) stepsToDisplay in
  let offset :=
    (List.length planHeadSteps + (if hasHelpfulActions plan then 1 else 0))%nat in
  showGantt options toLowerCase (Element tag className props kids) plan stepsToDisplay planIndex
  = Element tag className
      (Dom.assign "style.height"
         (PText (px (JS.ofNat (rowCount plan stepsToDisplay) * planStepHeight)))
         (Dom.assign "attribute.plan" (PText [Num planIndex]) props))
      (kids
       ++ mapIndexed (fun step j => stepElement options toLowerCase step j plan) planHeadSteps 0
       ++ helpfulNodes options plan (List.length planHeadSteps)
       ++ mapIndexed (fun step j => stepElement options toLowerCase step (j + offset) plan)
            relaxedPlanSteps 0).
Proof.
  intros planHeadSteps relaxedPlanSteps offset. unfold showGantt.
  fold planHeadSteps relaxedPlanSteps. cbn [Dom.setText Dom.setProp Dom.setStyle].
  rewrite validLength_row.
  rewrite (forEachIndexed_steps (fun j => j)), renderHelpfulActions_nodes.
  fold offset. rewrite (forEachIndexed_steps (fun j => (j + offset)%nat)).
  rewrite <- !app_assoc. reflexivity.
Qed.

Lemma ganttNodes_eq plan stepsToDisplay planIndex :
  let planHeadSteps :=
    filter (fun step => isPlanHeadStep step (now plan)) stepsToDisplay in
  let relaxedPlanSteps :=
    filter (fun step => negb (isPlanHeadStep step (now plan))) stepsToDisplay in
  let offset :=
    (List.length planHeadSteps + (if hasHelpfulActions plan then 1 else 0))%nat in
  ganttNodes options toLowerCase plan stepsToDisplay planIndex
  = mapIndexed (fun step j => stepElement options toLowerCase step j plan) planHeadSteps 0
    ++ helpfulNodes options plan (List.length planHeadSteps)
    ++ mapIndexed (fun step j => stepElement options toLowerCase step (j + offset) plan)
         relaxedPlanSteps 0.
Proof.
  intros. unfold ganttNodes, newGanttDiv. cbn [Dom.setClassName Dom.createElement].
  rewrite showGantt_nodes. reflexivity.
Qed.

Lemma showGantt_children tag className props kids plan stepsToDisplay planIndex :
  Dom.childrenOf
    (showGantt options toLowerCase (Element tag className props kids) plan stepsToDisplay planIndex)
  = kids ++ ganttNodes options toLowerCase plan stepsToDisplay planIndex.
Proof.
  rewrite ganttNodes_eq, showGantt_nodes. reflexivity.
Qed.

Lemma mapIndexed_length {A B : Type} (f : A -> nat -> B) xs i :
  List.length (mapIndexed f xs i) = List.length xs.
Proof.
  revert i. induction xs as [|x xs IH]; intros i; simpl; [reflexivity|].
  now rewrite IH.
Qed.

Lemma seq_shift_add off r : map (fun j => (j + off)%nat) (seq 0 r) = seq off r.
Proof.
  revert off. induction r as [|r IH]; intros off; [reflexivity|].
  simpl. f_equal. rewrite <- seq_shift, map_map, <- (IH (S off)).
  apply map_ext. intros j. lia.
Qed.

(** *** What is read of a list of nodes *)

Lemma rows_app a b : rows (a ++ b) = rows a ++ rows b.
Proof. unfold rows. now rewrite filter_app, map_app. Qed.

Lemma ids_app a b : ids (a ++ b) = ids a ++ ids b.
Proof.
  induction a as [|n a IH]; simpl; [reflexivity|].
  destruct (idOf n); simpl; now rewrite IH.
Qed.

Lemma selections_app a b : selections (a ++ b) = selections a ++ selections b.
Proof.
  induction a as [|n a IH]; simpl; [reflexivity|].
  destruct (selects n); simpl; now rewrite IH.
Qed.

Lemma barTitles_app a b : barTitles (a ++ b) = barTitles a ++ barTitles b.
Proof.
  induction a as [|n a IH]; simpl; [reflexivity|].
  destruct (barTitle n); simpl; now rewrite IH.
Qed.

(** *** The elements of the steps *)

Lemma hasClass_stepElement step index plan :
  Dom.hasClass "planstep" (stepElement options toLowerCase step index plan) = true.
Proof. reflexivity. Qed.

Lemma topOf_stepElement step index plan :
  topOf (stepElement options toLowerCase step index plan) = rowTop index.
Proof.
  unfold topOf, stepElement, renderGanttStep. dom_compute. now dom_lookup.
Qed.

Lemma idOf_stepElement step index plan :
  idOf (stepElement options toLowerCase step index plan)
    = Some (PText [Lit "plan${planIndex}step${index}"]).
Proof.
  unfold idOf, stepElement, renderGanttStep. dom_compute. now dom_lookup.
Qed.

Lemma selects_stepElement step index plan :
  selects (stepElement options toLowerCase step index plan) = None.
Proof.
  unfold selects, stepElement, renderGanttStep. dom_compute. now dom_lookup.
Qed.

Lemma barTitle_stepElement step index plan :
  barTitle (stepElement options toLowerCase step index plan)
    = Some (PText (toActionTooltipPlain step)).
Proof.
  unfold barTitle, stepElement, renderGanttStep. dom_compute.
  destruct (actionColor toLowerCase step plan); dom_compute; now dom_lookup.
Qed.

Lemma rows_steps (f : nat -> nat) plan xs i :
  rows (mapIndexed (fun step j => stepElement options toLowerCase step (f j) plan) xs i)
    = map (fun j => rowTop (f j)) (seq i (List.length xs)).
Proof.
  revert i. induction xs as [|x xs IH]; intros i; [reflexivity|].
  cbn [mapIndexed List.length seq map].
  unfold rows in *. cbn [filter]. rewrite hasClass_stepElement. cbn [map].
  now rewrite topOf_stepElement, IH.
Qed.

Lemma ids_steps (f : nat -> nat) plan xs i :
  ids (mapIndexed (fun step j => stepElement options toLowerCase step (f j) plan) xs i)
    = repeat (PText [Lit "plan${planIndex}step${index}"]) (List.length xs).
Proof.
  revert i. induction xs as [|x xs IH]; intros i; [reflexivity|].
  cbn [mapIndexed List.length repeat ids].
  now rewrite idOf_stepElement, IH.
Qed.

Lemma selections_steps (f : nat -> nat) plan xs i :
  selections (mapIndexed (fun step j => stepElement options toLowerCase step (f j) plan) xs i) = [].
Proof.
  revert i. induction xs as [|x xs IH]; intros i; [reflexivity|].
  cbn [mapIndexed selections].
  now rewrite selects_stepElement, IH.
Qed.

Lemma barTitles_steps (f : nat -> nat) plan xs i :
  barTitles (mapIndexed (fun step j => stepElement options toLowerCase step (f j) plan) xs i)
    = map (fun step => PText (toActionTooltipPlain step)) xs.
Proof.
  revert i. induction xs as [|x xs IH]; intros i; [reflexivity|].
  cbn [mapIndexed map barTitles].
  rewrite barTitle_stepElement, IH. reflexivity.
Qed.

(** *** The nodes of the helpful actions *)

Lemma rows_helpfulActionNodes actions : forall i,
  rows (List.concat (mapIndexed (fun a j => helpfulActionNodes j a) actions i)) = [].
Proof.
  induction actions as [|a actions IH]; intros i; [reflexivity|].
  cbn [mapIndexed List.concat]. rewrite rows_app, IH. reflexivity.
Qed.

Lemma ids_helpfulActionNodes actions : forall i,
  ids (List.concat (mapIndexed (fun a j => helpfulActionNodes j a) actions i)) = [].
Proof.
  induction actions as [|a actions IH]; intros i; [reflexivity|].
  cbn [mapIndexed List.concat]. rewrite ids_app, IH. reflexivity.
Qed.

Lemma barTitles_helpfulActionNodes actions : forall i,
  barTitles (List.concat (mapIndexed (fun a j => helpfulActionNodes j a) actions i)) = [].
Proof.
  induction actions as [|a actions IH]; intros i; [reflexivity|].
  cbn [mapIndexed List.concat]. rewrite barTitles_app, IH. reflexivity.
Qed.

Lemma selections_helpfulActionNodes actions : forall i,
  selections (List.concat (mapIndexed (fun a j => helpfulActionNodes j a) actions i))
    = map actionName actions.
Proof.
  induction actions as [|a actions IH]; intros i; [reflexivity|].
  cbn [mapIndexed List.concat map]. rewrite selections_app, IH. reflexivity.
Qed.

Lemma length_helpfulActionNodes actions : forall i,
  List.length (List.concat (mapIndexed (fun a j => helpfulActionNodes j a) actions i))
    = (2 * List.length actions)%nat.
Proof.
  induction actions as [|a actions IH]; intros i; [reflexivity|].
  cbn [mapIndexed List.concat List.length]. rewrite length_app, IH.
  change (List.length (helpfulActionNodes i a)) with 2%nat. lia.
Qed.

Lemma hasHelpfulActions_cases plan :
  (hasHelpfulActions plan = true /\ exists a rest, helpfulActions plan = Some (a :: rest)) \/
  hasHelpfulActions plan = false.
Proof.
  unfold hasHelpfulActions. destruct (helpfulActions plan) as [[|a rest]|];
    [now right | left | now right].
  split; [reflexivity | now exists a, rest].
Qed.

(** The number and the link of each helpful action, and then the element
    that holds the arrow. *)
Lemma helpfulNodes_eq plan k a rest :
  helpfulActions plan = Some (a :: rest) ->
  exists marker,
    helpfulNodes options plan k
      = List.concat (mapIndexed (fun a j => helpfulActionNodes j a) (a :: rest) 0)
        ++ [marker] /\
    Dom.hasClass "planstep" marker = true /\
    topOf marker = rowTop k /\
    Dom.lookup "style.left" (Dom.propsOf marker)
      = (if is_finite (toViewCoordinates options (now plan) plan)
         then Some (PText (px (toViewCoordinates options (now plan) plan)))
         else None) /\
    idOf marker = None /\ selects marker = None /\
    Dom.childrenOf marker = [TextNode [Lit "▶ "]].
Proof.
  intros H. unfold helpfulNodes, renderHelpfulActions, hasHelpfulActions. rewrite H.
  unfold Dom.createElement. rewrite forEachIndexed_helpful.
  eexists. split; [reflexivity|].
  unfold topOf, idOf, selects. dom_compute. repeat split; now dom_lookup.
Qed.

Lemma helpfulNodes_none plan k :
  hasHelpfulActions plan = false -> helpfulNodes options plan k = [].
Proof.
  intros H. unfold helpfulNodes, renderHelpfulActions. now rewrite H.
Qed.

Lemma rows_helpfulNodes plan k :
  rows (helpfulNodes options plan k)
    = if hasHelpfulActions plan then [rowTop k] else [].
Proof.
  destruct (hasHelpfulActions_cases plan) as [[Hhas (a & rest & H)] | Hno].
  - rewrite Hhas. destruct (helpfulNodes_eq plan k a rest H)
      as (marker & -> & Hclass & Htop & _).
    rewrite rows_app, rows_helpfulActionNodes. unfold rows. simpl filter.
    rewrite Hclass. simpl. now rewrite Htop.
  - rewrite Hno, helpfulNodes_none by assumption. reflexivity.
Qed.

Lemma helpfulNodes_facts plan k :
  barTitles (helpfulNodes options plan k) = [] /\
  ids (helpfulNodes options plan k) = [] /\
  selections (helpfulNodes options plan k)
    = (if hasHelpfulActions plan
       then map actionName (JS.nullish (helpfulActions plan) [])
       else []) /\
  List.length (helpfulNodes options plan k) = helpfulNodeCount plan.
Proof.
  unfold helpfulNodeCount.
  destruct (hasHelpfulActions_cases plan) as [[Hhas (a & rest & H)] | Hno].
  - rewrite Hhas, H.
    destruct (helpfulNodes_eq plan k a rest H)
      as (marker & -> & _ & _ & _ & Hid & Hsel & Hkids).
    rewrite barTitles_app, ids_app, selections_app, length_app,
      barTitles_helpfulActionNodes, ids_helpfulActionNodes,
      selections_helpfulActionNodes, length_helpfulActionNodes.
    cbn [barTitles ids selections JS.nullish List.length app].
    unfold barTitle. rewrite Hid, Hsel, Hkids. cbn.
    rewrite app_nil_r. repeat split.
  - rewrite Hno, (helpfulNodes_none plan k Hno). repeat split.
Qed.

Lemma ganttNodes_length plan stepsToDisplay planIndex :
  List.length (ganttNodes options toLowerCase plan stepsToDisplay planIndex)
    = (List.length stepsToDisplay + helpfulNodeCount plan)%nat.
Proof.
  rewrite ganttNodes_eq.
  destruct (helpfulNodes_facts plan
              (List.length (filter (fun step => isPlanHeadStep step (now plan))
                              stepsToDisplay))) as (_ & _ & _ & Hhelpful).
  rewrite !length_app, Hhelpful, !mapIndexed_length.
  rewrite <- (filter_length (fun step => isPlanHeadStep step (now plan)) stepsToDisplay).
  lia.
Qed.

End ChartFacts.

(** X9. [showGantt] gives each row of the chart to one positioned element:
    the tops of the elements of class [planstep] that it adds to the
    container are, in the order of the document, those of the rows 0, 1, ...
    up to the number of rows, which is the number of steps plus one when the
    plan has helpful actions; and the height it sets is that number of rows
    times the height of a row. *)
Theorem showGantt_rows :
  forall (options : PlanViewOptions) (toLowerCase : string -> string) (plan : Plan)
         (stepsToDisplay : list PlanStep)
         (planIndex : JS.number)
         (tag className : string) (props : list (string * PropValue)) (kids : list Node),
    let ganttDiv :=
      showGantt options toLowerCase (Element tag className props kids) plan stepsToDisplay
        planIndex in
    rows (Dom.childrenOf ganttDiv)
      = rows kids ++ map rowTop (seq 0 (rowCount plan stepsToDisplay)) /\
    Dom.lookup "style.height" (Dom.propsOf ganttDiv)
      = Some (PText (px (JS.ofNat (rowCount plan stepsToDisplay) * planStepHeight))).
Proof.
  intros options toLowerCase plan stepsToDisplay planIndex tag className props kids ganttDiv.
  subst ganttDiv. rewrite showGantt_nodes. cbn [Dom.childrenOf Dom.propsOf]. split.
  - rewrite !rows_app. f_equal.
    rewrite (rows_steps options toLowerCase (fun j => j)), rows_helpfulNodes.
    rewrite (rows_steps options toLowerCase
               (fun j => (j + (List.length (filter (fun step => isPlanHeadStep step (now plan))
                                              stepsToDisplay)
                               + (if hasHelpfulActions plan then 1 else 0)))%nat)).
    unfold rowCount.
    rewrite <- (filter_length (fun step => isPlanHeadStep step (now plan)) stepsToDisplay).
    set (h := List.length (filter (fun step => isPlanHeadStep step (now plan)) stepsToDisplay)).
    set (r := List.length
                (filter (fun step => negb (isPlanHeadStep step (now plan))) stepsToDisplay)).
    rewrite <- (map_map (fun j => (j + _)%nat) rowTop), seq_shift_add.
    rewrite (map_ext (fun j => rowTop j) rowTop) by reflexivity.
    replace (h + r + (if hasHelpfulActions plan then 1 else 0))%nat
      with (h + ((if hasHelpfulActions plan then 1 else 0) + r))%nat by lia.
    rewrite !seq_app, !map_app. f_equal.
    now destruct (hasHelpfulActions plan).
  - apply lookup_assign_same.
Qed.

(** X10. [showGantt] draws the steps of the plan head first and the other
    steps after them, each group in the order of the plan: the tooltips of
    the bars it adds, in the order of the document, are those of the steps
    that [isPlanHeadStep] holds of followed by those of the steps it does not
    hold of. *)
Theorem showGantt_order :
  forall (options : PlanViewOptions) (toLowerCase : string -> string) (plan : Plan)
         (stepsToDisplay : list PlanStep)
         (planIndex : JS.number),
    barTitles (ganttNodes options toLowerCase plan stepsToDisplay planIndex)
      = map (fun step => PText (toActionTooltipPlain step))
          (filter (fun step => isPlanHeadStep step (now plan)) stepsToDisplay
           ++ filter (fun step => negb (isPlanHeadStep step (now plan))) stepsToDisplay).
Proof.
  intros options toLowerCase plan stepsToDisplay planIndex. rewrite ganttNodes_eq.
  destruct (helpfulNodes_facts options plan
              (List.length (filter (fun step => isPlanHeadStep step (now plan))
                              stepsToDisplay))) as (Hhelpful & _).
  rewrite !barTitles_app, Hhelpful, (barTitles_steps options toLowerCase (fun j => j)),
    barTitles_steps.
  now rewrite map_app.
Qed.

(** X11. The elements of the steps all have the same id: the text
    [plan${planIndex}step${index}] as it stands, which the code writes
    between double quotes, so that neither the index of the plan nor that of
    the step is put in.  No other node that [showGantt] adds has an id. *)
Theorem step_ids_coincide :
  forall (options : PlanViewOptions) (toLowerCase : string -> string) (plan : Plan)
         (stepsToDisplay : list PlanStep)
         (planIndex : JS.number),
    ids (ganttNodes options toLowerCase plan stepsToDisplay planIndex)
      = repeat (PText [Lit "plan${planIndex}step${index}"]) (List.length stepsToDisplay).
Proof.
  intros options toLowerCase plan stepsToDisplay planIndex. rewrite ganttNodes_eq.
  destruct (helpfulNodes_facts options plan
              (List.length (filter (fun step => isPlanHeadStep step (now plan))
                              stepsToDisplay))) as (_ & Hhelpful & _).
  rewrite !ids_app, Hhelpful, (ids_steps options toLowerCase (fun j => j)), ids_steps.
  rewrite <- (filter_length (fun step => isPlanHeadStep step (now plan)) stepsToDisplay).
  now rewrite repeat_app.
Qed.

(** X12. The links that [showGantt] adds for the helpful actions call
    [onHelpfulActionSelected] with the names of the helpful actions of the
    plan, one link for each action and in their order; no other node that it
    adds has a click handler, and there is no link when the plan has no
    helpful action. *)
Theorem helpful_links_select :
  forall (options : PlanViewOptions) (toLowerCase : string -> string) (plan : Plan)
         (stepsToDisplay : list PlanStep)
         (planIndex : JS.number),
    selections (ganttNodes options toLowerCase plan stepsToDisplay planIndex)
      = if hasHelpfulActions plan
        then map actionName (JS.nullish (helpfulActions plan) [])
        else [].
Proof.
  intros options toLowerCase plan stepsToDisplay planIndex. rewrite ganttNodes_eq.
  destruct (helpfulNodes_facts options plan
              (List.length (filter (fun step => isPlanHeadStep step (now plan))
                              stepsToDisplay))) as (_ & _ & Hhelpful & _).
  rewrite !selections_app, Hhelpful.
  rewrite (selections_steps options toLowerCase (fun j => j)), selections_steps.
  now rewrite app_nil_r.
Qed.

(** X13. [renderHelpfulActions] adds the numbers and the links of the helpful
    actions to the container itself, two nodes for each action, and after
    them the positioned element of the row, which holds the arrow only: the
    links are siblings of that element, not its children.  The element is in
    the row after the plan head.  Its left offset is the horizontal position
    of [now] when that is a finite number of pixels; when it is not, as for
    a makespan of 0, the value written is no length and the element has no
    left offset.  Without helpful actions the container is left as it is. *)
Theorem renderHelpfulActions_layout :
  forall (options : PlanViewOptions) (plan : Plan) (planHeadLength : nat)
         (tag className : string) (props : list (string * PropValue)) (kids : list Node),
    let ganttDiv := Element tag className props kids in
    if hasHelpfulActions plan then
      exists links marker,
        renderHelpfulActions options ganttDiv plan planHeadLength
          = Element tag className props (kids ++ links ++ [marker]) /\
        List.length links = (2 * List.length (JS.nullish (helpfulActions plan) []))%nat /\
        Dom.hasClass "planstep" marker = true /\
        topOf marker = rowTop planHeadLength /\
        Dom.lookup "style.left" (Dom.propsOf marker)
          = (if is_finite (toViewCoordinates options (now plan) plan)
             then Some (PText (px (toViewCoordinates options (now plan) plan)))
             else None) /\
        Dom.childrenOf marker = [TextNode [Lit "▶ "]]
    else renderHelpfulActions options ganttDiv plan planHeadLength = ganttDiv.
Proof.
  intros options plan planHeadLength tag className props kids ganttDiv. subst ganttDiv.
  destruct (hasHelpfulActions_cases plan) as [[Hhas (a & rest & H)] | Hno].
  - rewrite Hhas, renderHelpfulActions_nodes.
    destruct (helpfulNodes_eq options plan planHeadLength a rest H)
      as (marker & -> & Hclass & Htop & Hleft & _ & _ & Hkids).
    eexists. exists marker. split; [reflexivity|].
    rewrite H, length_helpfulActionNodes.
    now repeat split.
  - rewrite Hno. unfold renderHelpfulActions. now rewrite Hno.
Qed.

(** ** The containers of a host *)

Section ContainerFacts.

Variable cls : string.

Lemma querySelectorAll_cons tag className props k rest :
  Dom.querySelectorAll (Dom.hasClass cls) (Element tag className props (k :: rest)) =
    (if Dom.hasClass cls k then [k] else [])
    ++ Dom.querySelectorAll (Dom.hasClass cls) k
    ++ Dom.querySelectorAll (Dom.hasClass cls) (Element tag className props rest).
Proof. reflexivity. Qed.

Lemma querySelectorAll_app tag className props kids added :
  Dom.querySelectorAll (Dom.hasClass cls) (Element tag className props (kids ++ added)) =
    Dom.querySelectorAll (Dom.hasClass cls) (Element tag className props kids)
    ++ Dom.querySelectorAll (Dom.hasClass cls) (Element tag className props added).
Proof.
  induction kids as [|k rest IH]; [reflexivity|].
  simpl app. rewrite !querySelectorAll_cons, IH, <- !app_assoc. reflexivity.
Qed.

Lemma querySelectorAll_unmatched tag className props nodes :
  unmatched (Dom.hasClass cls) nodes ->
  Dom.querySelectorAll (Dom.hasClass cls) (Element tag className props nodes) = [].
Proof.
  induction 1 as [|n nodes [Hn Hall] _ IH]; [reflexivity|].
  now rewrite querySelectorAll_cons, Hn, Hall, IH.
Qed.

(** Where [querySelector] finds nothing there is nothing to find, and where
    it finds an element there is one at least. *)
Lemma querySelector_all n :
  match Dom.querySelector (Dom.hasClass cls) n with
  | None => Dom.querySelectorAll (Dom.hasClass cls) n = []
  | Some _ => (1 <= List.length (Dom.querySelectorAll (Dom.hasClass cls) n))%nat
  end.
Proof.
  induction n as [data | tag className props kids IH] using Node_forall_ind;
    [reflexivity|].
  induction IH as [|k rest Hk _ IHrest]; [reflexivity|].
  rewrite querySelector_cons, querySelectorAll_cons.
  destruct (Dom.hasClass cls k).
  - cbn [app List.length]. lia.
  - destruct (Dom.querySelector (Dom.hasClass cls) k).
    + rewrite !length_app. cbn [List.length]. lia.
    + rewrite Hk. cbn [app].
      destruct (Dom.querySelector (Dom.hasClass cls) (Element tag className props rest));
        exact IHrest.
Qed.

(** [updateSelected] changes the document where [querySelector] finds an
    element, and only there. *)
Lemma updateSelected_defined h n :
  match Dom.querySelector (Dom.hasClass cls) n with
  | None => Dom.updateSelected (Dom.hasClass cls) h n = None
  | Some _ => exists n', Dom.updateSelected (Dom.hasClass cls) h n = Some n'
  end.
Proof.
  induction n as [data | tag className props kids IH] using Node_forall_ind;
    [reflexivity|].
  induction IH as [|k rest Hk _ IHrest]; [reflexivity|].
  rewrite querySelector_cons, updateSelected_cons.
  destruct (Dom.hasClass cls k); [now eexists|].
  destruct (Dom.querySelector (Dom.hasClass cls) k).
  - destruct Hk as (k' & ->). now eexists.
  - rewrite Hk.
    destruct (Dom.querySelector (Dom.hasClass cls) (Element tag className props rest)).
    + destruct IHrest as (r & ->). now eexists.
    + now rewrite IHrest.
Qed.

Variable f : Node -> Node.

(** [updateSelected] does not look at what [f] makes of other elements than
    the one that [querySelector] finds. *)
Lemma updateSelected_found n :
  forall g, Dom.querySelector (Dom.hasClass cls) n = Some g ->
  Dom.updateSelected (Dom.hasClass cls) f n
    = Dom.updateSelected (Dom.hasClass cls) (fun _ => f g) n.
Proof.
  induction n as [data | tag className props kids IH] using Node_forall_ind;
    [discriminate|].
  induction IH as [|k rest Hk _ IHrest]; [discriminate|].
  intros g. rewrite querySelector_cons, !updateSelected_cons.
  destruct (Dom.hasClass cls k).
  - now intros [= ->].
  - destruct (Dom.querySelector (Dom.hasClass cls) k) as [g'|] eqn:Hqk.
    + intros [= ->]. rewrite <- (Hk g eq_refl).
      pose proof (updateSelected_defined f k) as H. rewrite Hqk in H.
      destruct H as (k' & ->). reflexivity.
    + intros Hq.
      assert (Hnone : forall h, Dom.updateSelected (Dom.hasClass cls) h k = None).
      { intros h. pose proof (updateSelected_defined h k) as H.
        now rewrite Hqk in H. }
      now rewrite !Hnone, (IHrest g Hq).
Qed.

Hypothesis f_keeps_class :
  forall g, Dom.hasClass cls g = true -> Dom.hasClass cls (f g) = true.
Hypothesis f_keeps_count :
  forall g, Dom.hasClass cls g = true ->
    List.length (Dom.querySelectorAll (Dom.hasClass cls) (f g))
      = List.length (Dom.querySelectorAll (Dom.hasClass cls) g).

(** As many elements match after [updateSelected] as before, when [f] keeps
    the class of an element and adds nothing that matches. *)
Lemma updateSelected_count n :
  forall n', Dom.updateSelected (Dom.hasClass cls) f n = Some n' ->
  List.length (Dom.querySelectorAll (Dom.hasClass cls) n')
    = List.length (Dom.querySelectorAll (Dom.hasClass cls) n).
Proof.
  induction n as [data | tag className props kids IH] using Node_forall_ind;
    [discriminate|].
  induction IH as [|k rest Hk _ IHrest]; [discriminate|].
  intros n'. rewrite updateSelected_cons.
  destruct (Dom.hasClass cls k) eqn:Hsel.
  - intros [= <-]. rewrite !querySelectorAll_cons, Hsel, (f_keeps_class k Hsel).
    rewrite !length_app, (f_keeps_count k Hsel). reflexivity.
  - destruct (Dom.updateSelected (Dom.hasClass cls) f k) as [k'|] eqn:Hupd.
    + intros [= <-].
      rewrite !querySelectorAll_cons, (updateSelected_keeps_class cls f cls k k' Hupd), Hsel.
      rewrite !length_app, (Hk k' eq_refl). reflexivity.
    + destruct (Dom.updateSelected (Dom.hasClass cls) f (Element tag className props rest))
        as [r|] eqn:Hrest; [|discriminate].
      intros [= <-].
      destruct (updateSelected_shape _ _ _ _ Hrest) as (t & c & p & l & l' & E & ->).
      injection E as <- <- <- <-. cbn [Dom.childrenOf].
      rewrite !querySelectorAll_cons, !length_app, (IHrest _ eq_refl). reflexivity.
Qed.

End ContainerFacts.

(** ** The host after [showPlan] *)

(** On a host in which nothing matches, the new last child is the element
    that [updateSelected] changes. *)
Lemma updateSelected_appendChild cls f tag className props kids child :
  (forall g, Dom.hasClass cls g = true -> Dom.hasClass cls (f g) = true) ->
  Dom.querySelector (Dom.hasClass cls) (Element tag className props kids) = None ->
  Dom.hasClass cls child = true ->
  Dom.updateSelected (Dom.hasClass cls) f
    (Dom.appendChild (Element tag className props kids) child)
  = Some (Element tag className props (kids ++ [f child])).
Proof.
  intros Hf Hnone Hchild. unfold Dom.appendChild.
  induction kids as [|k rest IH].
  - simpl app. rewrite updateSelected_cons, Hchild. reflexivity.
  - rewrite querySelector_cons in Hnone. simpl app. rewrite updateSelected_cons.
    destruct (Dom.hasClass cls k); [discriminate|].
    pose proof (updateSelected_querySelector cls f Hf k) as Hk.
    destruct (Dom.querySelector (Dom.hasClass cls) k); [discriminate|].
    rewrite Hk, (IH Hnone). reflexivity.
Qed.

Section GanttContainerFacts.

Variable options : PlanViewOptions.
Variable toLowerCase : string -> string.
Variable capitalize : Plan -> Plan.

Lemma unmatched_app sel a b : unmatched sel a -> unmatched sel b -> unmatched sel (a ++ b).
Proof. intros Ha Hb. apply Forall_app. now split. Qed.

Lemma unmatched_steps (f : nat -> nat) plan xs : forall i,
  unmatched (Dom.hasClass "gantt")
    (mapIndexed (fun step j => stepElement options toLowerCase step (f j) plan) xs i).
Proof.
  induction xs as [|x xs IH]; intros i; [constructor|].
  cbn [mapIndexed]. constructor; [|apply IH]. split; [reflexivity|].
  unfold stepElement, renderGanttStep, toActionLink. dom_compute.
  destruct (actionColor toLowerCase x plan);
    now destruct (JS.nullish (selfContained options) false || JS.isUndefined (domain plan)).
Qed.

Lemma unmatched_helpfulActionNodes actions : forall i,
  unmatched (Dom.hasClass "gantt")
    (List.concat (mapIndexed (fun a j => helpfulActionNodes j a) actions i)).
Proof.
  induction actions as [|a actions IH]; intros i; [constructor|].
  cbn [mapIndexed List.concat]. apply unmatched_app; [|apply IH].
  repeat constructor.
Qed.

Lemma unmatched_helpfulNodes plan k :
  unmatched (Dom.hasClass "gantt") (helpfulNodes options plan k).
Proof.
  unfold helpfulNodes, renderHelpfulActions.
  destruct (hasHelpfulActions plan); [|constructor].
  unfold Dom.createElement.
  destruct (helpfulActions plan) as [actions|].
  - rewrite forEachIndexed_helpful. dom_compute.
    apply unmatched_app; [apply unmatched_helpfulActionNodes|].
    now repeat constructor.
  - dom_compute. now repeat constructor.
Qed.

Lemma unmatched_ganttNodes plan stepsToDisplay planIndex :
  unmatched (Dom.hasClass "gantt")
    (ganttNodes options toLowerCase plan stepsToDisplay planIndex).
Proof.
  rewrite ganttNodes_eq.
  repeat apply unmatched_app;
    [apply (unmatched_steps (fun j => j)) | apply unmatched_helpfulNodes
    | apply unmatched_steps].
Qed.

(** [showGantt] adds no [.gantt] element. *)
Lemma showGantt_count plan stepsToDisplay planIndex g :
  isElement g = true ->
  ganttCount (showGantt options toLowerCase g plan stepsToDisplay planIndex)
    = ganttCount g.
Proof.
  unfold ganttCount. destruct g as [data | tag className props kids]; [discriminate|].
  intros _.
  rewrite showGantt_nodes.
  change (Dom.querySelectorAll (Dom.hasClass "gantt") (Element tag className ?p ?l))
    with (Dom.querySelectorAll (Dom.hasClass "gantt") (Element tag className props l)).
  pose proof (unmatched_ganttNodes plan stepsToDisplay planIndex) as H.
  rewrite ganttNodes_eq in H.
  now rewrite querySelectorAll_app, (querySelectorAll_unmatched _ _ _ _ _ H), app_nil_r.
Qed.

(** [showPlan] on a host without a [.gantt] element. *)
Lemma showPlan_fresh plan planIndex settings tag className props kids :
  Dom.querySelector (Dom.hasClass "gantt") (Element tag className props kids) = None ->
  showPlan options toLowerCase capitalize plan planIndex settings
      (Element tag className props kids)
    = Element tag className props
        (kids ++ [showGantt options toLowerCase newGanttDiv (capitalize plan)
                    (filter (fun step => shouldDisplay step settings)
                       (steps (capitalize plan)))
                    planIndex]).
Proof.
  intros Hnone. unfold showPlan. rewrite Hnone. unfold createSubElement.
  rewrite (updateSelected_appendChild "gantt"); try assumption; try reflexivity.
  intros g. apply showGantt_keeps_class.
Qed.

(** [showPlan] on a host with a [.gantt] element. *)
Lemma showPlan_reuses plan planIndex settings host g :
  Dom.querySelector (Dom.hasClass "gantt") host = Some g ->
  let ganttDiv :=
    showGantt options toLowerCase g (capitalize plan)
      (filter (fun step => shouldDisplay step settings) (steps (capitalize plan)))
      planIndex in
  Dom.updateSelected (Dom.hasClass "gantt") (fun _ => ganttDiv) host
    = Some (showPlan options toLowerCase capitalize plan planIndex settings host) /\
  ganttCount (showPlan options toLowerCase capitalize plan planIndex settings host)
    = ganttCount host.
Proof.
  intros Hq ganttDiv. unfold showPlan. rewrite Hq.
  set (F := fun ganttDiv => showGantt options toLowerCase ganttDiv (capitalize plan) _ planIndex).
  pose proof (updateSelected_defined "gantt" F host) as H. rewrite Hq in H.
  destruct H as (host' & Hupd). rewrite Hupd. split.
  - rewrite (updateSelected_found "gantt" F host g Hq) in Hupd. exact Hupd.
  - apply (updateSelected_count "gantt" F); try exact Hupd.
    + intros h. apply showGantt_keeps_class.
    + intros h Hh. apply showGantt_count. now destruct h.
Qed.

(** The [.gantt] elements of a host after [showPlan]: those it had, or one
    when it had none. *)
Lemma showPlan_count plan planIndex settings host :
  isElement host = true ->
  ganttCount (showPlan options toLowerCase capitalize plan planIndex settings host)
    = Nat.max 1 (ganttCount host).
Proof.
  intros Helem.
  pose proof (querySelector_all "gantt" host) as Hall.
  destruct (Dom.querySelector (Dom.hasClass "gantt") host) as [g|] eqn:Hq.
  - destruct (showPlan_reuses plan planIndex settings host g Hq) as [_ ->].
    unfold ganttCount. lia.
  - destruct host as [data | tag className props kids]; [discriminate|].
    rewrite (showPlan_fresh _ _ _ _ _ _ _ Hq). unfold ganttCount in *.
    rewrite querySelectorAll_app, Hall. cbn [app].
    rewrite querySelectorAll_cons.
    rewrite (showGantt_keeps_class options toLowerCase "gantt" _ _ _ newGanttDiv eq_refl).
    pose proof (showGantt_count (capitalize plan)
                  (filter (fun step => shouldDisplay step settings) (steps (capitalize plan)))
                  planIndex newGanttDiv eq_refl) as Hc.
    unfold ganttCount in Hc. rewrite !length_app, Hc. reflexivity.
Qed.

End GanttContainerFacts.




(** X14. On a host without a [.gantt] element, [showPlan] leaves the host and
    its children as they are and adds one last child: a new [div] of class
    [gantt], as [showGantt] fills it with the steps of the capitalized plan
    that are to be displayed. *)
Theorem showPlan_fresh_host :
  forall (options : PlanViewOptions) (toLowerCase : string -> string)
         (capitalize : Plan -> Plan)
         (plan : Plan) (planIndex : JS.number) (settings : option PlanReportSettings)
         (tag className : string) (props : list (string * PropValue)) (kids : list Node),
    let host := Element tag className props kids in
    Dom.querySelector (Dom.hasClass "gantt") host = None ->
    showPlan options toLowerCase capitalize plan planIndex settings host
      = Element tag className props
          (kids ++ [showGantt options toLowerCase newGanttDiv (capitalize plan)
                      (filter (fun step => shouldDisplay step settings)
                         (steps (capitalize plan)))
                      planIndex]).
Proof.
  intros options toLowerCase capitalize plan planIndex settings tag className props kids
    host Hnone.
  now apply showPlan_fresh.
Qed.

Lemma showPlan_fresh_host_witness :
  showPlan Demo.options Demo.toLowerCase Demo.capitalized Demo.helpfulPlan 0 None Demo.host
    = Element "div" "" [("id", PText [Lit "plan"])]%string
        ([] ++ [showGantt Demo.options Demo.toLowerCase newGanttDiv
                  (Demo.capitalized Demo.helpfulPlan)
                  (filter (fun step => shouldDisplay step None)
                     (steps (Demo.capitalized Demo.helpfulPlan)))
                  0]).
Proof.
  exact (showPlan_fresh_host Demo.options Demo.toLowerCase Demo.capitalized Demo.helpfulPlan 0 None
           "div" "" [("id", PText [Lit "plan"])]%string [] eq_refl).
Defined.

(** X15. After [showPlan] the [.gantt] element of the host has, beside the
    children it had before (none when the host had no such element), one
    child for each step of the capitalized plan that the settings let
    through, all of them when there are no settings, and, when the plan has
    helpful actions, two for each of them and one for the arrow. *)
Theorem showPlan_ganttSize :
  forall (options : PlanViewOptions) (toLowerCase : string -> string)
         (capitalize : Plan -> Plan)
         (plan : Plan) (planIndex : JS.number) (settings : option PlanReportSettings)
         (host : Node),
    let shown := capitalize plan in
    isElement host = true ->
    ganttSize (showPlan options toLowerCase capitalize plan planIndex settings host)
      = Some (JS.nullish (ganttSize host) 0
              + List.length (filter (fun step => shouldDisplay step settings) (steps shown))
              + helpfulNodeCount shown)%nat.
Proof.
  intros options toLowerCase capitalize plan planIndex settings host shown Helem. subst shown.
  destruct (showPlan_selected options toLowerCase capitalize plan planIndex settings host Helem)
    as (g & Hg & Hwhich & _ & Hq).
  unfold ganttSize at 1. rewrite Hq. cbn [option_map]. f_equal.
  destruct g as [data | tag className props kids]; [discriminate|].
  rewrite showGantt_children, length_app, ganttNodes_length.
  unfold ganttSize.
  destruct Hwhich as [-> | [-> E]]; cbn [option_map JS.nullish Dom.childrenOf].
  - lia.
  - injection E as _ _ _ ->. cbn [List.length]. lia.
Qed.

(** The plan of one step and one helpful action on the empty host: the step,
    the number and the link of the action, and the arrow. *)
Lemma showPlan_ganttSize_witness :
  ganttSize
    (showPlan Demo.options Demo.toLowerCase Demo.capitalized Demo.helpfulPlan 0 None
       Demo.host)
    = Some (0 + 1 + 3)%nat.
Proof.
  exact (showPlan_ganttSize Demo.options Demo.toLowerCase Demo.capitalized Demo.helpfulPlan 0 None
           Demo.host eq_refl).
Defined.
